(** * Volt X codebook tools: a shallow embedding of [tools/codebook_init.py]
    and of [load_codebook] from [tools/train_translator.py].

    The Python functions are written as computations in a small monad that
    threads the outside world (file system, clock, standard output) and can
    raise a Python exception.  Values keep the representation the code gives
    them: byte strings are lists of bytes, [struct] integers are [Z] with an
    explicit range check, a numpy [float32] is its IEEE-754 bit pattern, a
    Python [float] is a binary64 primitive float. *)

From Stdlib Require Import Strings.Byte String Ascii ZArith List Bool Arith Lia.
From Stdlib Require Import PrimFloat.
From Stdlib Require Uint63.
From Stdlib Require SpecFloat FloatOps FloatAxioms.
Import ListNotations.

Set Implicit Arguments.
Local Open Scope Z_scope.

(** ** Python exceptions and results *)

Inductive exn : Set :=
| ValueError
| AssertionError
| ZeroDivisionError
| IndexError
| StructError
| FileNotFoundError.

Inductive result (A : Type) : Type :=
| Ok (a : A)
| Raise (e : exn).

Arguments Ok {A} a.
Arguments Raise {A} e.

Definition rbind {A B} (r : result A) (k : A -> result B) : result B :=
  match r with
  | Ok a => k a
  | Raise e => Raise e
  end.

(** ** Bytes, [struct.pack("<I", _)] and [struct.unpack("<I", _)] *)

Definition bytes := list byte.

Definition Z_of_byte (b : byte) : Z := Z.of_N (Byte.to_N b).

Definition byte_of_Z (z : Z) : byte :=
  match Byte.of_N (Z.to_N (z mod 256)) with
  | Some b => b
  | None => x00
  end.

(** The [n] low-order bytes of [x], least significant first. *)
Fixpoint le_bytes (n : nat) (x : Z) : bytes :=
  match n with
  | O => []
  | S n' => byte_of_Z x :: le_bytes n' (x / 256)
  end.

(** The unsigned integer a little-endian byte string denotes. *)
Fixpoint le_int (bs : bytes) : Z :=
  match bs with
  | [] => 0
  | b :: rest => Z_of_byte b + 256 * le_int rest
  end.

Definition u32_max : Z := 4294967295.

(** [struct.pack("<I", x)]: [struct.error] unless [0 <= x <= 0xFFFFFFFF]. *)
Definition struct_pack_I (x : Z) : result bytes :=
  if (0 <=? x) && (x <=? u32_max) then Ok (le_bytes 4 x) else Raise StructError.

(** [struct.unpack("<I", buf)[0]]: [struct.error] unless [buf] has 4 bytes. *)
Definition struct_unpack_I (buf : bytes) : result Z :=
  if Nat.eqb (length buf) 4 then Ok (le_int buf) else Raise StructError.

(** ** numpy arrays of [float32] *)

(** A [float32] scalar, as the unsigned value of its 32-bit encoding. *)
Definition f32 := Z.

Definition is_f32 (x : f32) : Prop := 0 <= x <= u32_max.

(** A two-dimensional C-ordered array: [shape = (length rows, dim)]. *)
Record ndarray : Type := mk_ndarray {
  dim : nat;
  rows : list (list f32)
}.

Definition shape0 (a : ndarray) : nat := length (rows a).
Definition shape1 (a : ndarray) : nat := dim a.

Definition wf_ndarray (a : ndarray) : Prop :=
  Forall (fun r => length r = dim a /\ Forall is_f32 r) (rows a).

(** [a.astype("<f4").tobytes()]: every element, row after row, as the four
    little-endian bytes of its encoding. *)
Definition f32_tobytes (x : f32) : bytes := le_bytes 4 x.

Definition tobytes (a : ndarray) : bytes :=
  flat_map (fun r => flat_map f32_tobytes r) (rows a).

(** [np.frombuffer(buf, dtype=np.float32)] on a little-endian host: the
    buffer length must be a multiple of the item size. *)
Fixpoint group4 (buf : bytes) : list f32 :=
  match buf with
  | b0 :: b1 :: b2 :: b3 :: rest => le_int [b0; b1; b2; b3] :: group4 rest
  | _ => []
  end.

Definition frombuffer (buf : bytes) : result (list f32) :=
  if Nat.eqb (Nat.modulo (length buf) 4) 0
  then Ok (group4 buf)
  else Raise ValueError.

(** [flat.reshape(r, c)]: the sizes must agree. *)
Fixpoint chunks (r c : nat) (flat : list f32) : list (list f32) :=
  match r with
  | O => []
  | S r' => firstn c flat :: chunks r' c (skipn c flat)
  end.

Definition reshape (flat : list f32) (r c : nat) : result ndarray :=
  if Nat.eqb (length flat) (r * c)
  then Ok (mk_ndarray c (chunks r c flat))
  else Raise ValueError.

(** ** The outside world and the computation monad *)

(** What the scripts print, one constructor per [print] site, carrying the
    values the message interpolates. *)
Inductive event : Type :=
| LoadingEmbeddings (path : string)
| LoadedVectors (count width : nat)
| KMeansStart (n k : nat)
| KMeansParams (batch_size max_iter : nat)
| InitStart (k : nat)
| InitDone (seconds : float)
| ProgressBar (current total : nat) (elapsed eta : float)
| Converged (epoch : nat)
| KMeansDone (elapsed inertia : float)
| SavedCodebook (entry_count width : nat) (size_mb : float) (path : string).

Record World : Type := mk_World {
  w_fs : string -> option bytes;     (* files by path *)
  w_clock : nat -> float;            (* successive readings of time.time() *)
  w_ticks : nat;                     (* readings taken so far *)
  w_stdout : list event
}.

(** Computations over a state [S] that return a value or raise. *)
Definition St (S A : Type) : Type := S -> result A * S.

Definition ret {S A} (a : A) : St S A := fun s => (Ok a, s).

Definition raise {S A} (e : exn) : St S A := fun s => (Raise e, s).

Definition bind {S A B} (m : St S A) (k : A -> St S B) : St S B :=
  fun s =>
    match m s with
    | (Ok a, s') => k a s'
    | (Raise e, s') => (Raise e, s')
    end.

Definition lift {S A} (r : result A) : St S A := fun s => (r, s).

Declare Scope py_scope.
Delimit Scope py_scope with py.
Notation "x <- m ;; k" := (bind m (fun x => k))
  (at level 61, m at next level, right associativity) : py_scope.
Notation "m ;; k" := (bind m (fun _ => k))
  (at level 61, right associativity) : py_scope.
Local Open Scope py_scope.

(** Computations of the scripts proper act on the world. *)
Definition M (A : Type) : Type := St World A.

Definition print (e : event) : M unit :=
  fun w => (Ok tt, mk_World (w_fs w) (w_clock w) (w_ticks w) (w_stdout w ++ [e])).

Definition time_time : M float :=
  fun w => (Ok (w_clock w (w_ticks w)),
            mk_World (w_fs w) (w_clock w) (S (w_ticks w)) (w_stdout w)).

Definition py_assert {S} (b : bool) : St S unit :=
  if b then ret tt else raise AssertionError.

Definition fs_set (fs : string -> option bytes) (path : string) (content : bytes)
  : string -> option bytes :=
  fun p => if String.eqb p path then Some content else fs p.

(** [with open(path, "wb") as f: body]: the body acts on the bytes written
    so far, starting from the empty file; what it has written when the block
    is left, normally or by an exception, is the content of the file.
    Opening for writing is taken to succeed. *)
Definition with_open_wb {A} (path : string) (body : St bytes A) : M A :=
  fun w =>
    let (r, content) := body [] in
    (r, mk_World (fs_set (w_fs w) path content) (w_clock w) (w_ticks w) (w_stdout w)).

(** [f.write(data)] *)
Definition f_write (data : bytes) : St bytes unit :=
  fun f => (Ok tt, f ++ data).

(** [with open(path, "rb") as f: body]: the body acts on the unread rest. *)
Definition with_open_rb {A} (path : string) (body : St bytes A) : M A :=
  fun w =>
    match w_fs w path with
    | Some content => (fst (body content), w)
    | None => (Raise FileNotFoundError, w)
    end.

(** [f.read(n)]: at most [n] bytes, fewer at the end of the file. *)
Definition f_read (n : nat) : St bytes bytes :=
  fun f => (Ok (firstn n f), skipn n f).

(** [Path(path).stat().st_size] *)
Definition stat_size (path : string) : M nat :=
  fun w =>
    match w_fs w path with
    | Some content => (Ok (length content), w)
    | None => (Raise FileNotFoundError, w)
    end.

(** A Python [int] used where a [float] is expected. *)
Definition float_of_Z (z : Z) : float := PrimFloat.of_uint63 (Uint63.of_Z z).

(** ** The codebook codec *)

(** [MAGIC = b"VXCB"] *)
Definition MAGIC : bytes := [x56; x58; x43; x42].
Definition FORMAT_VERSION : Z := 1.
Definition TARGET_DIM : nat := 256.
Definition DEFAULT_K : Z := 65536.

(** [SLOT_DIM = 256] in [train_translator.py]. *)
Definition SLOT_DIM : Z := 256.

Fixpoint bytes_eqb (a b : bytes) : bool :=
  match a, b with
  | [], [] => true
  | x :: a', y :: b' => Byte.eqb x y && bytes_eqb a' b'
  | _, _ => false
  end.

(** [save_codebook(centroids, path)] *)
Definition save_codebook (centroids : ndarray) (path : string) : M unit :=
  let entry_count := shape0 centroids in
  let dim := shape1 centroids in
  py_assert (Nat.eqb dim TARGET_DIM) ;;
  with_open_wb path (
    f_write MAGIC ;;
    b <- lift (struct_pack_I FORMAT_VERSION) ;;
    f_write b ;;
    b <- lift (struct_pack_I (Z.of_nat entry_count)) ;;
    f_write b ;;
    b <- lift (struct_pack_I (Z.of_nat dim)) ;;
    f_write b ;;
    f_write (tobytes centroids)) ;;
  st_size <- stat_size path ;;
  let size_mb := PrimFloat.div (float_of_Z (Z.of_nat st_size)) (float_of_Z (1024 * 1024)) in
  print (SavedCodebook entry_count dim size_mb path).

(** [load_codebook(path)]; the tensor returned has the array's shape and
    values. *)
Definition load_codebook (path : string) : M ndarray :=
  with_open_rb path (
    magic <- f_read 4 ;;
    if negb (bytes_eqb magic MAGIC) then raise ValueError else
    b <- f_read 4 ;;
    version <- lift (struct_unpack_I b) ;;
    b <- f_read 4 ;;
    entry_count <- lift (struct_unpack_I b) ;;
    b <- f_read 4 ;;
    dim <- lift (struct_unpack_I b) ;;
    if negb (dim =? SLOT_DIM) then raise ValueError else
    b <- f_read (Z.to_nat (entry_count * dim * 4)) ;;
    data <- lift (frombuffer b) ;;
    lift (reshape data (Z.to_nat entry_count) (Z.to_nat dim))).

(** ** Python strings

    A [str] is modelled by [string], one character per code point below
    U+0100; this covers ASCII text and the two Latin-1 white-space characters
    U+0085 and U+00A0. *)

Local Open Scope nat_scope.

Definition code (c : ascii) : nat := nat_of_ascii c.

(** [c.isspace()] for a code point below U+0100. *)
Definition str_isspace (c : ascii) : bool :=
  let n := code c in
  ((9 <=? n) && (n <=? 13)) || ((28 <=? n) && (n <=? 32)) || (n =? 133) || (n =? 160).

(** C's [Py_ISSPACE]: space, tab, newline, vertical tab, form feed, return. *)
Definition c_isspace (c : ascii) : bool :=
  let n := code c in
  ((9 <=? n) && (n <=? 13)) || (n =? 32).

Definition is_digit (c : ascii) : bool :=
  let n := code c in (48 <=? n) && (n <=? 57).

(** [s.rstrip()] *)
Fixpoint rstrip (s : string) : string :=
  match s with
  | EmptyString => EmptyString
  | String c rest =>
      match rstrip rest with
      | EmptyString => if str_isspace c then EmptyString else String c EmptyString
      | rest' => String c rest'
      end
  end.

(** [s.split(" ")]: the fields between single spaces, empty ones included. *)
Fixpoint split_space (s : string) : list string :=
  match s with
  | EmptyString => [EmptyString]
  | String c rest =>
      if Ascii.eqb c " " then EmptyString :: split_space rest
      else match split_space rest with
           | field :: fields => String c field :: fields
           | [] => [String c EmptyString]
           end
  end.

(** *** [float(s)] for a [str]

    CPython first maps the text to ASCII (white space above U+007E becomes a
    space; a character that is neither ASCII, white space nor a decimal digit
    becomes "?" and ends the text), then checks and drops underscores, strips
    C white space at both ends and hands the rest to its [strtod], which must
    consume all of it. *)

Fixpoint to_ascii_decimal (s : string) : string :=
  match s with
  | EmptyString => EmptyString
  | String c rest =>
      if code c <? 127 then String c (to_ascii_decimal rest)
      else if str_isspace c then String " " (to_ascii_decimal rest)
      else String "?" EmptyString
  end.

(** Underscores are allowed between digits only; a NUL ends the scan early,
    which is an error as well. *)
Fixpoint drop_underscores (prev : ascii) (s : string) : option string :=
  match s with
  | EmptyString => if Ascii.eqb prev "_" then None else Some EmptyString
  | String c rest =>
      if code c =? 0 then None
      else if Ascii.eqb c "_" then
        if is_digit prev then drop_underscores c rest else None
      else if Ascii.eqb prev "_" && negb (is_digit c) then None
      else option_map (String c) (drop_underscores c rest)
  end.

Fixpoint lstrip_c (s : string) : string :=
  match s with
  | EmptyString => EmptyString
  | String c rest => if c_isspace c then lstrip_c rest else s
  end.

Fixpoint rstrip_c (s : string) : string :=
  match s with
  | EmptyString => EmptyString
  | String c rest =>
      match rstrip_c rest with
      | EmptyString => if c_isspace c then EmptyString else String c EmptyString
      | rest' => String c rest'
      end
  end.

Inductive char_class : Set := Digit | Sign | Dot | Expo | Other.

Definition classify (c : ascii) : char_class :=
  if is_digit c then Digit
  else if Ascii.eqb c "+" || Ascii.eqb c "-" then Sign
  else if Ascii.eqb c "." then Dot
  else if Ascii.eqb c "e" || Ascii.eqb c "E" then Expo
  else Other.

(** The decimal grammar of [strtod]: an optional sign; then digits with an
    optional point and optional further digits, or a point followed by
    digits; then optionally an exponent letter, an optional sign and
    digits. *)
Inductive num_state : Set :=
| NStart | NSign | NInt | NDot | NFrac | NExp | NExpSign | NExpInt.

Definition num_step (q : num_state) (k : char_class) : option num_state :=
  match q, k with
  | NStart, Sign => Some NSign
  | NStart, Digit => Some NInt
  | NStart, Dot => Some NDot
  | NSign, Digit => Some NInt
  | NSign, Dot => Some NDot
  | NInt, Digit => Some NInt
  | NInt, Dot => Some NFrac
  | NInt, Expo => Some NExp
  | NDot, Digit => Some NFrac
  | NFrac, Digit => Some NFrac
  | NFrac, Expo => Some NExp
  | NExp, Sign => Some NExpSign
  | NExp, Digit => Some NExpInt
  | NExpSign, Digit => Some NExpInt
  | NExpInt, Digit => Some NExpInt
  | _, _ => None
  end.

Definition num_final (q : num_state) : bool :=
  match q with
  | NInt | NFrac | NExpInt => true
  | _ => false
  end.

Fixpoint num_run (q : num_state) (s : string) : bool :=
  match s with
  | EmptyString => num_final q
  | String c rest =>
      match num_step q (classify c) with
      | Some q' => num_run q' rest
      | None => false
      end
  end.

Definition lower (c : ascii) : ascii :=
  let n := code c in
  if (65 <=? n) && (n <=? 90) then ascii_of_nat (n + 32) else c.

Fixpoint lower_str (s : string) : string :=
  match s with
  | EmptyString => EmptyString
  | String c rest => String (lower c) (lower_str rest)
  end.

Definition drop_sign (s : string) : string :=
  match s with
  | String c rest => if Ascii.eqb c "+" || Ascii.eqb c "-" then rest else s
  | EmptyString => s
  end.

(** [sign? ("inf" | "infinity" | "nan")], in any letter case. *)
Definition is_inf_or_nan (s : string) : bool :=
  let t := lower_str (drop_sign s) in
  String.eqb t "inf" || String.eqb t "infinity" || String.eqb t "nan".

(** The text [strtod] is given, if the earlier steps let it through. *)
Definition float_literal (s : string) : option string :=
  match drop_underscores "000" (to_ascii_decimal s) with
  | Some t =>
      let t := rstrip_c (lstrip_c t) in
      if num_run NStart t || is_inf_or_nan t then Some t else None
  | None => None
  end.

(** ** What the Python runtime, numpy and scikit-learn provide

    These are not code of the repository; the scripts are modelled over any
    implementation of them. *)

Class Runtime : Type := {
  (** the lines a text file opened with [encoding="utf-8", errors="replace"]
      yields when iterated, line ends included *)
  text_lines : bytes -> list string;
  (** the binary64 value [strtod] gives a well-formed literal *)
  strtod : string -> float;
  (** the cast of a Python float to [np.float32] *)
  float32 : float -> f32
}.

Class RandomStateOps : Type := {
  RandomState : Type;
  (** [np.random.RandomState(seed)] *)
  RandomState_new : Z -> RandomState;
  (** the sample [rng.choice(n, size=size, replace=False)] draws when
      [size <= n], and the generator afterwards *)
  draw_choice : RandomState -> nat -> nat -> list nat * RandomState;
  (** [rng.permutation(n)] and the generator afterwards *)
  draw_permutation : RandomState -> nat -> list nat * RandomState
}.

Class MiniBatchKMeansOps : Type := {
  MiniBatchKMeans : Type;
  (** [MiniBatchKMeans(n_clusters, batch_size, random_state, max_iter,
      n_init=1, init="random", verbose=0)] *)
  MiniBatchKMeans_new : nat -> nat -> Z -> nat -> MiniBatchKMeans;
  (** [kmeans.partial_fit(X)]: the estimator afterwards, or the exception *)
  partial_fit : MiniBatchKMeans -> ndarray -> result MiniBatchKMeans;
  (** [kmeans.inertia_], a Python float, set by [partial_fit] *)
  inertia_ : MiniBatchKMeans -> float;
  (** [kmeans.cluster_centers_.astype(np.float32)] *)
  cluster_centers_ : MiniBatchKMeans -> ndarray
}.

(** ** The vector source reader *)

Section Reader.

Context `{Runtime}.

(** [float(x)] *)
Definition py_float (x : string) : result float :=
  match float_literal x with
  | Some t => Ok (strtod t)
  | None => Raise ValueError
  end.

(** [[float(x) for x in xs]] *)
Fixpoint floats (xs : list string) : result (list float) :=
  match xs with
  | [] => Ok []
  | x :: rest =>
      rbind (py_float x) (fun v =>
      rbind (floats rest) (fun vs => Ok (v :: vs)))
  end.

(** One iteration of the reading loop below the [max_vocab] test: the list
    [vectors] afterwards. *)
Definition read_line (line : string) (vectors : list (list f32))
  : result (list (list f32)) :=
  let parts := split_space (rstrip line) in
  if length parts <? 3 then Ok vectors          (* continue *)
  else
    match floats (tl parts) with
    | Ok xs => Ok (vectors ++ [map float32 xs])
    | Raise ValueError => Ok vectors            (* except ValueError: continue *)
    | Raise e => Raise e
    end.

(** [max_vocab is not None and i >= max_vocab] *)
Definition cap_reached (max_vocab : option nat) (i : nat) : bool :=
  match max_vocab with
  | Some m => m <=? i
  | None => false
  end.

(** [for i, line in enumerate(f): ...], from index [i] on. *)
Fixpoint read_lines (max_vocab : option nat) (i : nat) (lines : list string)
         (vectors : list (list f32)) : result (list (list f32)) :=
  match lines with
  | [] => Ok vectors
  | line :: rest =>
      if cap_reached max_vocab i then Ok vectors  (* break *)
      else rbind (read_line line vectors) (read_lines max_vocab (S i) rest)
  end.

(** [np.stack(vectors, axis=0)] *)
Definition np_stack (vectors : list (list f32)) : result ndarray :=
  match vectors with
  | [] => Raise ValueError
  | v :: rest =>
      if forallb (fun u => length u =? length v) rest
      then Ok (mk_ndarray (length v) vectors)
      else Raise ValueError
  end.

(** [with open(path, "r", encoding="utf-8", errors="replace") as f: body] *)
Definition with_open_r {A} (path : string) (body : list string -> result A) : M A :=
  fun w =>
    match w_fs w path with
    | Some content => (body (text_lines content), w)
    | None => (Raise FileNotFoundError, w)
    end.

(** [load_embeddings(path, max_vocab)] *)
Definition load_embeddings (path : string) (max_vocab : option nat) : M ndarray :=
  print (LoadingEmbeddings path) ;;
  vectors <- with_open_r path (fun f => read_lines max_vocab 0 f []) ;;
  data <- lift (np_stack vectors) ;;
  print (LoadedVectors (shape0 data) (shape1 data)) ;;
  ret data.

End Reader.

(** ** The streaming clusterer *)

Set Warnings "-inexact-float".

(** Python's [a / b] on floats. *)
Definition py_div (a b : float) : result float :=
  if PrimFloat.eqb b 0%float then Raise ZeroDivisionError else Ok (PrimFloat.div a b).

(** The [delta] of the convergence check, in percent. *)
Definition improvement_pct (prev_inertia inertia : float) : result float :=
  if negb (PrimFloat.eqb prev_inertia infinity) then
    rbind (py_div (PrimFloat.sub prev_inertia inertia) prev_inertia) (fun q =>
    Ok (PrimFloat.mul q 100%float))
  else Ok 0%float.

(** What the convergence test decides at the end of an epoch: leave the
    loop, or go on with the given [prev_inertia]. *)
Inductive verdict : Set :=
| Stop
| Proceed (prev_inertia : float).

(** Lines 158-165: the test run after the batches of epoch [epoch]. *)
Definition convergence_check (epoch : nat) (prev_inertia inertia : float)
  : result verdict :=
  if (epoch + 1) mod 10 =? 0 then
    rbind (improvement_pct prev_inertia inertia) (fun delta =>
    if PrimFloat.ltb 0%float delta && PrimFloat.ltb delta 0.01%float && (50 <? epoch)
    then Ok Stop
    else Ok (Proceed inertia))
  else Ok (Proceed prev_inertia).

(** How the epoch loop was left. *)
Inductive loop_exit : Set :=
| Broke (epoch : nat)
| Exhausted.

(** [rows[i] for i in indices], as numpy's integer-array indexing. *)
Fixpoint take_rows (rs : list (list f32)) (indices : list nat)
  : result (list (list f32)) :=
  match indices with
  | [] => Ok []
  | i :: rest =>
      match nth_error rs i with
      | Some r => rbind (take_rows rs rest) (fun t => Ok (r :: t))
      | None => Raise IndexError
      end
  end.

(** [data[indices]] *)
Definition getitem (data : ndarray) (indices : list nat) : result ndarray :=
  rbind (take_rows (rows data) indices) (fun rs => Ok (mk_ndarray (dim data) rs)).

(** [perm[start:stop]] *)
Definition slice (perm : list nat) (start stop : nat) : list nat :=
  firstn (stop - start) (skipn start perm).

(** [n // d] on non-negative ints. *)
Definition floordiv {S} (n d : nat) : St S nat :=
  if d =? 0 then raise ZeroDivisionError else ret (n / d).

(** [_progress_bar(current, total, prefix, suffix)]: the bar is drawn from
    [current / total]; the suffix shows the two times. *)
Definition _progress_bar (current total : nat) (elapsed eta : float) : M unit :=
  if total =? 0 then raise ZeroDivisionError     (* frac = current / total *)
  else print (ProgressBar current total elapsed eta).

Section Clusterer.

Context `{RandomStateOps} `{MiniBatchKMeansOps}.

(** [rng.choice(n, size=size, replace=False)]: numpy refuses to draw more
    distinct samples than the population holds. *)
Definition rng_choice (rng : RandomState) (n size : nat)
  : result (list nat * RandomState) :=
  if n <? size then Raise ValueError else Ok (draw_choice rng n size).

(** The variables the loops of [kmeans_cluster] update. *)
Record loop_state : Type := mk_loop_state {
  ls_rng : RandomState;
  ls_kmeans : MiniBatchKMeans;
  ls_prev_inertia : float
}.

Section Loops.

Variable data : ndarray.
Variables batch_size max_iter : nat.
Variable t0 : float.
Variable batches_per_epoch : nat.

Let n : nat := shape0 data.

(** Lines 145-156: the progress display after batch [b] of epoch [epoch]. *)
Definition show_progress (epoch b : nat) : M unit :=
  if b mod 10 =? 0 then
    let done_batches := epoch * batches_per_epoch + b + 1 in
    let total_batches := max_iter * batches_per_epoch in
    now <- time_time ;;
    let elapsed := PrimFloat.sub now t0 in
    let rate :=
      if PrimFloat.ltb 0%float elapsed
      then PrimFloat.div (float_of_Z (Z.of_nat done_batches)) elapsed
      else 0%float in
    let eta :=
      if PrimFloat.ltb 0%float rate
      then PrimFloat.div (float_of_Z (Z.of_nat total_batches - Z.of_nat done_batches)) rate
      else 0%float in
    _progress_bar (epoch + 1) max_iter elapsed eta
  else ret tt.

(** [for b in range(batches_per_epoch): ...], from batch [b] on, with
    [remaining] batches to go. *)
Fixpoint batch_loop (remaining b epoch : nat) (perm : list nat)
         (kmeans : MiniBatchKMeans) : M MiniBatchKMeans :=
  match remaining with
  | O => ret kmeans
  | S remaining' =>
      let start := b * batch_size in
      let stop := Nat.min (start + batch_size) n in
      batch <- lift (getitem data (slice perm start stop)) ;;
      kmeans <- lift (partial_fit kmeans batch) ;;
      show_progress epoch b ;;
      batch_loop remaining' (S b) epoch perm kmeans
  end.

(** Lines 139-156: the shuffle and the batches of one epoch. *)
Definition run_epoch (epoch : nat) (st : loop_state) : M loop_state :=
  let (perm, rng) := draw_permutation (ls_rng st) n in
  kmeans <- batch_loop batches_per_epoch 0 epoch perm (ls_kmeans st) ;;
  ret (mk_loop_state rng kmeans (ls_prev_inertia st)).

(** [for epoch in range(max_iter): ...], from epoch [epoch] on, with
    [remaining] epochs to go. *)
Fixpoint epoch_loop (remaining epoch : nat) (st : loop_state)
  : M (loop_exit * loop_state) :=
  match remaining with
  | O => ret (Exhausted, st)
  | S remaining' =>
      st <- run_epoch epoch st ;;
      v <- lift (convergence_check epoch (ls_prev_inertia st) (inertia_ (ls_kmeans st))) ;;
      match v with
      | Stop =>
          print (Converged (epoch + 1)) ;;
          ret (Broke epoch, st)
      | Proceed prev_inertia =>
          epoch_loop remaining' (S epoch)
            (mk_loop_state (ls_rng st) (ls_kmeans st) prev_inertia)
      end
  end.

End Loops.

(** [kmeans_cluster(data, k, batch_size, max_iter)], returning also how the
    epoch loop was left. *)
Definition kmeans_run (data : ndarray) (k batch_size max_iter : nat)
  : M (loop_exit * ndarray) :=
  print (KMeansStart (shape0 data) k) ;;
  print (KMeansParams batch_size max_iter) ;;
  t0 <- time_time ;;
  let kmeans := MiniBatchKMeans_new k batch_size 42 max_iter in
  let n := shape0 data in
  let rng := RandomState_new 42 in
  q <- floordiv n batch_size ;;
  let batches_per_epoch := Nat.max 1 q in
  let prev_inertia := infinity in
  print (InitStart k) ;;
  let init_size := Nat.max k batch_size in
  drawn <- lift (rng_choice rng n init_size) ;;
  let (indices, rng) := drawn : list nat * RandomState in
  sample <- lift (getitem data indices) ;;
  kmeans <- lift (partial_fit kmeans sample) ;;
  now <- time_time ;;
  print (InitDone (PrimFloat.sub now t0)) ;;
  out <- epoch_loop data batch_size max_iter t0 batches_per_epoch max_iter 0
           (mk_loop_state rng kmeans prev_inertia) ;;
  let (how, st) := out : loop_exit * loop_state in
  now <- time_time ;;
  let elapsed := PrimFloat.sub now t0 in
  print (KMeansDone elapsed (inertia_ (ls_kmeans st))) ;;
  ret (how, cluster_centers_ (ls_kmeans st)).

Definition kmeans_cluster (data : ndarray) (k batch_size max_iter : nat) : M ndarray :=
  out <- kmeans_run data k batch_size max_iter ;;
  ret (snd out).

End Clusterer.


(** * Further functions of [tools/train_translator.py] *)

Local Open Scope nat_scope.

(** ** Corpus BLEU-4 *)

(** The floating-point functions [compute_bleu4] takes from the runtime. *)
Class MathOps : Type := {
  (** [math.log] on a positive float *)
  math_log : float -> float;
  (** [math.exp]; it overflows only above 709.78, and its arguments here are
      [1 - ref_len / hyp_len] with [hyp_len < ref_len] and a mean of
      logarithms of ratios that do not exceed one *)
  math_exp : float -> float;
  (** the built-in [sum] on floats, whose rounding depends on the
      interpreter's version *)
  float_sum : list float -> float
}.

(** A token n-gram: [tuple(toks[i:i + n])]. *)
Definition ngram : Type := list string.

Fixpoint ngram_eqb (a b : ngram) : bool :=
  match a, b with
  | [], [] => true
  | x :: a', y :: b' => String.eqb x y && ngram_eqb a' b'
  | _, _ => false
  end.

(** [collections.Counter]: the keys in order of first insertion, each with
    its count. *)
Definition Counter : Type := list (ngram * nat).

(** [c[g] += 1] *)
Fixpoint counter_incr (c : Counter) (g : ngram) : Counter :=
  match c with
  | [] => [(g, 1)]
  | (h, count) :: rest =>
      if ngram_eqb h g then (h, S count) :: rest
      else (h, count) :: counter_incr rest g
  end.

(** [Counter(iterable)] *)
Definition Counter_of (gs : list ngram) : Counter := fold_left counter_incr gs [].

(** [c.get(g, default)] *)
Fixpoint counter_get (c : Counter) (g : ngram) (default : nat) : nat :=
  match c with
  | [] => default
  | (h, count) :: rest => if ngram_eqb h g then count else counter_get rest g default
  end.

(** [(tuple(toks[i:i + n]) for i in range(len(toks) - n + 1))]; the range is
    empty when [len(toks) - n + 1] is not positive. *)
Definition ngrams (toks : list string) (n : nat) : list ngram :=
  map (fun i => firstn n (skipn i toks)) (seq 0 (length toks + 1 - n)).

(** [l[i] += v] on a list of ints. *)
Fixpoint add_at (l : list nat) (i v : nat) : result (list nat) :=
  match l, i with
  | [], _ => Raise IndexError
  | x :: rest, O => Ok ((x + v) :: rest)
  | x :: rest, S i' => rbind (add_at rest i' v) (fun rest' => Ok (x :: rest'))
  end.

(** [l[i]] *)
Definition item_at (l : list nat) (i : nat) : result nat :=
  match nth_error l i with
  | Some x => Ok x
  | None => Raise IndexError
  end.

(** The four accumulators of [compute_bleu4]. *)
Record bleu_counts : Type := mk_bleu_counts {
  clipped_counts : list nat;
  total_counts : list nat;
  ref_len : nat;
  hyp_len : nat
}.

(** [for ngram, count in hyp_ngrams.items():
       clipped_counts[n - 1] += min(count, ref_ngrams.get(ngram, 0))] *)
Fixpoint clip_loop (items : Counter) (ref_ngrams : Counter) (n : nat)
         (clipped : list nat) : result (list nat) :=
  match items with
  | [] => Ok clipped
  | (g, count) :: rest =>
      rbind (add_at clipped (n - 1) (Nat.min count (counter_get ref_ngrams g 0)))
            (clip_loop rest ref_ngrams n)
  end.

(** The body of [for n in range(1, 5)]. *)
Definition order_step (ref hyp : list string) (n : nat) (st : bleu_counts)
  : result bleu_counts :=
  let ref_ngrams := Counter_of (ngrams ref n) in
  let hyp_ngrams := Counter_of (ngrams hyp n) in
  rbind (clip_loop hyp_ngrams ref_ngrams n (clipped_counts st)) (fun clipped =>
  rbind (add_at (total_counts st) (n - 1) (list_sum (map snd hyp_ngrams))) (fun total =>
  Ok (mk_bleu_counts clipped total (ref_len st) (hyp_len st)))).

Fixpoint order_loop (ns : list nat) (ref hyp : list string) (st : bleu_counts)
  : result bleu_counts :=
  match ns with
  | [] => Ok st
  | n :: rest => rbind (order_step ref hyp n st) (order_loop rest ref hyp)
  end.

(** [for ref, hyp in zip(references, hypotheses): ...] *)
Fixpoint pair_loop (pairs : list (list string * list string)) (st : bleu_counts)
  : result bleu_counts :=
  match pairs with
  | [] => Ok st
  | (ref, hyp) :: rest =>
      let st1 := mk_bleu_counts (clipped_counts st) (total_counts st)
                   (ref_len st + length ref) (hyp_len st + length hyp) in
      rbind (order_loop (seq 1 4) ref hyp st1) (pair_loop rest)
  end.

(** [a / b] on two ints below 2^53, where the conversions are exact. *)
Definition int_truediv (a b : nat) : float :=
  PrimFloat.div (float_of_Z (Z.of_nat a)) (float_of_Z (Z.of_nat b)).

(** How a loop with a [return] in its body is left. *)
Inductive outcome (A : Type) : Type :=
| Returned (value : float)
| Completed (a : A).

Arguments Returned {A} value.
Arguments Completed {A} a.

(** [for n in range(4):
       if total_counts[n] == 0: return 0.0
       precisions.append(clipped_counts[n] / total_counts[n])] *)
Fixpoint precisions_loop (ns : list nat) (st : bleu_counts) (precisions : list float)
  : result (outcome (list float)) :=
  match ns with
  | [] => Ok (Completed precisions)
  | n :: rest =>
      rbind (item_at (total_counts st) n) (fun total =>
      if total =? 0 then Ok (Returned 0%float) else
      rbind (item_at (clipped_counts st) n) (fun clipped =>
      precisions_loop rest st (precisions ++ [int_truediv clipped total])))
  end.

(** The accumulators after the loop over the sentence pairs. *)
Definition bleu_statistics (references hypotheses : list (list string))
  : result bleu_counts :=
  pair_loop (combine references hypotheses)
            (mk_bleu_counts (repeat 0 4) (repeat 0 4) 0 0).

(** [compute_bleu4(references, hypotheses)] *)
Definition compute_bleu4 `{MathOps} (references hypotheses : list (list string))
  : result float :=
  match references, hypotheses with
  | [], _ | _, [] => Ok 0%float
  | _, _ =>
      rbind (bleu_statistics references hypotheses) (fun st =>
      rbind (precisions_loop (seq 0 4) st []) (fun r =>
      match r with
      | Returned v => Ok v
      | Completed precisions =>
          let log_avg :=
            PrimFloat.div
              (float_sum (map (fun p => if PrimFloat.ltb 0%float p then math_log p
                                        else neg_infinity) precisions))
              4%float in
          if PrimFloat.eqb log_avg neg_infinity then Ok 0%float
          else if hyp_len st =? 0 then Ok 0%float
          else
            let bp :=
              if hyp_len st <? ref_len st
              then math_exp (PrimFloat.sub 1%float (int_truediv (ref_len st) (hyp_len st)))
              else 1%float in
            Ok (PrimFloat.mul bp (math_exp log_avg))
      end))
  end.

(** ** PropBank role labels *)

Definition NUM_ROLES : nat := 16.

(** [PROPBANK_TO_ROLE]: PropBank label to role index. *)
Definition PROPBANK_TO_ROLE : list (string * nat) :=
  [ ("ARG0", 0); ("A0", 0);
    ("V", 1); ("REL", 1);
    ("ARG1", 2); ("A1", 2);
    ("ARGM-LOC", 3); ("AM-LOC", 3);
    ("ARGM-TMP", 4); ("AM-TMP", 4);
    ("ARGM-MNR", 5); ("AM-MNR", 5);
    ("ARG2", 6); ("A2", 6);
    ("ARGM-CAU", 7); ("AM-CAU", 7);
    ("ARG3", 8); ("A3", 8);
    ("ARG4", 8); ("A4", 8);
    ("ARGM-DIR", 9); ("AM-DIR", 9);
    ("ARGM-ADV", 10); ("AM-ADV", 10);
    ("ARGM-PNC", 11); ("AM-PNC", 11);
    ("ARGM-DIS", 12); ("AM-DIS", 12);
    ("ARGM-NEG", 13); ("AM-NEG", 13);
    ("ARGM-MOD", 14); ("AM-MOD", 14);
    ("O", 15); ("_", 15); ("NONE", 15) ]%string.

(** [d.get(key, default)] on a dict with string keys. *)
Fixpoint dict_get {V : Type} (d : list (string * V)) (key : string) (default : V) : V :=
  match d with
  | [] => default
  | (k, v) :: rest => if String.eqb k key then v else dict_get rest key default
  end.

(** [s.upper()] on an ASCII string. *)
Definition upper (c : ascii) : ascii :=
  let n := code c in
  if (97 <=? n) && (n <=? 122) then ascii_of_nat (n - 32) else c.

Fixpoint upper_str (s : string) : string :=
  match s with
  | EmptyString => EmptyString
  | String c rest => String (upper c) (upper_str rest)
  end.

(** [s.replace(old, new)] for a non-empty [old]: the occurrences of [old]
    are replaced from left to right, without overlap; [skip] characters of
    an occurrence just replaced are still to be passed over. *)
Fixpoint replace_from (old new s : string) (skip : nat) : string :=
  match s with
  | EmptyString => EmptyString
  | String c rest =>
      match skip with
      | S skip' => replace_from old new rest skip'
      | O =>
          if String.prefix old s
          then (new ++ replace_from old new rest (String.length old - 1))%string
          else String c (replace_from old new rest 0)
      end
  end.

Definition str_replace (old new s : string) : string := replace_from old new s 0.

(** Lines 233-234: the role index of one SRL tag. *)
Definition role_of_tag (tag : string) : nat :=
  let tag_upper := str_replace "I-" "" (str_replace "B-" "" (upper_str tag)) in
  dict_get PROPBANK_TO_ROLE tag_upper (NUM_ROLES - 1).

(** The records of the CoNLL-2012 data set, as far as the loader reads them;
    a key that is absent is [None]. *)
Record srl_frame : Type := mk_srl_frame {
  f_frames : option (list string)
}.

Record conll_sentence : Type := mk_conll_sentence {
  s_words : option (list string);
  s_srl_frames : option (list srl_frame)
}.

Record conll_doc : Type := mk_conll_doc {
  d_sentences : option (list conll_sentence)
}.

(** [record.get(key, [])] *)
Definition get_list {A : Type} (field : option (list A)) : list A :=
  match field with
  | Some l => l
  | None => []
  end.

(** Lines 222-235: what one sentence adds to [sentences], if anything. *)
Definition sentence_entry (sent : conll_sentence) : option (list string * list nat) :=
  let words := get_list (s_words sent) in
  let srl := get_list (s_srl_frames sent) in
  match words, srl with
  | [], _ | _, [] => None                          (* continue *)
  | _, frame :: _ =>
      let tags := get_list (f_frames frame) in
      if negb (length tags =? length words) then None   (* continue *)
      else Some (words, map role_of_tag tags)
  end.

(** [for sent in doc.get("sentences", []): ...] *)
Fixpoint sentence_loop (sents : list conll_sentence)
         (sentences : list (list string * list nat)) : list (list string * list nat) :=
  match sents with
  | [] => sentences
  | sent :: rest =>
      match sentence_entry sent with
      | Some entry => sentence_loop rest (sentences ++ [entry])
      | None => sentence_loop rest sentences
      end
  end.

(** Lines 219-238: [for doc in dataset: ...], with the early exit of the
    quick mode. *)
Fixpoint parse_docs (quick : bool) (dataset : list conll_doc)
         (sentences : list (list string * list nat)) : list (list string * list nat) :=
  match dataset with
  | [] => sentences
  | doc :: rest =>
      let sentences := sentence_loop (get_list (d_sentences doc)) sentences in
      if quick && (200 <=? length sentences) then sentences   (* break *)
      else parse_docs quick rest sentences
  end.

(** Lines 470-481 of [precompute_hidden_states]: the role label of each
    token, from the tokenizer's word indices when it gives them, else by
    position. *)
Definition align_roles (word_ids : option (list (option nat))) (roles : list nat)
           (hidden_size : nat) : list nat :=
  match word_ids with
  | Some ids =>
      map (fun wid =>
             match wid with
             | Some w => if w <? length roles then nth w roles (NUM_ROLES - 1)
                         else NUM_ROLES - 1
             | None => NUM_ROLES - 1
             end) ids
  | None =>
      firstn hidden_size (roles ++ repeat (NUM_ROLES - 1) (hidden_size - length roles))
  end.

(** ** Synthetic training data *)

(** Python's [random] module: the generator's state, [random.seed], and the
    integer below [n] it draws for a sequence of length [n]. *)
Class PyRandomOps : Type := {
  PyRandom : Type;
  random_seed : Z -> PyRandom;
  randbelow : PyRandom -> nat -> nat * PyRandom;
  randbelow_lt : forall (g : PyRandom) (n : nat), 0 < n -> fst (randbelow g n) < n
}.

(** What [generate_synthetic_data] prints. *)
Inductive message : Type :=
| GeneratedSynthetic (n covered : nat).

(** [s.split()]: the maximal runs of characters that are not white space;
    [word] is the run being read. *)
Fixpoint split_from (s word : string) : list string :=
  match s with
  | EmptyString =>
      match word with
      | EmptyString => []
      | _ => [word]
      end
  | String c rest =>
      if str_isspace c then
        match word with
        | EmptyString => split_from rest EmptyString
        | _ => word :: split_from rest EmptyString
        end
      else split_from rest (word ++ String c EmptyString)
  end.

Definition _split (phrase : string) : list string := split_from phrase EmptyString.

Definition agents : list string :=
  [ "The cat"; "The dog"; "The teacher"; "A scientist"; "The manager";
    "She"; "He"; "The engineer"; "A student"; "The doctor";
    "The pilot"; "A farmer"; "The artist"; "A child"; "The chef";
    "My friend"; "The officer"; "A nurse"; "The driver"; "The worker" ]%string.

Definition predicates : list string :=
  [ "wrote"; "built"; "opened"; "carried"; "designed"; "fixed";
    "threw"; "painted"; "cooked"; "discovered"; "explained"; "sold";
    "cleaned"; "moved"; "broke"; "created"; "studied"; "analyzed";
    "delivered"; "tested"; "repaired"; "assembled"; "launched" ]%string.

Definition patients : list string :=
  [ "a letter"; "the report"; "a bridge"; "the door"; "the package";
    "a painting"; "the machine"; "a program"; "the device"; "a message";
    "the system"; "a solution"; "the engine"; "a prototype"; "the plan" ]%string.

Definition locations : list string :=
  [ "in the office"; "at the park"; "on the table"; "near the river";
    "at home"; "in the lab"; "on the roof"; "at the station";
    "in the kitchen"; "at the factory"; "in the garden"; "at school" ]%string.

Definition times : list string :=
  [ "yesterday"; "last week"; "in the morning"; "on Monday";
    "before noon"; "after lunch"; "during the meeting"; "at dawn";
    "tonight"; "last summer"; "in December"; "two days ago" ]%string.

Definition manners : list string :=
  [ "quickly"; "carefully"; "silently"; "eagerly"; "precisely";
    "slowly"; "gracefully"; "efficiently"; "hastily"; "thoroughly" ]%string.

Definition instruments : list string :=
  [ "with a hammer"; "with a pen"; "using a computer"; "with pliers";
    "using a wrench"; "with a brush"; "using a scanner"; "with scissors" ]%string.

Definition causes : list string :=
  [ "because of the storm"; "due to the delay"; "because of the error";
    "due to high demand"; "because of the failure"; "due to budget cuts" ]%string.

Definition directions : list string :=
  [ "toward the exit"; "into the room"; "out of the building";
    "across the field"; "along the corridor"; "through the tunnel" ]%string.

Definition purposes : list string :=
  [ "to save time"; "to improve safety"; "in order to reduce costs";
    "to meet the deadline"; "to fix the problem"; "for the presentation" ]%string.

Section Synthetic.

Context `{PyRandomOps}.

(** The interpreter state the generator acts on: the state of the [random]
    module and what has been printed. *)
Record Interp : Type := mk_Interp {
  py_random : PyRandom;
  py_stdout : list message
}.

Definition Py (A : Type) : Type := St Interp A.

(** [random.seed(a)] *)
Definition seed (a : Z) : Py unit :=
  fun s => (Ok tt, mk_Interp (random_seed a) (py_stdout s)).

(** [random.choice(seq)] *)
Definition choice {A : Type} (seq : list A) : Py A :=
  fun s =>
    match seq with
    | [] => (Raise IndexError, s)
    | _ =>
        let (i, g) := randbelow (py_random s) (length seq) in
        match nth_error seq i with
        | Some x => (Ok x, mk_Interp g (py_stdout s))
        | None => (Raise IndexError, mk_Interp g (py_stdout s))
        end
    end.

Definition py_print (m : message) : Py unit :=
  fun s => (Ok tt, mk_Interp (py_random s) (py_stdout s ++ [m])).

(** An example: the words of a sentence and the role of each. *)
Definition example : Type := (list string * list nat)%type.

(** [[r] * len(ws)] *)
Definition roles_for (r : nat) (ws : list string) : list nat := repeat r (length ws).

Definition _agent_pred_patient : Py example :=
  a <- choice agents ;; p <- choice predicates ;; o <- choice patients ;;
  let aw := _split a in let pw := [p] in let ow := _split o in
  ret (aw ++ pw ++ ow, roles_for 0 aw ++ roles_for 1 pw ++ roles_for 2 ow).

Definition _agent_pred_patient_loc : Py example :=
  a <- choice agents ;; p <- choice predicates ;; o <- choice patients ;;
  l <- choice locations ;;
  let aw := _split a in let pw := [p] in let ow := _split o in let lw := _split l in
  ret (aw ++ pw ++ ow ++ lw,
       roles_for 0 aw ++ roles_for 1 pw ++ roles_for 2 ow ++ roles_for 3 lw).

Definition _agent_pred_patient_time : Py example :=
  a <- choice agents ;; p <- choice predicates ;; o <- choice patients ;;
  t <- choice times ;;
  let aw := _split a in let pw := [p] in let ow := _split o in let tw := _split t in
  ret (aw ++ pw ++ ow ++ tw,
       roles_for 0 aw ++ roles_for 1 pw ++ roles_for 2 ow ++ roles_for 4 tw).

Definition _agent_manner_pred_patient : Py example :=
  a <- choice agents ;; m <- choice manners ;; p <- choice predicates ;;
  o <- choice patients ;;
  let aw := _split a in let mw := [m] in let pw := [p] in let ow := _split o in
  ret (aw ++ mw ++ pw ++ ow,
       roles_for 0 aw ++ roles_for 5 mw ++ roles_for 1 pw ++ roles_for 2 ow).

Definition _agent_pred_patient_instr : Py example :=
  a <- choice agents ;; p <- choice predicates ;; o <- choice patients ;;
  i <- choice instruments ;;
  let aw := _split a in let pw := [p] in let ow := _split o in let iw := _split i in
  ret (aw ++ pw ++ ow ++ iw,
       roles_for 0 aw ++ roles_for 1 pw ++ roles_for 2 ow ++ roles_for 6 iw).

Definition _agent_pred_patient_cause : Py example :=
  a <- choice agents ;; p <- choice predicates ;; o <- choice patients ;;
  c <- choice causes ;;
  let aw := _split a in let pw := [p] in let ow := _split o in let cw := _split c in
  ret (aw ++ pw ++ ow ++ cw,
       roles_for 0 aw ++ roles_for 1 pw ++ roles_for 2 ow ++ roles_for 7 cw).

Definition _agent_pred_patient_dir : Py example :=
  a <- choice agents ;; p <- choice predicates ;; o <- choice patients ;;
  d <- choice directions ;;
  let aw := _split a in let pw := [p] in let ow := _split o in let dw := _split d in
  ret (aw ++ pw ++ ow ++ dw,
       roles_for 0 aw ++ roles_for 1 pw ++ roles_for 2 ow ++ roles_for 9 dw).

Definition _agent_pred_patient_purpose : Py example :=
  a <- choice agents ;; p <- choice predicates ;; o <- choice patients ;;
  pp <- choice purposes ;;
  let aw := _split a in let pw := [p] in let ow := _split o in let ppw := _split pp in
  ret (aw ++ pw ++ ow ++ ppw,
       roles_for 0 aw ++ roles_for 1 pw ++ roles_for 2 ow ++ roles_for 11 ppw).

Definition _neg_agent_pred_patient : Py example :=
  a <- choice agents ;; p <- choice predicates ;; o <- choice patients ;;
  let aw := _split a in let pw := [p] in let ow := _split o in
  ret (aw ++ ["did"; "not"]%string ++ pw ++ ow,
       roles_for 0 aw ++ [14; 13] ++ roles_for 1 pw ++ roles_for 2 ow).

Definition _discourse_agent_pred : Py example :=
  disc <- choice [ "However"; "Therefore"; "Meanwhile"; "Furthermore";
                   "Nevertheless"; "Moreover" ]%string ;;
  a <- choice agents ;; p <- choice predicates ;; o <- choice patients ;;
  let aw := _split a in let pw := [p] in let ow := _split o in
  ret ([disc; ","%string] ++ aw ++ pw ++ ow,
       [12; 15] ++ roles_for 0 aw ++ roles_for 1 pw ++ roles_for 2 ow).

Definition _modal_agent_pred_patient : Py example :=
  modal <- choice [ "could"; "should"; "would"; "might"; "must"; "can" ]%string ;;
  a <- choice agents ;; p <- choice predicates ;; o <- choice patients ;;
  let aw := _split a in let pw := [p] in let ow := _split o in
  ret (aw ++ [modal] ++ pw ++ ow,
       roles_for 0 aw ++ [14] ++ roles_for 1 pw ++ roles_for 2 ow).

Definition _full_complex : Py example :=
  disc <- choice [ "However"; "Also"; "Indeed" ]%string ;;
  a <- choice agents ;; p <- choice predicates ;; o <- choice patients ;;
  m <- choice manners ;; l <- choice locations ;; t <- choice times ;;
  let aw := _split a in let pw := [p] in let ow := _split o in
  let mw := [m] in let lw := _split l in let tw := _split t in
  ret ([disc; ","%string] ++ aw ++ mw ++ pw ++ ow ++ lw ++ tw,
       [12; 15] ++ roles_for 0 aw ++ roles_for 5 mw ++ roles_for 1 pw
       ++ roles_for 2 ow ++ roles_for 3 lw ++ roles_for 4 tw).

Definition _adverbial_agent_pred : Py example :=
  adv <- choice [ "Surprisingly"; "Fortunately"; "Apparently"; "Obviously";
                  "Remarkably"; "Interestingly"; "Importantly";
                  "Significantly" ]%string ;;
  a <- choice agents ;; p <- choice predicates ;; o <- choice patients ;;
  let aw := _split a in let pw := [p] in let ow := _split o in
  ret ([adv; ","%string] ++ aw ++ pw ++ ow,
       [10; 15] ++ roles_for 0 aw ++ roles_for 1 pw ++ roles_for 2 ow).

Definition generators : list (Py example) :=
  [ _agent_pred_patient;
    _agent_pred_patient_loc;
    _agent_pred_patient_time;
    _agent_manner_pred_patient;
    _agent_pred_patient_instr;
    _agent_pred_patient_cause;
    _agent_pred_patient_dir;
    _agent_pred_patient_purpose;
    _neg_agent_pred_patient;
    _discourse_agent_pred;
    _modal_agent_pred_patient;
    _full_complex;
    _adverbial_agent_pred ].

(** [for _ in range(n): ...], with [remaining] rounds to go. *)
Fixpoint generate_loop (remaining : nat) (data : list example) : Py (list example) :=
  match remaining with
  | O => ret data
  | S remaining' =>
      gen <- choice generators ;;
      ex <- gen ;;
      py_assert (length (fst ex) =? length (snd ex)) ;;
      generate_loop remaining' (data ++ [ex])
  end.

(** [for r in roles: role_counts[r] += 1] *)
Fixpoint count_roles (roles : list nat) (role_counts : list nat) : result (list nat) :=
  match roles with
  | [] => Ok role_counts
  | r :: rest => rbind (add_at role_counts r 1) (count_roles rest)
  end.

(** [for _, roles in data: ...] *)
Fixpoint count_data (data : list example) (role_counts : list nat) : result (list nat) :=
  match data with
  | [] => Ok role_counts
  | ex :: rest => rbind (count_roles (snd ex) role_counts) (count_data rest)
  end.

(** [generate_synthetic_data(n)] *)
Definition generate_synthetic_data (n : nat) : Py (list example) :=
  seed 42 ;;
  data <- generate_loop n [] ;;
  role_counts <- lift (count_data data (repeat 0 NUM_ROLES)) ;;
  let covered := length (filter (fun c => 0 <? c) role_counts) in
  py_print (GeneratedSynthetic n covered) ;;
  ret data.

End Synthetic.

(** ** Exporting the weights *)

(** [key in d] and [d[key]] on a dict with string keys. *)
Fixpoint dict_lookup {V : Type} (d : list (string * V)) (key : string) : option V :=
  match d with
  | [] => None
  | (k, v) :: rest => if String.eqb k key then Some v else dict_lookup rest key
  end.

(** [d[key] = v]: a key already present keeps its place. *)
Fixpoint dict_set {V : Type} (d : list (string * V)) (key : string) (v : V)
  : list (string * V) :=
  match d with
  | [] => [(key, v)]
  | (k, x) :: rest =>
      if String.eqb k key then (k, v) :: rest else (k, x) :: dict_set rest key v
  end.

(** The [remap] table of [export_safetensors]. *)
Definition remap : list (string * string) :=
  [ ("mlp.0.weight", "proj.mlp.0.weight");
    ("mlp.0.bias", "proj.mlp.0.bias");
    ("mlp.2.weight", "proj.mlp.1.weight");
    ("mlp.2.bias", "proj.mlp.1.bias");
    ("mlp.4.weight", "proj.mlp.2.weight");
    ("mlp.4.bias", "proj.mlp.2.bias");
    ("role_head.weight", "proj.role_head.weight");
    ("role_head.bias", "proj.role_head.bias");
    ("embed_head.weight", "proj.embed_head.weight");
    ("embed_head.bias", "proj.embed_head.bias") ]%string.

Section ExportWeights.

(** Torch tensors, and [t.contiguous().cpu()]. *)
Variable tensor : Type.
Variable contiguous_cpu : tensor -> tensor.

(** What [export_safetensors] does to the outside, up to the summary line:
    a warning printed, the call of [save_file], the summary printed. *)
Inductive export_effect : Type :=
| WarnMissing (old_key : string)
| SaveFile (tensors : list (string * tensor)) (output_path : string)
| PrintExported (count : nat) (output_path : string).

(** Lines 784-789: [for old_key, new_key in remap.items(): ...]; the
    warnings are returned in the order they are printed. *)
Fixpoint remap_loop (items : list (string * string)) (state_dict : list (string * tensor))
         (tensors : list (string * tensor))
  : list (string * tensor) * list export_effect :=
  match items with
  | [] => (tensors, [])
  | (old_key, new_key) :: rest =>
      match dict_lookup state_dict old_key with
      | Some t => remap_loop rest state_dict (dict_set tensors new_key (contiguous_cpu t))
      | None =>
          let (tensors', warnings) := remap_loop rest state_dict tensors in
          (tensors', WarnMissing old_key :: warnings)
      end
  end.

(** Lines 766-792 of [export_safetensors(head, output_path)], with
    [head.state_dict()] given. *)
Definition export_safetensors (state_dict : list (string * tensor)) (output_path : string)
  : list export_effect :=
  let (tensors, warnings) := remap_loop remap state_dict [] in
  warnings ++ [SaveFile tensors output_path; PrintExported (length tensors) output_path].

End ExportWeights.

(** * The normalizer of [tools/codebook_init.py] *)

Local Open Scope Z_scope.

(** numpy's [float32] is IEEE-754 binary32: 24 bits of precision, the
    infinities at exponent 128.  The arithmetic is that of the Standard
    Library's [SpecFloat] at this format. *)
Definition f32_prec : Z := 24.
Definition f32_emax : Z := 128.

(** The value a [float32] bit pattern stands for: sign in bit 31, biased
    exponent in bits 23 to 30, fraction in bits 0 to 22. *)
Definition f32_value (x : f32) : SpecFloat.spec_float :=
  let s := Z.testbit x 31 in
  let e := Z.land (Z.shiftr x 23) 255 in
  let m := Z.land x 8388607 in
  if e =? 0 then
    match m with
    | Zpos p => SpecFloat.S754_finite s p (-149)
    | _ => SpecFloat.S754_zero s
    end
  else if e =? 255 then
    if m =? 0 then SpecFloat.S754_infinity s else SpecFloat.S754_nan
  else
    match m + 8388608 with
    | Zpos p => SpecFloat.S754_finite s p (e - 150)
    | _ => SpecFloat.S754_nan
    end.

(** The bit pattern of a value in canonical form, as the operations return
    it.  The sign and payload of a NaN depend on the machine; the quiet NaN
    0x7FC00000 stands for all of them. *)
Definition f32_of_value (v : SpecFloat.spec_float) : f32 :=
  let sign (s : bool) := if s then 2147483648 else 0 in
  match v with
  | SpecFloat.S754_zero s => sign s
  | SpecFloat.S754_infinity s => sign s + 2139095040
  | SpecFloat.S754_nan => 2143289344
  | SpecFloat.S754_finite s m e =>
      if Zpos m <? 8388608 then sign s + Zpos m
      else sign s + (e + 150) * 8388608 + (Zpos m - 8388608)
  end.

(** [np.float32(1e-10)], the scalar [np.maximum] compares a [float32] array
    with. *)
Definition epsilon32 : f32 := 786163455.

(** One row of [np.linalg.norm(data, axis=1, keepdims=True)] on a [float32]
    array: the square root of the sum of the squares, all in [float32].  The
    squares are added from left to right; numpy adds the squares of a longer
    row in blocks, which can round the sum differently. *)
Definition linalg_norm (row : list f32) : SpecFloat.spec_float :=
  let squares :=
    map (fun x => SpecFloat.SFmul f32_prec f32_emax (f32_value x) (f32_value x)) row in
  SpecFloat.SFsqrt f32_prec f32_emax
    (fold_left (SpecFloat.SFadd f32_prec f32_emax) squares (SpecFloat.S754_zero false)).

(** [np.maximum(a, b)]: [a] when it is NaN or not below [b], else [b]. *)
Definition np_maximum (a b : SpecFloat.spec_float) : SpecFloat.spec_float :=
  match a with
  | SpecFloat.S754_nan => a
  | _ => if SpecFloat.SFleb b a then a else b
  end.

(** [l2_normalize(data)] *)
Definition l2_normalize (data : ndarray) : ndarray :=
  mk_ndarray (dim data)
    (map (fun row =>
            let norm := np_maximum (linalg_norm row) (f32_value epsilon32) in
            map (fun x => f32_of_value
                            (SpecFloat.SFdiv f32_prec f32_emax (f32_value x) norm)) row)
         (rows data)).

Local Open Scope nat_scope.
(** * Vocabulary of the statements

    Definitions the statements below use: the file format as the docstring
    gives it, sample inputs, stand-ins for the external libraries, and the
    two statements of the specification that fail, worded as it words
    them. *)

Unset Implicit Arguments.
Local Open Scope Z_scope.

(** The file format of the module docstring, byte for byte: magic,
    version 1, entry count, dimension, then the values in the order given,
    all integers and floats as four little-endian bytes. *)
Definition codebook_file (entry_count dim : nat) (values : list f32) : bytes :=
  [x56; x58; x43; x42] ++ [x01; x00; x00; x00]
  ++ le_bytes 4 (Z.of_nat entry_count) ++ le_bytes 4 (Z.of_nat dim)
  ++ flat_map (le_bytes 4) values.

(** The world [save_codebook] leaves behind when it succeeds. *)
Definition saved_world (centroids : ndarray) (path : string) (w : World) : World :=
  let file := codebook_file (shape0 centroids) (shape1 centroids) (concat (rows centroids)) in
  mk_World (fs_set (w_fs w) path file) (w_clock w) (w_ticks w)
    (w_stdout w ++
     [SavedCodebook (shape0 centroids) (shape1 centroids)
        (PrimFloat.div (float_of_Z (Z.of_nat (length file))) (float_of_Z (1024 * 1024)))
        path]).

(** The array a well-formed image decodes to: it depends on the count
    field and on the payload only. *)
Definition decoded (ecb payload : bytes) : ndarray :=
  mk_ndarray 256 (chunks (Z.to_nat (le_int ecb)) 256 (group4 payload)).

(** A sample world: no files, a clock stuck at zero, nothing printed. *)
Definition empty_world : World :=
  mk_World (fun _ => None) (fun _ => 0%float) 0 [].

(** The same world with one file in it. *)
Definition world_with (path : string) (content : bytes) : World :=
  mk_World (fun p => if String.eqb p path then Some content else None)
           (fun _ => 0%float) 0 [].

(** A sample centroid matrix: one all-zero row of the target dimension. *)
Definition zero_centroid : ndarray := mk_ndarray 256 [repeat 0 256].

(** A codebook file of one all-zero entry whose version field holds 7. *)
Definition version7_file : bytes :=
  MAGIC ++ [x07; x00; x00; x00] ++ [x01; x00; x00; x00] ++ [x00; x01; x00; x00]
  ++ repeat x00 1024.

Local Open Scope nat_scope.

(** Strings: the tab and newline characters, and two tests on the
    characters of a string. *)
Definition tab : ascii := "009"%char.
Definition newline : ascii := "010"%char.

Fixpoint all_chars (p : ascii -> bool) (s : string) : bool :=
  match s with
  | EmptyString => true
  | String c rest => p c && all_chars p rest
  end.

Fixpoint has_char (m : ascii) (s : string) : bool :=
  match s with
  | EmptyString => false
  | String c rest => Ascii.eqb c m || has_char m rest
  end.

(** The characters a float literal is made of: digits, signs, the point,
    the exponent letter, and the letters of "inf", "infinity" and "nan". *)
Definition numeric_char (c : ascii) : bool :=
  match classify c with
  | Other => existsb (Ascii.eqb (lower c)) ["i"; "n"; "f"; "t"; "y"; "a"]%char
  | _ => true
  end.

(** A non-empty run of such characters. *)
Definition numeric (s : string) : bool :=
  negb (String.eqb s "") && all_chars numeric_char s.

(** A stand-in runtime for the examples: ASCII files, one character per
    byte, lines ended by a newline; every literal is given the value zero. *)
Fixpoint lines_of (s : string) : list string :=
  match s with
  | EmptyString => []
  | String c rest =>
      if Ascii.eqb c newline then String c EmptyString :: lines_of rest
      else match lines_of rest with
           | [] => [String c EmptyString]
           | l :: ls => String c l :: ls
           end
  end.

Definition sample_runtime : Runtime :=
  {| text_lines := fun content => lines_of (string_of_list_byte content);
     strtod := fun _ => 0%float;
     float32 := fun _ => 0%Z |}.

(** A file with a header line and a line with a doubled space. *)
Definition skipped_only : bytes :=
  list_byte_of_string
    ("2 3" ++ String newline ("tok 1.0  2.0" ++ String newline ""))%string.

(** One tab, or two or more spaces. *)
Definition separator (sep : string) : Prop :=
  sep = String tab "" \/
  (2 <= String.length sep /\ all_chars (Ascii.eqb " ") sep = true).

(** What precedes a field ends with white space; what follows it is empty or
    starts with white space. *)
Definition set_off_left (pre : string) : Prop :=
  exists p c, pre = (p ++ String c "")%string /\ str_isspace c = true.

Definition set_off_right (post : string) : Prop :=
  post = EmptyString \/ exists c p, post = String c p /\ str_isspace c = true.

(** C10, as the specification words it: a line in which two numeric
    fields, each set off by white space from what precedes and follows, are
    separated by one tab or by two or more spaces is skipped. *)
Definition skips_every_badly_separated_line : Prop :=
  forall (R : Runtime) (pre a sep b post : string) (vectors : list (list f32)),
    numeric a = true -> numeric b = true -> separator sep ->
    set_off_left pre -> set_off_right post ->
    read_line (pre ++ a ++ sep ++ b ++ post) vectors = Ok vectors.

(** The relative improvement lies strictly between 0 and 0.01 percent. *)
Definition in_window (delta : float) : Prop :=
  PrimFloat.ltb 0%float delta = true /\ PrimFloat.ltb delta 0.01%float = true.

(** C2, as the specification words it: the test stops the loop exactly
    when it runs (every tenth epoch), the improvement is in the window, and
    at least 50 epochs have elapsed ([epoch + 1 >= 50], [epoch] being the
    index of the epoch just run). *)
Definition stops_from_fifty_epochs_on : Prop :=
  forall (epoch : nat) (prev_inertia inertia : float),
    convergence_check epoch prev_inertia inertia = Ok Stop <->
    (epoch + 1) mod 10 = 0 /\ 50 <= epoch + 1 /\
    exists delta, improvement_pct prev_inertia inertia = Ok delta /\ in_window delta.

(** Two computations agree when they return the same value or raise the
    same exception from any two worlds: what they return does not depend on
    the clock, on the files or on what has been printed. *)
Definition agree {A} (m1 m2 : M A) : Prop :=
  forall w1 w2, fst (m1 w1) = fst (m2 w2).

(** Stand-ins for numpy and scikit-learn in the examples: the generator
    always draws the indices in order; the estimator counts its
    [partial_fit] calls and reports an inertia that falls by one with each
    call. *)
Definition stub_random : RandomStateOps :=
  {| RandomState := unit;
     RandomState_new := fun _ => tt;
     draw_choice := fun rng n size => (seq 0 size, rng);
     draw_permutation := fun rng n => (seq 0 n, rng) |}.

Definition stub_kmeans : MiniBatchKMeansOps :=
  {| MiniBatchKMeans := nat;
     MiniBatchKMeans_new := fun _ _ _ _ => 0;
     partial_fit := fun calls _ => Ok (S calls);
     inertia_ := fun calls => float_of_Z (1000000 - Z.of_nat calls);
     cluster_centers_ := fun _ => mk_ndarray 1 [[0%Z]] |}.

Definition one_vector : ndarray := mk_ndarray 1 [[0%Z]].


(** ** Further vocabulary *)

Local Open Scope Z_scope.

(** What [load_codebook] computes from the content of its file, with the
    successive reads written as offsets. *)
Definition read_image (f : bytes) : result ndarray :=
  if negb (bytes_eqb (firstn 4 f) MAGIC) then Raise ValueError else
  rbind (struct_unpack_I (firstn 4 (skipn 4 f))) (fun _ =>
  rbind (struct_unpack_I (firstn 4 (skipn 8 f))) (fun entry_count =>
  rbind (struct_unpack_I (firstn 4 (skipn 12 f))) (fun dim =>
  if negb (dim =? SLOT_DIM) then Raise ValueError else
  rbind (frombuffer (firstn (Z.to_nat (entry_count * dim * 4)) (skipn 16 f))) (fun data =>
  reshape data (Z.to_nat entry_count) (Z.to_nat dim))))).

(** A header announcing one entry, followed by eight bytes only. *)
Definition truncated_file : bytes :=
  MAGIC ++ [x01; x00; x00; x00] ++ [x01; x00; x00; x00] ++ [x00; x01; x00; x00]
  ++ repeat x00 8.

(** A version-1 codebook file of one all-zero entry. *)
Definition one_entry_file : bytes :=
  MAGIC ++ [x01; x00; x00; x00] ++ [x01; x00; x00; x00] ++ [x00; x01; x00; x00]
  ++ repeat x00 1024.

Local Open Scope nat_scope.

(** The vector a line contributes, if any: what the body of the reading
    loop computes before it appends. *)
Definition parse_line `{Runtime} (line : string) : option (list f32) :=
  let parts := split_space (rstrip line) in
  if length parts <? 3 then None
  else match floats (tl parts) with
       | Ok xs => Some (map float32 xs)
       | Raise _ => None
       end.

(** The vectors of a list of lines, in order. *)
Definition parsed `{Runtime} (lines : list string) : list (list f32) :=
  flat_map (fun line => match parse_line line with
                        | Some v => [v]
                        | None => []
                        end) lines.

(** The lines the loop gets to see under a cap. *)
Definition consumed (max_vocab : option nat) (lines : list string) : list string :=
  match max_vocab with
  | Some m => firstn m lines
  | None => lines
  end.

(** [" ".join(fields)] *)
Fixpoint join_space (fields : list string) : string :=
  match fields with
  | [] => EmptyString
  | [f] => f
  | f :: rest => (f ++ String " " (join_space rest))%string
  end.

(** A decimal literal without white space or underscores: accepted by the
    grammar of [strtod] and made of digits, signs, the point and the
    exponent letter only. *)
Definition plain_number (s : string) : bool :=
  num_run NStart s &&
  all_chars (fun c => match classify c with Other => false | _ => true end) s.

(** A file of two well-formed lines and a header. *)
Definition small_corpus : bytes :=
  list_byte_of_string
    ("2 3" ++ String newline
       ("cat 1.0 -2.5 3e2" ++ String newline
          ("dog 0.5 .25 7" ++ String newline "")))%string.

(** A file with the same first two lines as [small_corpus] and a third line
    of another length. *)
Definition other_corpus : bytes :=
  list_byte_of_string
    ("2 3" ++ String newline
       ("cat 1.0 -2.5 3e2" ++ String newline
          ("bird 9 9 9 9 9" ++ String newline "")))%string.

(** [kmeans.partial_fit(data[s])] for each index list [s] of [batches], in
    order, starting from [kmeans]. *)
Fixpoint fit_all `{MiniBatchKMeansOps} (data : ndarray) (kmeans : MiniBatchKMeans)
         (batches : list (list nat)) : result MiniBatchKMeans :=
  match batches with
  | [] => Ok kmeans
  | s :: rest =>
      rbind (getitem data s) (fun batch =>
      rbind (partial_fit kmeans batch) (fun kmeans' =>
      fit_all data kmeans' rest))
  end.

(** Five vectors of one component. *)
Definition five_vectors : ndarray :=
  mk_ndarray 1 [[0%Z]; [1%Z]; [2%Z]; [3%Z]; [4%Z]].

(** An estimator whose inertia stays at one. *)
Definition steady_kmeans : MiniBatchKMeansOps :=
  {| MiniBatchKMeans := nat;
     MiniBatchKMeans_new := fun _ _ _ _ => 0;
     partial_fit := fun calls _ => Ok (S calls);
     inertia_ := fun _ => 1%float;
     cluster_centers_ := fun _ => mk_ndarray 1 [[0%Z]] |}.

(** A computation that returns normally from every world, with a value that
    satisfies [Q]. *)
Definition returns {A} (m : M A) (Q : A -> Prop) : Prop :=
  forall w : World, exists (a : A) (w' : World), m w = (Ok a, w') /\ Q a.

Section FittedEstimators.

Context `{MiniBatchKMeansOps}.

Variable data : ndarray.
Variables k batch_size max_iter : nat.

(** A batch of [size] rows of [data]. *)
Definition batch_of (size : nat) (batch : ndarray) : Prop :=
  exists indices : list nat, length indices = size /\ getitem data indices = Ok batch.

(** The estimators a run of [kmeans_cluster] can hold: the one it
    constructs, fitted on a seeding sample of [max(k, batch_size)] rows of
    the data and then on any number of batches of [batch_size] rows. *)
Inductive fitted : MiniBatchKMeans -> Prop :=
| fitted_seed (sample : ndarray) (kmeans : MiniBatchKMeans) :
    batch_of (Nat.max k batch_size) sample ->
    partial_fit (MiniBatchKMeans_new k batch_size 42 max_iter) sample = Ok kmeans ->
    fitted kmeans
| fitted_batch (kmeans : MiniBatchKMeans) (batch : ndarray) (kmeans' : MiniBatchKMeans) :
    fitted kmeans ->
    batch_of batch_size batch ->
    partial_fit kmeans batch = Ok kmeans' ->
    fitted kmeans'.

End FittedEstimators.

(** The number of places at which an n-gram of order [i + 1] starts in the
    hypotheses of the sentence pairs. *)
Definition positions (i : nat) (pairs : list (list string * list string)) : nat :=
  list_sum (map (fun p => length (snd p) - i) pairs).

(** What one counter of hypothesis n-grams adds to a clipped count. *)
Definition clip_sum (items ref_ngrams : Counter) : nat :=
  list_sum (map (fun it => Nat.min (snd it) (counter_get ref_ngrams (fst it) 0)) items).

(** The clipped matches of order [n] between a reference and a hypothesis. *)
Definition matched (ref hyp : list string) (n : nat) : nat :=
  clip_sum (Counter_of (ngrams hyp n)) (Counter_of (ngrams ref n)).

(** [g in c] *)
Fixpoint has_key (c : Counter) (g : ngram) : bool :=
  match c with
  | [] => false
  | (h, _) :: rest => ngram_eqb h g || has_key rest g
  end.

(** No key occurs twice. *)
Fixpoint distinct_keys (c : Counter) : Prop :=
  match c with
  | [] => True
  | (h, _) :: rest => has_key rest h = false /\ distinct_keys rest
  end.

(** Stand-ins for the floating-point functions of the runtime. *)
Definition sample_math : MathOps :=
  {| math_log := fun x => x;
     math_exp := fun x => x;
     float_sum := fun xs => fold_left PrimFloat.add xs 0%float |}.

(** A corpus of one sentence of three tokens. *)
Definition short_corpus : list (list string) :=
  [["the"%string; "cat"%string; "sat"%string]].

(** An entry of the parsed data that a labelled sentence must satisfy: some
    words, one role per word, every role an index below [NUM_ROLES]. *)
Definition labelled (entry : list string * list nat) : Prop :=
  fst entry <> [] /\ length (fst entry) = length (snd entry) /\
  Forall (fun r => r < NUM_ROLES) (snd entry).

(** Code points of ASCII. *)
Definition is_ascii (c : ascii) : bool := code c <? 128.

(** A document of one sentence with a BIO-tagged frame. *)
Definition sample_doc : conll_doc :=
  mk_conll_doc (Some
    [ mk_conll_sentence
        (Some ["She"%string; "wrote"%string; "a"%string; "letter"%string])
        (Some [ mk_srl_frame
                  (Some ["B-ARG0"%string; "B-V"%string; "B-ARG1"%string; "I-ARG1"%string]) ]) ]).

(** A computation of the generator that returns normally from every state,
    with a value that satisfies [Q], and prints nothing. *)
Definition ensures `{PyRandomOps} {A : Type} (m : Py A) (Q : A -> Prop) : Prop :=
  forall s : Interp, exists (a : A) (s' : Interp),
    m s = (Ok a, s') /\ Q a /\ py_stdout s' = py_stdout s.

(** One role per word, and only roles the templates use: an index below
    [NUM_ROLES] other than 8. *)
Definition template_labelled (ex : list string * list nat) : Prop :=
  length (fst ex) = length (snd ex) /\
  Forall (fun r => r < NUM_ROLES /\ r <> 8) (snd ex).

(** A generator of the [random] module that always draws the first item. *)
Definition first_choice : PyRandomOps :=
  {| PyRandom := unit;
     random_seed := fun _ => tt;
     randbelow := fun g _ => (0, g);
     randbelow_lt := fun _ n (Hn : 0 < n) => Hn |}.

(** The tensors [export_safetensors] is to save: those of the expected keys
    that the state dict holds, under their new names, in the order of the
    table. *)
Definition expected_tensors {tensor : Type} (contiguous_cpu : tensor -> tensor)
           (items : list (string * string)) (state_dict : list (string * tensor))
  : list (string * tensor) :=
  flat_map (fun item => match dict_lookup state_dict (fst item) with
                        | Some t => [(snd item, contiguous_cpu t)]
                        | None => []
                        end) items.

(** The expected keys that the state dict lacks. *)
Definition missing_keys {tensor : Type} (items : list (string * string))
           (state_dict : list (string * tensor)) : list string :=
  flat_map (fun item => match dict_lookup state_dict (fst item) with
                        | Some _ => []
                        | None => [fst item]
                        end) items.

(** [key in d] *)
Fixpoint dict_has {V : Type} (d : list (string * V)) (key : string) : bool :=
  match d with
  | [] => false
  | (k, _) :: rest => String.eqb k key || dict_has rest key
  end.

(** The new names of a list of table entries differ from one another. *)
Fixpoint distinct_names (items : list (string * string)) : bool :=
  match items with
  | [] => true
  | (_, new_key) :: rest =>
      negb (existsb (fun item => String.eqb (snd item) new_key) rest)
      && distinct_names rest
  end.

(** ** The run of the epoch loop *)

Section RunOfTheEpochLoop.

Context `{RandomStateOps} `{MiniBatchKMeansOps}.

Variable data : ndarray.
Variables batch_size max_iter : nat.
Variable t0 : float.
Variable batches_per_epoch : nat.

(** The state and the world in which the run of the epoch loop that starts
    at epoch 0 in [st0] and [w0] enters epoch [e], when it gets there: every
    earlier epoch has run its batches and its test has let the loop go on. *)
Fixpoint enters (e : nat) (st0 : loop_state) (w0 : World) : option (loop_state * World) :=
  match e with
  | O => Some (st0, w0)
  | S e' =>
      match enters e' st0 w0 with
      | Some (st, w) =>
          match run_epoch data batch_size max_iter t0 batches_per_epoch e' st w with
          | (Ok st1, w1) =>
              match convergence_check e' (ls_prev_inertia st1) (inertia_ (ls_kmeans st1)) with
              | Ok (Proceed p) => Some (mk_loop_state (ls_rng st1) (ls_kmeans st1) p, w1)
              | _ => None
              end
          | _ => None
          end
      | None => None
      end
  end.

(** The inertia the estimator reports when the batches of epoch [e] are
    done: the value a test after that epoch reads. *)
Definition inertia_after (e : nat) (st0 : loop_state) (w0 : World) : option float :=
  match enters e st0 w0 with
  | Some (st, w) =>
      match run_epoch data batch_size max_iter t0 batches_per_epoch e st w with
      | (Ok st1, _) => Some (inertia_ (ls_kmeans st1))
      | _ => None
      end
  | None => None
  end.

(** What the test after epoch [e] compares with: the inertia read at the
    test ten epochs earlier, and infinity at the first test. *)
Definition previous_check (e : nat) (st0 : loop_state) (w0 : World) : option float :=
  if e <? 10 then Some infinity else inertia_after (e - 10) st0 w0.

End RunOfTheEpochLoop.

(** A tag as the role table is asked about it: upper-cased, with every B-
    and then every I- taken out. *)
Definition normal_tag (tag : string) : string :=
  str_replace "I-" "" (str_replace "B-" "" (upper_str tag)).

(** The sentences of a data set that are to be kept, with the entry of each:
    a sentence of some document that has words, at least one SRL frame, and
    as many tags in its first frame as it has words; the roles are those of
    these tags. *)
Definition kept_from (dataset : list conll_doc) (words : list string) (roles : list nat)
  : Prop :=
  exists (doc : conll_doc) (sent : conll_sentence) (frame : srl_frame)
         (frames : list srl_frame),
    In doc dataset /\ In sent (get_list (d_sentences doc)) /\
    get_list (s_words sent) = words /\ words <> [] /\
    get_list (s_srl_frames sent) = frame :: frames /\
    length (get_list (f_frames frame)) = length words /\
    roles = map role_of_tag (get_list (f_frames frame)).

(** The [float32] patterns of 2^64, of 1.0 and of +infinity. *)
Definition two_to_the_64 : f32 := 1602224128%Z.
Definition one32 : f32 := 1065353216%Z.
Definition infinity32 : f32 := 2139095040%Z.
(** * Properties *)

Local Open Scope Z_scope.

(** ** Bytes and little-endian integers *)

Lemma Z_of_byte_range (b : byte) : 0 <= Z_of_byte b <= 255.
Proof.
  unfold Z_of_byte. pose proof (Byte.to_N_bounded b). lia.
Qed.

Lemma Z_of_byte_of_Z (z : Z) : Z_of_byte (byte_of_Z z) = z mod 256.
Proof.
  unfold byte_of_Z, Z_of_byte.
  pose proof (Z.mod_pos_bound z 256 ltac:(lia)) as Hm.
  destruct (Byte.of_N (Z.to_N (z mod 256))) as [b|] eqn:E.
  - apply Byte.to_of_N in E. rewrite E. apply Z2N.id. lia.
  - apply Byte.of_N_None_iff in E.
    apply N2Z.inj_lt in E. rewrite Z2N.id in E by lia. simpl in E. lia.
Qed.

Lemma byte_of_Z_of_byte (b : byte) : byte_of_Z (Z_of_byte b) = b.
Proof.
  unfold byte_of_Z. pose proof (Z_of_byte_range b) as Hr.
  rewrite Z.mod_small by lia.
  unfold Z_of_byte. rewrite N2Z.id, Byte.of_to_N. reflexivity.
Qed.

Lemma le_bytes_length (n : nat) (x : Z) : length (le_bytes n x) = n.
Proof.
  revert x. induction n as [|n IH]; intros x; simpl; [reflexivity|].
  now rewrite IH.
Qed.

Lemma le_int_nonneg (bs : bytes) : 0 <= le_int bs.
Proof.
  induction bs as [|b bs IH]; cbn [le_int]; [lia|].
  pose proof (Z_of_byte_range b). lia.
Qed.

Lemma le_int_le_bytes (n : nat) (x : Z) :
  le_int (le_bytes n x) = x mod 256 ^ Z.of_nat n.
Proof.
  revert x. induction n as [|n IH]; intros x.
  - simpl. now rewrite Z.mod_1_r.
  - cbn [le_bytes le_int]. rewrite Z_of_byte_of_Z, IH.
    rewrite Nat2Z.inj_succ, Z.pow_succ_r by lia.
    rewrite Z.rem_mul_r by (try apply Z.pow_pos_nonneg; lia).
    reflexivity.
Qed.

Lemma le_int_le_bytes_u32 (x : Z) :
  0 <= x <= u32_max -> le_int (le_bytes 4 x) = x.
Proof.
  intros H. rewrite le_int_le_bytes. apply Z.mod_small.
  unfold u32_max in H. change (256 ^ Z.of_nat 4) with 4294967296. lia.
Qed.

Lemma bytes_eqb_refl (a : bytes) : bytes_eqb a a = true.
Proof.
  induction a as [|x a IH]; [reflexivity|].
  simpl. rewrite IH, andb_true_r. now apply Byte.byte_dec_lb.
Qed.

Lemma f_read_app (n : nat) (a b : bytes) :
  length a = n -> f_read n (a ++ b) = (Ok a, b).
Proof.
  intros <-. unfold f_read. f_equal.
  - rewrite firstn_app, Nat.sub_diag, firstn_all. simpl. now rewrite app_nil_r.
  - rewrite skipn_app, Nat.sub_diag, skipn_all. reflexivity.
Qed.

(** ** Arrays and their byte images *)

Lemma flat_map_tobytes_length (l : list f32) :
  length (flat_map f32_tobytes l) = (4 * length l)%nat.
Proof.
  induction l as [|x l IH]; [reflexivity|].
  cbn [flat_map]. rewrite length_app, IH. unfold f32_tobytes.
  rewrite le_bytes_length. cbn [length]. lia.
Qed.

Lemma tobytes_concat (a : ndarray) :
  tobytes a = flat_map f32_tobytes (concat (rows a)).
Proof.
  unfold tobytes. induction (rows a) as [|r rs IH]; [reflexivity|].
  cbn [flat_map concat]. now rewrite flat_map_app, IH.
Qed.

Lemma concat_rows_length (c : nat) (rs : list (list f32)) :
  Forall (fun r => length r = c) rs -> length (concat rs) = (length rs * c)%nat.
Proof.
  induction 1 as [|r rs Hr _ IH]; [reflexivity|].
  cbn [concat length]. rewrite length_app, IH, Hr. lia.
Qed.

Lemma chunks_concat (c : nat) (rs : list (list f32)) :
  Forall (fun r => length r = c) rs -> chunks (length rs) c (concat rs) = rs.
Proof.
  induction 1 as [|r rs Hr _ IH]; [reflexivity|].
  cbn [concat length chunks].
  rewrite firstn_app, skipn_app, Hr, Nat.sub_diag, firstn_all2, skipn_all2 by lia.
  cbn [firstn skipn app]. now rewrite app_nil_r, IH.
Qed.

Lemma group4_tobytes (l : list f32) :
  Forall is_f32 l -> group4 (flat_map f32_tobytes l) = l.
Proof.
  induction 1 as [|x l Hx _ IH]; [reflexivity|].
  cbn [flat_map]. unfold f32_tobytes at 1.
  change (le_bytes 4 x ++ flat_map f32_tobytes l)
    with (byte_of_Z x :: byte_of_Z (x / 256) :: byte_of_Z (x / 256 / 256)
          :: byte_of_Z (x / 256 / 256 / 256) :: flat_map f32_tobytes l).
  cbn [group4]. rewrite IH. f_equal.
  exact (le_int_le_bytes_u32 x Hx).
Qed.

Lemma group4_length (m : nat) (buf : bytes) :
  length buf = (4 * m)%nat -> length (group4 buf) = m.
Proof.
  revert buf. induction m as [|m IH]; intros buf H.
  - destruct buf; [reflexivity | discriminate].
  - destruct buf as [|b0 [|b1 [|b2 [|b3 rest]]]]; cbn [length] in H; try lia.
    cbn [group4 length]. f_equal. apply IH. lia.
Qed.

Lemma wf_rows_length (a : ndarray) :
  wf_ndarray a -> Forall (fun r => length r = dim a) (rows a).
Proof.
  unfold wf_ndarray. apply Forall_impl. now intros r [H _].
Qed.

Lemma wf_concat_f32 (a : ndarray) :
  wf_ndarray a -> Forall is_f32 (concat (rows a)).
Proof.
  unfold wf_ndarray. induction 1 as [|r rs [_ Hr] _ IH]; [constructor|].
  cbn [concat]. apply Forall_app. now split.
Qed.

Lemma tobytes_length (a : ndarray) :
  wf_ndarray a -> length (tobytes a) = (shape0 a * shape1 a * 4)%nat.
Proof.
  intros Hwf. rewrite tobytes_concat, flat_map_tobytes_length.
  rewrite (concat_rows_length _ _ (wf_rows_length a Hwf)).
  unfold shape0, shape1. lia.
Qed.

(** ** Reading a codebook image *)

Lemma load_codebook_image (path : string) (w : World)
      (ver ecb dimb payload extra : bytes) :
  w_fs w path = Some (MAGIC ++ ver ++ ecb ++ dimb ++ payload ++ extra) ->
  length ver = 4%nat -> length ecb = 4%nat -> length dimb = 4%nat ->
  le_int dimb = SLOT_DIM ->
  length payload = Z.to_nat (le_int ecb * SLOT_DIM * 4) ->
  load_codebook path w = (Ok (decoded ecb payload), w).
Proof.
  intros Hfs Hver Hecb Hdimb Hdim Hpay.
  unfold load_codebook, with_open_rb. rewrite Hfs. f_equal.
  unfold bind at 1. rewrite (f_read_app 4 MAGIC _ eq_refl), bytes_eqb_refl.
  cbn [negb].
  unfold bind at 1. rewrite (f_read_app 4 ver _ Hver).
  unfold bind at 1, lift at 1, struct_unpack_I at 1.
  rewrite Hver. cbn [Nat.eqb].
  unfold bind at 1. rewrite (f_read_app 4 ecb _ Hecb).
  unfold bind at 1, lift at 1, struct_unpack_I at 1.
  rewrite Hecb. cbn [Nat.eqb].
  unfold bind at 1. rewrite (f_read_app 4 dimb _ Hdimb).
  unfold bind at 1, lift at 1, struct_unpack_I at 1.
  rewrite Hdimb. cbn [Nat.eqb].
  rewrite Hdim, Z.eqb_refl. cbn [negb].
  unfold bind at 1. rewrite (f_read_app _ payload extra Hpay).
  pose proof (le_int_nonneg ecb) as Hnn.
  assert (Hlen : length payload = (4 * (Z.to_nat (le_int ecb) * 256))%nat).
  { rewrite Hpay. unfold SLOT_DIM. lia. }
  unfold bind at 1, lift at 1, frombuffer. rewrite Hlen at 1.
  rewrite Nat.mul_comm, Nat.Div0.mod_mul. cbn [Nat.eqb].
  unfold lift, reshape. rewrite (group4_length _ _ Hlen).
  change (Z.to_nat SLOT_DIM) with 256%nat.
  rewrite Nat.eqb_refl. reflexivity.
Qed.

(** ** Writing a codebook *)

Lemma struct_pack_I_ok (x : Z) :
  0 <= x <= u32_max -> struct_pack_I x = Ok (le_bytes 4 x).
Proof.
  intros [H0 H1]. unfold struct_pack_I.
  apply Z.leb_le in H0, H1. now rewrite H0, H1.
Qed.

Lemma fs_set_same fs path content : fs_set fs path content path = Some content.
Proof. unfold fs_set. now rewrite String.eqb_refl. Qed.

Lemma fs_set_other fs path content p :
  p <> path -> fs_set fs path content p = fs p.
Proof.
  intros H. unfold fs_set. destruct (String.eqb_spec p path); [contradiction | reflexivity].
Qed.

Lemma save_codebook_run (centroids : ndarray) (path : string) (w : World) :
  shape1 centroids = TARGET_DIM ->
  Z.of_nat (shape0 centroids) <= u32_max ->
  save_codebook centroids path w = (Ok tt, saved_world centroids path w).
Proof.
  intros Hdim Hcount. unfold save_codebook.
  rewrite Hdim. unfold bind at 1. cbn [Nat.eqb TARGET_DIM py_assert ret].
  unfold bind at 1, with_open_wb.
  unfold bind at 1, f_write at 1.
  unfold bind at 1, lift at 1. rewrite (struct_pack_I_ok FORMAT_VERSION) by (unfold FORMAT_VERSION, u32_max; lia).
  unfold bind at 1, f_write at 1.
  unfold bind at 1, lift at 1. rewrite (struct_pack_I_ok (Z.of_nat (shape0 centroids))) by lia.
  unfold bind at 1, f_write at 1.
  unfold bind at 1, lift at 1. rewrite (struct_pack_I_ok (Z.of_nat TARGET_DIM)) by (unfold TARGET_DIM, u32_max; lia).
  unfold bind at 1, f_write at 1.
  unfold f_write.
  unfold bind at 1, stat_size. cbn [w_fs]. rewrite fs_set_same.
  unfold print, saved_world. cbn [w_fs w_clock w_ticks w_stdout].
  try rewrite Hdim.
  assert (Himg : ((((([] ++ MAGIC) ++ le_bytes 4 FORMAT_VERSION)
                     ++ le_bytes 4 (Z.of_nat (shape0 centroids)))
                    ++ le_bytes 4 (Z.of_nat TARGET_DIM)) ++ tobytes centroids)
                 = codebook_file (shape0 centroids) TARGET_DIM (concat (rows centroids))).
  { unfold codebook_file. rewrite tobytes_concat. cbn [app].
    rewrite <- !app_assoc. reflexivity. }
  rewrite Himg. reflexivity.
Qed.

Lemma codebook_file_length (entry_count dim : nat) (values : list f32) :
  length values = (entry_count * dim)%nat ->
  length (codebook_file entry_count dim values) = (16 + entry_count * dim * 4)%nat.
Proof.
  intros H. unfold codebook_file.
  rewrite !length_app, !le_bytes_length.
  change (flat_map (le_bytes 4) values) with (flat_map f32_tobytes values).
  rewrite flat_map_tobytes_length, H. cbn [length]. lia.
Qed.

(** ** Codec theorems *)

Lemma zero_centroid_wf : wf_ndarray zero_centroid.
Proof.
  unfold wf_ndarray, zero_centroid. cbn [rows dim].
  constructor; [|constructor]. split.
  - apply repeat_length.
  - apply Forall_forall. intros x Hx. apply repeat_spec in Hx. subst x.
    unfold is_f32, u32_max. lia.
Qed.

(** C3. For a centroid matrix of shape (entry_count, dim) with dim the
    target dimension (and entry_count representable as a u32, which the
    65536 ceiling of the data model guarantees), [save_codebook] succeeds and
    leaves at [path] exactly the bytes "VXCB", the little-endian u32 1, the
    little-endian u32 entry_count, the little-endian u32 dim, and the values
    in row-major order as little-endian 32-bit patterns: 16 + entry_count *
    dim * 4 bytes in all.  No other file is touched. *)
Theorem save_codebook_file_layout (centroids : ndarray) (path : string) (w : World) :
  wf_ndarray centroids ->
  shape1 centroids = TARGET_DIM ->
  Z.of_nat (shape0 centroids) <= u32_max ->
  let entry_count := shape0 centroids in
  let dim := shape1 centroids in
  let file := codebook_file entry_count dim (concat (rows centroids)) in
  fst (save_codebook centroids path w) = Ok tt /\
  w_fs (snd (save_codebook centroids path w)) path = Some file /\
  (forall p, p <> path -> w_fs (snd (save_codebook centroids path w)) p = w_fs w p) /\
  length file = (16 + entry_count * dim * 4)%nat /\
  le_int (firstn 4 (skipn 4 file)) = 1 /\
  le_int (firstn 4 (skipn 8 file)) = Z.of_nat entry_count /\
  le_int (firstn 4 (skipn 12 file)) = Z.of_nat dim.
Proof.
  intros Hwf Hdim Hcount entry_count dim file.
  rewrite (save_codebook_run centroids path w Hdim Hcount).
  cbn [fst snd]. unfold saved_world. cbn [w_fs]. rewrite fs_set_same.
  split; [reflexivity|]. split; [reflexivity|].
  split; [intros p Hp; now apply fs_set_other|]. split.
  - apply codebook_file_length.
    apply (concat_rows_length _ _ (wf_rows_length centroids Hwf)).
  - split; [reflexivity|]. split.
    + change (le_int (firstn 4 (skipn 8 file)))
        with (le_int (le_bytes 4 (Z.of_nat entry_count))).
      apply le_int_le_bytes_u32. lia.
    + change (le_int (firstn 4 (skipn 12 file)))
        with (le_int (le_bytes 4 (Z.of_nat dim))).
      apply le_int_le_bytes_u32. subst dim. rewrite Hdim.
      unfold TARGET_DIM, u32_max. lia.
Qed.

Lemma save_codebook_file_layout_witness :
  wf_ndarray zero_centroid /\
  shape1 zero_centroid = TARGET_DIM /\
  Z.of_nat (shape0 zero_centroid) <= u32_max /\
  fst (save_codebook zero_centroid "codebook.bin" empty_world) = Ok tt /\
  length (codebook_file 1 256 (repeat 0 256)) = 1040%nat.
Proof.
  assert (H1 : wf_ndarray zero_centroid) by exact zero_centroid_wf.
  assert (H2 : shape1 zero_centroid = TARGET_DIM) by reflexivity.
  assert (H3 : Z.of_nat (shape0 zero_centroid) <= u32_max) by (vm_compute; discriminate).
  destruct (save_codebook_file_layout zero_centroid "codebook.bin" empty_world H1 H2 H3)
    as (Hok & _ & _ & Hlen & _).
  repeat split; assumption.
Defined.

(** C4. Writing a centroid matrix of the target dimension with
    [save_codebook] and reading the file back with [load_codebook] returns
    the matrix itself, hence with the same entry count and dimension. *)
Theorem codec_round_trip (centroids : ndarray) (path : string) (w : World) :
  wf_ndarray centroids ->
  shape1 centroids = TARGET_DIM ->
  Z.of_nat (shape0 centroids) <= u32_max ->
  let w' := snd (save_codebook centroids path w) in
  fst (save_codebook centroids path w) = Ok tt /\
  exists loaded,
    fst (load_codebook path w') = Ok loaded /\
    loaded = centroids /\
    shape0 loaded = shape0 centroids /\
    shape1 loaded = shape1 centroids.
Proof.
  intros Hwf Hdim Hcount w'. subst w'.
  rewrite (save_codebook_run centroids path w Hdim Hcount). cbn [fst snd].
  split; [reflexivity|]. exists centroids. repeat split.
  pose proof (wf_rows_length centroids Hwf) as Hrows.
  assert (Hec : le_int (le_bytes 4 (Z.of_nat (shape0 centroids))) = Z.of_nat (shape0 centroids))
    by (apply le_int_le_bytes_u32; lia).
  rewrite (load_codebook_image path (saved_world centroids path w)
             [x01; x00; x00; x00]
             (le_bytes 4 (Z.of_nat (shape0 centroids)))
             (le_bytes 4 (Z.of_nat (shape1 centroids)))
             (tobytes centroids) []).
  - cbn [fst]. f_equal. unfold decoded. rewrite Hec, Nat2Z.id.
    rewrite tobytes_concat, (group4_tobytes _ (wf_concat_f32 centroids Hwf)).
    unfold shape0. unfold shape1, TARGET_DIM in Hdim. rewrite <- Hdim in *.
    rewrite (chunks_concat _ _ Hrows). now destruct centroids.
  - unfold saved_world. cbn [w_fs]. rewrite fs_set_same. f_equal.
    unfold codebook_file. rewrite tobytes_concat, app_nil_r. reflexivity.
  - reflexivity.
  - apply le_bytes_length.
  - apply le_bytes_length.
  - rewrite Hdim. reflexivity.
  - rewrite Hec, (tobytes_length centroids Hwf), Hdim. unfold SLOT_DIM, TARGET_DIM. lia.
Qed.

Lemma codec_round_trip_witness :
  wf_ndarray zero_centroid /\
  shape1 zero_centroid = TARGET_DIM /\
  Z.of_nat (shape0 zero_centroid) <= u32_max /\
  exists loaded,
    fst (load_codebook "codebook.bin"
           (snd (save_codebook zero_centroid "codebook.bin" empty_world))) = Ok loaded /\
    loaded = zero_centroid.
Proof.
  assert (H1 : wf_ndarray zero_centroid) by exact zero_centroid_wf.
  assert (H2 : shape1 zero_centroid = TARGET_DIM) by reflexivity.
  assert (H3 : Z.of_nat (shape0 zero_centroid) <= u32_max) by (vm_compute; discriminate).
  destruct (codec_round_trip zero_centroid "codebook.bin" empty_world H1 H2 H3)
    as (_ & loaded & Hload & Heq & _).
  repeat split; try assumption. exists loaded. now split.
Defined.

(** C7. [save_codebook] checks the column count before it opens the file:
    a matrix whose column count is not the target dimension makes it fail
    with the assertion error (the spec's DimensionMismatchError) and leaves
    the world as it was; a matrix of the target dimension never raises that
    error. *)
Theorem save_codebook_dimension_check (centroids : ndarray) (path : string) (w : World) :
  (shape1 centroids <> TARGET_DIM ->
   save_codebook centroids path w = (Raise AssertionError, w)) /\
  (shape1 centroids = TARGET_DIM ->
   fst (save_codebook centroids path w) <> Raise AssertionError).
Proof.
  split.
  - intros Hdim. unfold save_codebook, bind at 1.
    apply Nat.eqb_neq in Hdim. rewrite Hdim. reflexivity.
  - intros Hdim.
    destruct (Z.le_gt_cases (Z.of_nat (shape0 centroids)) u32_max) as [Hc|Hc].
    + rewrite (save_codebook_run centroids path w Hdim Hc). discriminate.
    + unfold save_codebook. rewrite Hdim.
      unfold bind at 1. cbn [Nat.eqb TARGET_DIM py_assert ret].
      unfold bind at 1, with_open_wb.
      unfold bind at 1, f_write at 1.
      unfold bind at 1, lift at 1.
      rewrite (struct_pack_I_ok FORMAT_VERSION) by (unfold FORMAT_VERSION, u32_max; lia).
      unfold bind at 1, f_write at 1.
      unfold bind at 1, lift at 1.
      unfold struct_pack_I at 1.
      replace (Z.of_nat (shape0 centroids) <=? u32_max) with false
        by (symmetry; apply Z.leb_gt; lia).
      rewrite andb_false_r. cbn [fst]. discriminate.
Qed.

(** C9. [load_codebook] reads the version field and never looks at it: a
    file that starts with "VXCB", carries any four bytes as version, any
    entry count, the expected dimension and at least entry_count * dim * 4
    payload bytes is accepted, and what is decoded depends on the count and
    the payload only. *)
Theorem load_codebook_ignores_version (path : string) (w : World)
        (ver ecb dimb payload extra : bytes) :
  w_fs w path = Some (MAGIC ++ ver ++ ecb ++ dimb ++ payload ++ extra) ->
  length ver = 4%nat -> length ecb = 4%nat -> length dimb = 4%nat ->
  le_int dimb = SLOT_DIM ->
  length payload = Z.to_nat (le_int ecb * SLOT_DIM * 4) ->
  fst (load_codebook path w) = Ok (decoded ecb payload) /\
  shape0 (decoded ecb payload) = Z.to_nat (le_int ecb) /\
  shape1 (decoded ecb payload) = 256%nat.
Proof.
  intros Hfs Hver Hecb Hdimb Hdim Hpay.
  rewrite (load_codebook_image path w ver ecb dimb payload extra Hfs Hver Hecb Hdimb Hdim Hpay).
  split; [reflexivity|]. split; [|reflexivity].
  unfold decoded, shape0. cbn [rows].
  generalize (group4 payload). induction (Z.to_nat (le_int ecb)) as [|n IH]; intros l.
  - reflexivity.
  - cbn [chunks length]. now rewrite IH.
Qed.

Lemma load_codebook_ignores_version_witness :
  fst (load_codebook "codebook.bin" (world_with "codebook.bin" version7_file))
  = Ok (decoded [x01; x00; x00; x00] (repeat x00 1024)).
Proof.
  refine (proj1 (load_codebook_ignores_version "codebook.bin"
                   (world_with "codebook.bin" version7_file)
                   [x07; x00; x00; x00] [x01; x00; x00; x00] [x00; x01; x00; x00]
                   (repeat x00 1024) [] _ _ _ _ _ _));
    reflexivity.
Defined.

(** ** Strings and the float grammar *)

Local Open Scope nat_scope.

Lemma append_assoc (a b c : string) :
  ((a ++ b) ++ c = a ++ (b ++ c))%string.
Proof.
  induction a as [|x a IH]; [reflexivity|]. cbn [append]. now rewrite IH.
Qed.

Lemma numeric_char_facts (c : ascii) :
  numeric_char c = true ->
  (code c <? 127) = true /\ str_isspace c = false /\ c_isspace c = false /\
  Ascii.eqb c " " = false /\ Ascii.eqb c "_" = false /\ (code c =? 0) = false /\
  Ascii.eqb c tab = false.
Proof.
  destruct c as [[] [] [] [] [] [] [] []]; vm_compute; intros Hc;
    first [discriminate Hc | repeat split].
Qed.

Lemma lower_tab (c : ascii) : Ascii.eqb (lower c) tab = Ascii.eqb c tab.
Proof.
  destruct c as [[] [] [] [] [] [] [] []]; vm_compute; reflexivity.
Qed.

Lemma has_char_app (m : ascii) (a b : string) :
  has_char m (a ++ String m b) = true.
Proof.
  induction a as [|x a IH]; cbn [append has_char].
  - now rewrite Ascii.eqb_refl.
  - rewrite IH. apply orb_true_r.
Qed.

Lemma has_tab_lower (s : string) : has_char tab (lower_str s) = has_char tab s.
Proof.
  induction s as [|c s IH]; [reflexivity|].
  cbn [lower_str has_char]. now rewrite lower_tab, IH.
Qed.

(** *** Splitting *)

Lemma split_space_nonempty (s : string) : split_space s <> [].
Proof.
  destruct s as [|c s]; cbn [split_space]; [discriminate|].
  destruct (Ascii.eqb c " "); [discriminate|].
  destruct (split_space s); discriminate.
Qed.

Lemma split_space_app (a b : string) :
  split_space (a ++ String " " b) = split_space a ++ split_space b.
Proof.
  induction a as [|c a IH].
  - reflexivity.
  - cbn [append split_space]. rewrite IH.
    destruct (Ascii.eqb c " "); [reflexivity|].
    destruct (split_space a) eqn:E; [|reflexivity].
    now apply split_space_nonempty in E.
Qed.

Lemma split_space_prefix (u v : string) :
  all_chars (fun c => negb (Ascii.eqb c " ")) u = true ->
  exists h t, split_space (u ++ v) = (u ++ h)%string :: t.
Proof.
  induction u as [|c u IH]; intros Hu.
  - cbn [append]. destruct (split_space v) as [|h t] eqn:E.
    + now apply split_space_nonempty in E.
    + now exists h, t.
  - cbn [all_chars] in Hu. apply andb_true_iff in Hu as [Hc Hu].
    destruct (IH Hu) as (h & t & E).
    exists h, t. cbn [append split_space]. rewrite E.
    apply negb_true_iff in Hc. now rewrite Hc.
Qed.

(** *** Stripping *)

Lemma rstrip_cons (d : ascii) (s : string) :
  str_isspace d = false -> rstrip (String d s) = String d (rstrip s).
Proof.
  intros Hd. cbn [rstrip]. destruct (rstrip s); [now rewrite Hd | reflexivity].
Qed.

Lemma rstrip_app (a s : string) :
  rstrip s <> EmptyString -> rstrip (a ++ s) = (a ++ rstrip s)%string.
Proof.
  intros Hs. induction a as [|c a IH]; [reflexivity|].
  cbn [append rstrip]. rewrite IH.
  destruct (a ++ rstrip s)%string eqn:E; [|reflexivity].
  destruct a; [cbn [append] in E; contradiction | discriminate].
Qed.

Lemma rstrip_c_cons (d : ascii) (s : string) :
  c_isspace d = false -> rstrip_c (String d s) = String d (rstrip_c s).
Proof.
  intros Hd. cbn [rstrip_c]. destruct (rstrip_c s); [now rewrite Hd | reflexivity].
Qed.

Lemma rstrip_c_app (a s : string) :
  rstrip_c s <> EmptyString -> rstrip_c (a ++ s) = (a ++ rstrip_c s)%string.
Proof.
  intros Hs. induction a as [|c a IH]; [reflexivity|].
  cbn [append rstrip_c]. rewrite IH.
  destruct (a ++ rstrip_c s)%string eqn:E; [|reflexivity].
  destruct a; [cbn [append] in E; contradiction | discriminate].
Qed.

(** *** What [float] rejects *)

Lemma to_ascii_decimal_numeric (x r : string) :
  all_chars numeric_char x = true ->
  to_ascii_decimal (x ++ r) = (x ++ to_ascii_decimal r)%string.
Proof.
  induction x as [|c x IH]; intros Hx; [reflexivity|].
  cbn [all_chars] in Hx. apply andb_true_iff in Hx as [Hc Hx].
  destruct (numeric_char_facts c Hc) as (Hp & _).
  cbn [append to_ascii_decimal]. now rewrite Hp, IH.
Qed.

Lemma drop_underscores_numeric (x r u : string) (p : ascii) :
  all_chars numeric_char x = true ->
  drop_underscores p (x ++ r) = Some u ->
  exists u' p', u = (x ++ u')%string /\ drop_underscores p' r = Some u'.
Proof.
  revert p u. induction x as [|c x IH]; intros p u Hx Hd.
  - exists u, p. now split.
  - cbn [all_chars] in Hx. apply andb_true_iff in Hx as [Hc Hx].
    destruct (numeric_char_facts c Hc) as (_ & _ & _ & _ & Hu & Hz & _).
    cbn [append drop_underscores] in Hd. rewrite Hz, Hu in Hd.
    destruct (Ascii.eqb p "_" && negb (is_digit c)); [discriminate|].
    destruct (drop_underscores c (x ++ r)) as [u0|] eqn:E; [|discriminate].
    cbn [option_map] in Hd. injection Hd as <-.
    destruct (IH c u0 Hx E) as (u' & p' & -> & Hr).
    exists u', p'. now split.
Qed.

Lemma drop_underscores_tab (r u : string) (p : ascii) :
  drop_underscores p (String tab r) = Some u ->
  exists u', u = String tab u' /\ drop_underscores tab r = Some u'.
Proof.
  intros Hd. cbn [drop_underscores] in Hd.
  change (code tab =? 0) with false in Hd.
  change (Ascii.eqb tab "_") with false in Hd.
  change (is_digit tab) with false in Hd. cbn [negb] in Hd.
  rewrite andb_true_r in Hd.
  destruct (Ascii.eqb p "_"); [discriminate|].
  destruct (drop_underscores tab r) as [u0|]; [|discriminate].
  injection Hd as <-. now exists u0.
Qed.

Lemma num_run_other (q : num_state) (a b : string) (m : ascii) :
  classify m = Other -> num_run q (a ++ String m b) = false.
Proof.
  intros Hm. revert q. induction a as [|c a IH]; intros q.
  - cbn [append num_run]. rewrite Hm. now destruct q.
  - cbn [append num_run]. destruct (num_step q (classify c)); [apply IH | reflexivity].
Qed.

Lemma is_inf_or_nan_no_tab (s : string) :
  has_char tab (drop_sign s) = true -> is_inf_or_nan s = false.
Proof.
  intros Ht. unfold is_inf_or_nan.
  rewrite <- has_tab_lower in Ht.
  destruct (String.eqb_spec (lower_str (drop_sign s)) "inf") as [E|_];
    [rewrite E in Ht; discriminate|].
  destruct (String.eqb_spec (lower_str (drop_sign s)) "infinity") as [E|_];
    [rewrite E in Ht; discriminate|].
  destruct (String.eqb_spec (lower_str (drop_sign s)) "nan") as [E|_];
    [rewrite E in Ht; discriminate|].
  reflexivity.
Qed.

(** A tab between two numeric characters makes [float] fail, whatever
    follows. *)
Lemma float_literal_tab (x y h : string) :
  numeric x = true -> numeric y = true ->
  float_literal (x ++ String tab (y ++ h)) = None.
Proof.
  unfold numeric. intros Hx Hy.
  apply andb_true_iff in Hx as [Hxne Hx], Hy as [Hyne Hy].
  destruct x as [|c x]; [discriminate|]. destruct y as [|d y]; [discriminate|].
  clear Hxne Hyne.
  unfold float_literal.
  rewrite (to_ascii_decimal_numeric _ _ Hx).
  change (to_ascii_decimal (String tab (String d y ++ h)))
    with (String tab (to_ascii_decimal (String d y ++ h))).
  rewrite (to_ascii_decimal_numeric _ _ Hy).
  destruct (drop_underscores "000" _) as [u|] eqn:E; [|reflexivity].
  apply (drop_underscores_numeric _ _ _ _ Hx) in E as (u1 & p1 & -> & E).
  apply drop_underscores_tab in E as (u2 & -> & E).
  apply (drop_underscores_numeric _ _ _ _ Hy) in E as (u3 & p3 & -> & _).
  cbn [all_chars] in Hx, Hy.
  apply andb_true_iff in Hx as [Hc Hx], Hy as [Hd Hy].
  destruct (numeric_char_facts c Hc) as (_ & _ & Hcs & _).
  destruct (numeric_char_facts d Hd) as (_ & _ & Hds & _).
  cbn [append lstrip_c]. rewrite Hcs.
  change (String c (x ++ String tab (String d (y ++ u3))))%string
    with (String c x ++ String tab (String d (y ++ u3)))%string.
  replace (String c x ++ String tab (String d (y ++ u3)))%string
    with ((String c x ++ String tab "") ++ String d (y ++ u3))%string
    by (now rewrite append_assoc).
  rewrite rstrip_c_app by (rewrite (rstrip_c_cons _ _ Hds); discriminate).
  rewrite append_assoc.
  change (String tab "" ++ rstrip_c (String d (y ++ u3)))%string
    with (String tab (rstrip_c (String d (y ++ u3)))).
  rewrite (num_run_other NStart (String c x) _ tab eq_refl).
  rewrite is_inf_or_nan_no_tab; [reflexivity|].
  cbn [append drop_sign].
  destruct (Ascii.eqb c "+" || Ascii.eqb c "-").
  - apply has_char_app.
  - cbn [has_char]. rewrite has_char_app. apply orb_true_r.
Qed.

(** ** The reader *)

Section ReaderFacts.

Context `{Runtime}.

Lemma floats_rejects (xs : list string) :
  Exists (fun x => float_literal x = None) xs -> floats xs = Raise ValueError.
Proof.
  induction xs as [|x xs IH]; intros Hex.
  - inversion Hex.
  - cbn [floats]. unfold py_float.
    destruct (float_literal x) as [t|] eqn:E; [|reflexivity].
    cbn [rbind]. rewrite IH; [reflexivity|].
    inversion Hex as [? ? Hx | ? ? Hxs]; subst; [congruence | assumption].
Qed.

Lemma floats_raises_ValueError (xs : list string) (e : exn) :
  floats xs = Raise e -> e = ValueError.
Proof.
  induction xs as [|x xs IH]; cbn [floats]; [discriminate|].
  unfold py_float. destruct (float_literal x); cbn [rbind].
  - destruct (floats xs); cbn [rbind]; [discriminate|].
    intros [= <-]. now apply IH.
  - now intros [= <-].
Qed.

(** A line one of whose fields after the first is refused by [float] leaves
    [vectors] as it was. *)
Lemma read_line_rejects (line : string) (vectors : list (list f32)) :
  Exists (fun x => float_literal x = None) (tl (split_space (rstrip line))) ->
  read_line line vectors = Ok vectors.
Proof.
  intros Hex. unfold read_line.
  destruct (length (split_space (rstrip line)) <? 3); [reflexivity|].
  now rewrite (floats_rejects _ Hex).
Qed.

Lemma tl_split_app (a b : string) :
  tl (split_space (a ++ String " " b)) = tl (split_space a) ++ split_space b.
Proof.
  rewrite split_space_app.
  destruct (split_space a) eqn:E; [now apply split_space_nonempty in E | reflexivity].
Qed.

Lemma rstrip_numeric (y post : string) :
  numeric y = true ->
  rstrip (y ++ post) = (y ++ rstrip post)%string /\ rstrip (y ++ post) <> EmptyString.
Proof.
  unfold numeric. intros Hy. apply andb_true_iff in Hy as [Hne Hy].
  destruct y as [|d y]; [discriminate|]. clear Hne.
  assert (Hgen : forall z, all_chars numeric_char z = true ->
                           rstrip (z ++ post) = (z ++ rstrip post)%string).
  { induction z as [|c z IH]; intros Hz; [reflexivity|].
    cbn [all_chars] in Hz. apply andb_true_iff in Hz as [Hc Hz].
    destruct (numeric_char_facts c Hc) as (_ & Hs & _).
    cbn [append]. now rewrite (rstrip_cons _ _ Hs), IH. }
  rewrite (Hgen _ Hy). split; [reflexivity | discriminate].
Qed.

Lemma numeric_spaceless (x : string) :
  all_chars numeric_char x = true ->
  all_chars (fun c => negb (Ascii.eqb c " ")) x = true.
Proof.
  induction x as [|c x IH]; intros Hx; [reflexivity|].
  cbn [all_chars] in *. apply andb_true_iff in Hx as [Hc Hx].
  destruct (numeric_char_facts c Hc) as (_ & _ & _ & Hsp & _).
  now rewrite Hsp, IH.
Qed.

(** Two numeric fields, the first right after a space, with a tab between
    them. *)
Lemma read_line_tab (pre x y post : string) (vectors : list (list f32)) :
  numeric x = true -> numeric y = true ->
  read_line (pre ++ String " " (x ++ String tab (y ++ post))) vectors = Ok vectors.
Proof.
  intros Hx Hy. apply read_line_rejects.
  destruct (rstrip_numeric y post Hy) as [Hry Hne].
  assert (Hr : rstrip (pre ++ String " " (x ++ String tab (y ++ post)))
               = (pre ++ String " " (x ++ String tab (y ++ rstrip post)))%string).
  { transitivity (rstrip ((pre ++ String " " (x ++ String tab "")) ++ (y ++ post))).
    - f_equal. repeat first [rewrite append_assoc | progress cbn [append]]. reflexivity.
    - rewrite rstrip_app, Hry by assumption.
      repeat first [rewrite append_assoc | progress cbn [append]]. reflexivity. }
  rewrite Hr, tl_split_app. apply Exists_app. right.
  assert (Hsp : all_chars (fun c => negb (Ascii.eqb c " ")) (x ++ String tab y) = true).
  { pose proof Hx as Hx'. pose proof Hy as Hy'. unfold numeric in Hx', Hy'.
    apply andb_true_iff in Hx' as [_ Hx'], Hy' as [_ Hy'].
    apply numeric_spaceless in Hx', Hy'.
    clear - Hx' Hy'. induction x as [|c x IH]; cbn [append all_chars] in *.
    - exact Hy'.
    - apply andb_true_iff in Hx' as [Hc Hx']. now rewrite Hc, IH. }
  destruct (split_space_prefix (x ++ String tab y) (rstrip post) Hsp) as (h & t & E).
  rewrite append_assoc in E. cbn [append] in E. rewrite E.
  apply Exists_cons_hd.
  rewrite append_assoc. cbn [append]. now apply float_literal_tab.
Qed.

(** Two consecutive spaces before a numeric field. *)
Lemma read_line_two_spaces (pre y post : string) (vectors : list (list f32)) :
  numeric y = true ->
  read_line (pre ++ String " " (String " " (y ++ post))) vectors = Ok vectors.
Proof.
  intros Hy. apply read_line_rejects.
  destruct (rstrip_numeric y post Hy) as [Hry Hne].
  assert (Hr : rstrip (pre ++ String " " (String " " (y ++ post)))
               = (pre ++ String " " (String " " (y ++ rstrip post)))%string).
  { transitivity (rstrip ((pre ++ String " " (String " " "")) ++ (y ++ post))).
    - f_equal. repeat first [rewrite append_assoc | progress cbn [append]]. reflexivity.
    - rewrite rstrip_app, Hry by assumption.
      repeat first [rewrite append_assoc | progress cbn [append]]. reflexivity. }
  rewrite Hr, tl_split_app. apply Exists_app. right.
  cbn [split_space]. change (Ascii.eqb " " " ") with true. cbn iota.
  apply Exists_cons_hd. reflexivity.
Qed.

Lemma read_lines_all_skipped (max_vocab : option nat) (lines : list string)
      (i : nat) (vectors : list (list f32)) :
  (forall j line, nth_error lines j = Some line ->
                  cap_reached max_vocab (i + j) = false ->
                  read_line line vectors = Ok vectors) ->
  read_lines max_vocab i lines vectors = Ok vectors.
Proof.
  revert i. induction lines as [|line rest IH]; intros i Hall; [reflexivity|].
  cbn [read_lines]. destruct (cap_reached max_vocab i) eqn:Hcap; [reflexivity|].
  rewrite (Hall 0 line eq_refl) by (now rewrite Nat.add_0_r).
  cbn [rbind]. apply IH. intros j l Hj Hc.
  apply (Hall (S j) l Hj). now rewrite Nat.add_succ_r.
Qed.

End ReaderFacts.

(** C8. When every line that is read (below the [max_vocab] cap) leaves the
    list of vectors empty - the file is empty, or each line is skipped as a
    header or as malformed - [load_embeddings] does not return an array:
    [np.stack] of the empty list raises ValueError (the spec's
    CorpusEmptyError). *)
Theorem load_embeddings_empty_corpus `{Runtime} (path : string)
        (max_vocab : option nat) (w : World) (content : bytes) :
  w_fs w path = Some content ->
  (forall j line, nth_error (text_lines content) j = Some line ->
                  cap_reached max_vocab j = false ->
                  read_line line [] = Ok []) ->
  fst (load_embeddings path max_vocab w) = Raise ValueError.
Proof.
  intros Hfs Hall. unfold load_embeddings.
  unfold bind at 1, print at 1.
  unfold bind at 1, with_open_r. cbn [w_fs]. rewrite Hfs.
  rewrite (read_lines_all_skipped max_vocab (text_lines content) 0 []) by exact Hall.
  reflexivity.
Qed.

Lemma load_embeddings_empty_corpus_witness :
  fst (@load_embeddings sample_runtime "vectors.txt" None
         (world_with "vectors.txt" skipped_only)) = Raise ValueError.
Proof.
  apply (@load_embeddings_empty_corpus sample_runtime "vectors.txt" None
           (world_with "vectors.txt" skipped_only) skipped_only).
  - reflexivity.
  - intros j line Hj _.
    destruct j as [|[|j]]; cbn in Hj.
    + injection Hj as <-. reflexivity.
    + injection Hj as <-. reflexivity.
    + destruct j; discriminate Hj.
Defined.

(** The line "tok<TAB>1.0<TAB>2.0 3.0 4.0" is not skipped: the tabs sit in
    the first field, which is never parsed, and the line yields the vector
    of 3.0 and 4.0, whatever the runtime. *)
Example tab_line_yields_vector `{Runtime} :
  read_line (String "t" (String "o" (String "k" (String tab
              ("1.0" ++ String tab "2.0 3.0 4.0")))))%string []
  = Ok [[float32 (strtod "3.0"); float32 (strtod "4.0")]].
Proof. reflexivity. Qed.




(** ** The clusterer *)

(** *** The convergence test *)

Lemma convergence_check_stop_iff (epoch : nat) (prev_inertia inertia : float) :
  convergence_check epoch prev_inertia inertia = Ok Stop <->
  (epoch + 1) mod 10 = 0 /\ 50 < epoch /\
  exists delta, improvement_pct prev_inertia inertia = Ok delta /\ in_window delta.
Proof.
  unfold convergence_check, in_window. split.
  - destruct ((epoch + 1) mod 10 =? 0) eqn:Hm; [|discriminate].
    apply Nat.eqb_eq in Hm.
    destruct (improvement_pct prev_inertia inertia) as [delta|e]; cbn [rbind]; [|discriminate].
    destruct (PrimFloat.ltb 0%float delta) eqn:H0; cbn [andb]; [|discriminate].
    destruct (PrimFloat.ltb delta 0.01%float) eqn:H1; cbn [andb]; [|discriminate].
    destruct (50 <? epoch) eqn:H50; [|discriminate].
    intros _. apply Nat.ltb_lt in H50. repeat split; try assumption.
    exists delta. repeat split; assumption.
  - intros (Hm & H50 & delta & Hd & H0 & H1).
    apply Nat.eqb_eq in Hm. apply Nat.ltb_lt in H50.
    rewrite Hm, Hd. cbn [rbind]. now rewrite H0, H1, H50.
Qed.

Section ClustererFacts.

Context `{RandomStateOps} `{MiniBatchKMeansOps}.

Variable data : ndarray.
Variables batch_size max_iter : nat.
Variable t0 : float.
Variable batches_per_epoch : nat.

Local Abbreviation loop := (epoch_loop data batch_size max_iter t0 batches_per_epoch).
Local Abbreviation epoch_of := (run_epoch data batch_size max_iter t0 batches_per_epoch).

(** One turn of the epoch loop, spelled out. *)
Lemma epoch_loop_step (remaining epoch : nat) (st : loop_state) (w : World) :
  loop (S remaining) epoch st w =
  match epoch_of epoch st w with
  | (Ok st1, w1) =>
      match convergence_check epoch (ls_prev_inertia st1) (inertia_ (ls_kmeans st1)) with
      | Ok Stop => (Ok (Broke epoch, st1),
                    mk_World (w_fs w1) (w_clock w1) (w_ticks w1)
                             (w_stdout w1 ++ [Converged (epoch + 1)]))
      | Ok (Proceed p) =>
          loop remaining (S epoch) (mk_loop_state (ls_rng st1) (ls_kmeans st1) p) w1
      | Raise e => (Raise e, w1)
      end
  | (Raise e, w1) => (Raise e, w1)
  end.
Proof.
  cbn [epoch_loop]. unfold bind at 1.
  destruct (epoch_of epoch st w) as [[st1|e] w1]; [|reflexivity].
  unfold bind at 1, lift.
  destruct (convergence_check epoch (ls_prev_inertia st1) (inertia_ (ls_kmeans st1)))
    as [[|p]|e]; reflexivity.
Qed.

(** The loop is left by [break] only at an epoch it has reached, and only
    when the test of that epoch says so. *)
Lemma epoch_loop_broke (remaining epoch : nat) (st : loop_state) (w : World)
      (e : nat) (st' : loop_state) (w' : World) :
  loop remaining epoch st w = (Ok (Broke e, st'), w') ->
  epoch <= e < epoch + remaining /\
  convergence_check e (ls_prev_inertia st') (inertia_ (ls_kmeans st')) = Ok Stop.
Proof.
  revert epoch st w. induction remaining as [|remaining IH]; intros epoch st w Hrun.
  - discriminate Hrun.
  - rewrite epoch_loop_step in Hrun.
    destruct (epoch_of epoch st w) as [[st1|x] w1]; [|discriminate].
    destruct (convergence_check epoch (ls_prev_inertia st1) (inertia_ (ls_kmeans st1)))
      as [[|p]|x] eqn:Hc; [| |discriminate].
    + injection Hrun as <- <- _. split; [lia | exact Hc].
    + apply IH in Hrun as [Hr Hc']. split; [lia | exact Hc'].
Qed.


End ClustererFacts.

Lemma agree_ret {A} (a : A) : agree (ret a) (ret a).
Proof. intros w1 w2. reflexivity. Qed.

Lemma agree_raise {A} (e : exn) : agree (@raise World A e) (raise e).
Proof. intros w1 w2. reflexivity. Qed.

Lemma agree_lift {A} (r : result A) : agree (lift r) (lift r).
Proof. intros w1 w2. reflexivity. Qed.

Lemma agree_print (e1 e2 : event) : agree (print e1) (print e2).
Proof. intros w1 w2. reflexivity. Qed.

Lemma agree_bind {A B} (m1 m2 : M A) (k1 k2 : A -> M B) :
  agree m1 m2 -> (forall a, agree (k1 a) (k2 a)) ->
  agree (bind m1 k1) (bind m2 k2).
Proof.
  intros Hm Hk w1 w2. unfold bind. specialize (Hm w1 w2).
  destruct (m1 w1) as [[a1|e1] w1'], (m2 w2) as [[a2|e2] w2']; cbn [fst] in Hm;
    try discriminate Hm.
  - injection Hm as <-. apply Hk.
  - injection Hm as <-. reflexivity.
Qed.

(** A reading of the clock may differ from run to run; the continuations
    have to agree whatever was read. *)
Lemma agree_time {B} (k1 k2 : float -> M B) :
  (forall t1 t2, agree (k1 t1) (k2 t2)) ->
  agree (bind time_time k1) (bind time_time k2).
Proof.
  intros Hk w1 w2. unfold bind, time_time. apply Hk.
Qed.

Lemma agree_floordiv (n d : nat) : agree (floordiv n d) (floordiv n d).
Proof. intros w1 w2. unfold floordiv. now destruct (d =? 0). Qed.

Lemma agree_progress_bar (current total : nat) (e1 eta1 e2 eta2 : float) :
  agree (_progress_bar current total e1 eta1) (_progress_bar current total e2 eta2).
Proof.
  unfold _progress_bar. destruct (total =? 0); [apply agree_raise | apply agree_print].
Qed.

Lemma agree_show_progress (max_iter bpe epoch b : nat) (t0 t0' : float) :
  agree (show_progress max_iter t0 bpe epoch b) (show_progress max_iter t0' bpe epoch b).
Proof.
  unfold show_progress. destruct (b mod 10 =? 0); [|apply agree_ret].
  apply agree_time. intros t1 t2. apply agree_progress_bar.
Qed.

Section Determinism.

Context `{RandomStateOps} `{MiniBatchKMeansOps}.

Variable data : ndarray.
Variables batch_size max_iter : nat.
Variable batches_per_epoch : nat.

Lemma agree_batch_loop (t0 t0' : float) (remaining b epoch : nat) (perm : list nat)
      (kmeans : MiniBatchKMeans) :
  agree (batch_loop data batch_size max_iter t0 batches_per_epoch remaining b epoch perm kmeans)
        (batch_loop data batch_size max_iter t0' batches_per_epoch remaining b epoch perm kmeans).
Proof.
  revert b kmeans. induction remaining as [|remaining IH]; intros b kmeans.
  - apply agree_ret.
  - cbn [batch_loop]. apply agree_bind; [apply agree_lift|]. intros batch.
    apply agree_bind; [apply agree_lift|]. intros kmeans'.
    apply agree_bind; [apply agree_show_progress|]. intros _. apply IH.
Qed.

Lemma agree_run_epoch (t0 t0' : float) (epoch : nat) (st : loop_state) :
  agree (run_epoch data batch_size max_iter t0 batches_per_epoch epoch st)
        (run_epoch data batch_size max_iter t0' batches_per_epoch epoch st).
Proof.
  unfold run_epoch. destruct (draw_permutation (ls_rng st) (shape0 data)) as [perm rng].
  apply agree_bind; [apply agree_batch_loop|]. intros kmeans. apply agree_ret.
Qed.

Lemma agree_epoch_loop (t0 t0' : float) (remaining epoch : nat) (st : loop_state) :
  agree (epoch_loop data batch_size max_iter t0 batches_per_epoch remaining epoch st)
        (epoch_loop data batch_size max_iter t0' batches_per_epoch remaining epoch st).
Proof.
  revert epoch st. induction remaining as [|remaining IH]; intros epoch st.
  - apply agree_ret.
  - cbn [epoch_loop]. apply agree_bind; [apply agree_run_epoch|]. intros st1.
    apply agree_bind; [apply agree_lift|]. intros [|p].
    + apply agree_bind; [apply agree_print|]. intros _. apply agree_ret.
    + apply IH.
Qed.

End Determinism.

Lemma agree_kmeans_run `{RandomStateOps} `{MiniBatchKMeansOps}
      (data : ndarray) (k batch_size max_iter : nat) :
  agree (kmeans_run data k batch_size max_iter) (kmeans_run data k batch_size max_iter).
Proof.
  unfold kmeans_run.
  apply agree_bind; [apply agree_print|]. intros _.
  apply agree_bind; [apply agree_print|]. intros _.
  apply agree_time. intros t0 t0'.
  apply agree_bind; [apply agree_floordiv|]. intros q.
  apply agree_bind; [apply agree_print|]. intros _.
  apply agree_bind; [apply agree_lift|]. intros [indices rng].
  apply agree_bind; [apply agree_lift|]. intros sample.
  apply agree_bind; [apply agree_lift|]. intros kmeans.
  apply agree_time. intros t1 t1'.
  apply agree_bind; [apply agree_print|]. intros _.
  apply agree_bind; [apply agree_epoch_loop|]. intros [how st].
  apply agree_time. intros t2 t2'.
  apply agree_bind; [apply agree_print|]. intros _.
  apply agree_ret.
Qed.

(** With these, a run of at most 100 epochs on one vector is left at the
    test after 60 epochs (epoch index 59): the improvement is in the window
    at every test from the second on, but the tests after 20, 30, 40 and 50
    epochs do not stop the loop. *)
Example stub_run_stops_after_sixty_epochs :
  fst (@kmeans_run stub_random stub_kmeans one_vector 1 1 100 empty_world)
  = Ok (Broke 59, mk_ndarray 1 [[0%Z]]).
Proof. vm_compute. reflexivity. Qed.

(** *** Failure on a small corpus, early stop, determinism *)

Lemma kmeans_run_sample_too_large `{RandomStateOps} `{MiniBatchKMeansOps}
      (data : ndarray) (k batch_size max_iter : nat) (w : World) :
  batch_size <> 0 -> shape0 data < Nat.max k batch_size ->
  fst (kmeans_run data k batch_size max_iter w) = Raise ValueError.
Proof.
  intros Hb Hn. unfold kmeans_run.
  unfold bind at 1, print at 1.
  unfold bind at 1, print at 1.
  unfold bind at 1, time_time at 1.
  unfold bind at 1, floordiv at 1.
  apply Nat.eqb_neq in Hb. rewrite Hb. unfold ret at 1.
  unfold bind at 1, print at 1.
  unfold bind at 1, lift at 1, rng_choice.
  apply Nat.ltb_lt in Hn. rewrite Hn. reflexivity.
Qed.

(** C1. Three vectors, [k = 2], [batch_size = 4]: a valid configuration
    ([1 <= k <= n]) whose batch size exceeds [n].  [kmeans_cluster] does not
    return centroids: drawing [max(k, batch_size) = 4] distinct indices out
    of 3 raises ValueError, whatever numpy's generator and scikit-learn's
    estimator are, and whatever the epoch count. *)
Theorem kmeans_cluster_batch_exceeds_corpus `{RandomStateOps} `{MiniBatchKMeansOps}
        (width : nat) (v1 v2 v3 : list f32) (max_iter : nat) (w : World) :
  fst (kmeans_cluster (mk_ndarray width [v1; v2; v3]) 2 4 max_iter w) = Raise ValueError.
Proof.
  unfold kmeans_cluster, bind at 1.
  assert (Hrun : fst (kmeans_run (mk_ndarray width [v1; v2; v3]) 2 4 max_iter w)
                 = Raise ValueError).
  { apply kmeans_run_sample_too_large; [discriminate | cbn; lia]. }
  destruct (kmeans_run (mk_ndarray width [v1; v2; v3]) 2 4 max_iter w) as [[out|e] w'];
    cbn [fst] in *; [discriminate Hrun|].
  injection Hrun as ->. reflexivity.
Qed.


(** *** The early stop *)

(** A float equal to zero is not infinite. *)
Lemma zero_is_not_infinity (p : float) :
  PrimFloat.eqb p 0 = true -> PrimFloat.eqb p infinity = false.
Proof.
  rewrite !FloatAxioms.eqb_spec.
  destruct (FloatOps.Prim2SF p) as [s|s| |s m e]; vm_compute;
    try discriminate; try reflexivity; destruct s; try discriminate; reflexivity.
Qed.

Lemma convergence_check_raise_iff (epoch : nat) (prev_inertia inertia : float) (x : exn) :
  convergence_check epoch prev_inertia inertia = Raise x <->
  (epoch + 1) mod 10 = 0 /\ x = ZeroDivisionError /\
  PrimFloat.eqb prev_inertia 0 = true.
Proof.
  unfold convergence_check, improvement_pct, py_div. split.
  - destruct (Nat.eqb_spec ((epoch + 1) mod 10) 0) as [Hm|_]; [|discriminate].
    destruct (PrimFloat.eqb prev_inertia infinity) eqn:Hinf; cbn [negb rbind].
    + destruct (_ && _); discriminate.
    + destruct (PrimFloat.eqb prev_inertia 0) eqn:Hz; cbn [rbind].
      * intros [= <-]. now repeat split.
      * destruct (_ && _); discriminate.
  - intros (Hm & -> & Hz). apply Nat.eqb_eq in Hm.
    now rewrite Hm, (zero_is_not_infinity _ Hz), Hz.
Qed.

Lemma convergence_check_proceed (epoch : nat) (prev_inertia inertia p : float) :
  convergence_check epoch prev_inertia inertia = Ok (Proceed p) ->
  p = if (epoch + 1) mod 10 =? 0 then inertia else prev_inertia.
Proof.
  unfold convergence_check. destruct ((epoch + 1) mod 10 =? 0).
  - destruct (improvement_pct prev_inertia inertia); cbn [rbind]; [|discriminate].
    destruct (_ && _); [discriminate|]. now intros [= <-].
  - now intros [= <-].
Qed.

Section EarlyStop.

Context `{RandomStateOps} `{MiniBatchKMeansOps}.

Variable data : ndarray.
Variables batch_size max_iter : nat.
Variable t0 : float.
Variable batches_per_epoch : nat.
Variable st0 : loop_state.
Variable w0 : World.

Local Abbreviation loop := (epoch_loop data batch_size max_iter t0 batches_per_epoch).
Local Abbreviation epoch_of := (run_epoch data batch_size max_iter t0 batches_per_epoch).
Local Abbreviation entering :=
  (fun e => enters data batch_size max_iter t0 batches_per_epoch e st0 w0).
Local Abbreviation checked :=
  (fun e => inertia_after data batch_size max_iter t0 batches_per_epoch e st0 w0).
Local Abbreviation previous :=
  (fun e => previous_check data batch_size max_iter t0 batches_per_epoch e st0 w0).

(** The batches of an epoch leave [prev_inertia] alone. *)
Lemma run_epoch_keeps_prev (epoch : nat) (st st1 : loop_state) (w w1 : World) :
  epoch_of epoch st w = (Ok st1, w1) -> ls_prev_inertia st1 = ls_prev_inertia st.
Proof.
  unfold run_epoch. destruct (draw_permutation (ls_rng st) (shape0 data)) as [perm rng].
  unfold bind. destruct (batch_loop _ _ _ _ _ _ _ _ _ _ w) as [[kmeans|x] w'];
    [|discriminate].
  unfold ret. now intros [= <- _].
Qed.

(** What it takes to enter the next epoch. *)
Lemma enters_next (e : nat) (st' : loop_state) (w' : World) :
  entering (S e) = Some (st', w') ->
  exists st w st1 p,
    entering e = Some (st, w) /\ epoch_of e st w = (Ok st1, w') /\
    convergence_check e (ls_prev_inertia st1) (inertia_ (ls_kmeans st1)) = Ok (Proceed p) /\
    st' = mk_loop_state (ls_rng st1) (ls_kmeans st1) p.
Proof.
  cbn [enters]. destruct (enters _ _ _ _ _ e st0 w0) as [[st w]|]; [|discriminate].
  destruct (epoch_of e st w) as [[st1|x] w1] eqn:Hep; [|discriminate].
  destruct (convergence_check e _ _) as [[|p]|x] eqn:Hc; try discriminate.
  intros [= <- <-]. now exists st, w, st1, p.
Qed.

Lemma enters_step (e : nat) (st st1 : loop_state) (w w1 : World) (p : float) :
  entering e = Some (st, w) -> epoch_of e st w = (Ok st1, w1) ->
  convergence_check e (ls_prev_inertia st1) (inertia_ (ls_kmeans st1)) = Ok (Proceed p) ->
  entering (S e) = Some (mk_loop_state (ls_rng st1) (ls_kmeans st1) p, w1).
Proof. intros He Hep Hc. cbn [enters]. now rewrite He, Hep, Hc. Qed.

Lemma inertia_after_entered (e : nat) (st st1 : loop_state) (w w1 : World) :
  entering e = Some (st, w) -> epoch_of e st w = (Ok st1, w1) ->
  checked e = Some (inertia_ (ls_kmeans st1)).
Proof. intros He Hep. unfold inertia_after. now rewrite He, Hep. Qed.

Lemma inertia_after_inv (e : nat) (v : float) :
  checked e = Some v ->
  exists st w st1 w1,
    entering e = Some (st, w) /\ epoch_of e st w = (Ok st1, w1) /\
    v = inertia_ (ls_kmeans st1).
Proof.
  unfold inertia_after. destruct (enters _ _ _ _ _ e st0 w0) as [[st w]|]; [|discriminate].
  destruct (epoch_of e st w) as [[st1|x] w1] eqn:Hep; [|discriminate].
  intros [= <-]. now exists st, w, st1, w1.
Qed.

(** The variable [prev_inertia] holds, on entry to an epoch, the inertia
    read at the last test before it, and infinity before the first test. *)
Lemma enters_prev_inertia :
  ls_prev_inertia st0 = infinity ->
  forall (e : nat) (st : loop_state) (w : World),
    entering e = Some (st, w) ->
    Some (ls_prev_inertia st)
    = if e <? 10 then Some infinity else checked (10 * (e / 10) - 1).
Proof.
  intros Hinf. induction e as [|e IH]; intros st' w' He.
  - cbn in He. injection He as <- <-. cbn. now rewrite Hinf.
  - apply enters_next in He as (st & w & st1 & p & He & Hep & Hc & ->).
    cbn [ls_prev_inertia]. specialize (IH st w He).
    apply convergence_check_proceed in Hc.
    rewrite (run_epoch_keeps_prev e st st1 w w' Hep) in Hc.
    pose proof (Nat.div_mod_eq e 10) as De.
    pose proof (Nat.div_mod_eq (S e) 10) as Ds.
    pose proof (Nat.div_mod_eq (e + 1) 10) as Dt.
    pose proof (Nat.mod_upper_bound e 10 ltac:(discriminate)) as Be.
    pose proof (Nat.mod_upper_bound (S e) 10 ltac:(discriminate)) as Bs.
    pose proof (Nat.mod_upper_bound (e + 1) 10 ltac:(discriminate)) as Bt.
    destruct (Nat.eqb_spec ((e + 1) mod 10) 0) as [Hm|Hm]; subst p.
    + destruct (Nat.ltb_spec (S e) 10) as [Hlt|_]; [lia|].
      replace (10 * (S e / 10) - 1) with e by lia.
      symmetry. exact (inertia_after_entered e st st1 w w' He Hep).
    + rewrite IH.
      replace (S e / 10) with (e / 10) by lia.
      destruct (Nat.ltb_spec e 10), (Nat.ltb_spec (S e) 10); try reflexivity; lia.
Qed.

(** At a test, that is the value [previous_check] names. *)
Lemma previous_check_entered (e : nat) (st : loop_state) (w : World) :
  ls_prev_inertia st0 = infinity ->
  (e + 1) mod 10 = 0 ->
  entering e = Some (st, w) ->
  previous e = Some (ls_prev_inertia st).
Proof.
  intros Hinf Hm He. rewrite (enters_prev_inertia Hinf e st w He).
  unfold previous_check. destruct (e <? 10); [reflexivity|].
  pose proof (Nat.div_mod_eq e 10) as De.
  pose proof (Nat.div_mod_eq (e + 1) 10) as Dt.
  pose proof (Nat.mod_upper_bound e 10 ltac:(discriminate)) as Be.
  replace (10 * (e / 10) - 1) with (e - 10) by lia. reflexivity.
Qed.

(** The loop from epoch 0 is the loop from any epoch it enters. *)
Lemma epoch_loop_shift (d : nat) :
  forall (remaining : nat) (st : loop_state) (w : World),
    entering d = Some (st, w) ->
    loop (d + remaining) 0 st0 w0 = loop remaining d st w.
Proof.
  induction d as [|d IH]; intros remaining st' w' He.
  - cbn in He. now injection He as <- <-.
  - apply enters_next in He as (st & w & st1 & p & He & Hep & Hc & ->).
    replace (S d + remaining) with (d + S remaining) by lia.
    rewrite (IH (S remaining) st w He).
    rewrite (epoch_loop_step data batch_size max_iter t0 batches_per_epoch remaining d st w).
    now rewrite Hep, Hc.
Qed.

(** How the loop can end, in terms of the epochs it enters. *)
Lemma epoch_loop_outcome (remaining : nat) :
  forall (epoch : nat) (st : loop_state) (w : World),
    entering epoch = Some (st, w) ->
    match loop remaining epoch st w with
    | (Ok (Broke e, st'), _) =>
        epoch <= e < epoch + remaining /\
        exists st_e w_e w1,
          entering e = Some (st_e, w_e) /\ epoch_of e st_e w_e = (Ok st', w1) /\
          convergence_check e (ls_prev_inertia st') (inertia_ (ls_kmeans st')) = Ok Stop
    | (Ok (Exhausted, st'), w') => entering (epoch + remaining) = Some (st', w')
    | (Raise x, _) =>
        exists e st_e w_e,
          epoch <= e < epoch + remaining /\ entering e = Some (st_e, w_e) /\
          (fst (epoch_of e st_e w_e) = Raise x \/
           exists st1 w1,
             epoch_of e st_e w_e = (Ok st1, w1) /\
             convergence_check e (ls_prev_inertia st1) (inertia_ (ls_kmeans st1)) = Raise x)
    end.
Proof.
  induction remaining as [|remaining IH]; intros epoch st w He.
  - cbn [epoch_loop]. unfold ret. now rewrite Nat.add_0_r.
  - rewrite (epoch_loop_step data batch_size max_iter t0 batches_per_epoch remaining epoch st w).
    destruct (epoch_of epoch st w) as [[st1|x] w1] eqn:Hep.
    + destruct (convergence_check epoch (ls_prev_inertia st1) (inertia_ (ls_kmeans st1)))
        as [[|p]|x] eqn:Hc.
      * split; [lia|]. now exists st, w, w1.
      * pose proof (enters_step epoch st st1 w w1 p He Hep Hc) as He'.
        specialize (IH (S epoch) _ _ He').
        destruct (loop remaining (S epoch) _ w1) as [[[[e|] st']|x] w'].
        -- destruct IH as [Hr Hrest]. split; [lia | exact Hrest].
        -- now replace (epoch + S remaining) with (S epoch + remaining) by lia.
        -- destruct IH as (e & st_e & w_e & Hr & Hrest).
           exists e, st_e, w_e. split; [lia | exact Hrest].
      * exists epoch, st, w. split; [lia|]. split; [exact He|].
        right. now exists st1, w1.
    + exists epoch, st, w. split; [lia|]. split; [exact He|].
      left. now rewrite Hep.
Qed.

Lemma early_stop_characterised :
  ls_prev_inertia st0 = infinity ->
  (forall e : nat,
      (exists st', fst (loop max_iter 0 st0 w0) = Ok (Broke e, st')) <->
      e < max_iter /\ (e + 1) mod 10 = 0 /\ 50 < e /\
      exists prev inertia delta,
        previous e = Some prev /\ checked e = Some inertia /\
        improvement_pct prev inertia = Ok delta /\ in_window delta) /\
  ((exists st', fst (loop max_iter 0 st0 w0) = Ok (Exhausted, st')) <->
   exists st w, entering max_iter = Some (st, w)) /\
  (forall x : exn,
      fst (loop max_iter 0 st0 w0) = Raise x <->
      exists e st w,
        e < max_iter /\ entering e = Some (st, w) /\
        (fst (epoch_of e st w) = Raise x \/
         (x = ZeroDivisionError /\ (e + 1) mod 10 = 0 /\
          exists prev inertia,
            previous e = Some prev /\ checked e = Some inertia /\
            PrimFloat.eqb prev 0 = true))).
Proof.
  intros Hinf.
  pose proof (epoch_loop_outcome max_iter 0 st0 w0 eq_refl) as Hout.
  assert (Hturn : forall e st w, e < max_iter -> entering e = Some (st, w) ->
            loop max_iter 0 st0 w0 = loop (S (max_iter - S e)) e st w).
  { intros e st w He Hen. rewrite <- (epoch_loop_shift e (S (max_iter - S e)) st w Hen).
    f_equal. lia. }
  split; [|split].
  - intros e. split.
    + intros [st' Hrun].
      destruct (loop max_iter 0 st0 w0) as [[[[e'|] st'']|x] w'];
        cbn [fst] in Hrun; try discriminate Hrun.
      injection Hrun as -> ->.
      destruct Hout as [Hr (st_e & w_e & w1 & Hen & Hep & Hc)].
      apply convergence_check_stop_iff in Hc as (Hm & H50 & delta & Hd & Hw).
      split; [lia|]. split; [exact Hm|]. split; [exact H50|].
      exists (ls_prev_inertia st'), (inertia_ (ls_kmeans st')), delta.
      split; [|split; [|split; assumption]].
      * rewrite (previous_check_entered e st_e w_e Hinf Hm Hen).
        now rewrite (run_epoch_keeps_prev e st_e st' w_e w1 Hep).
      * exact (inertia_after_entered e st_e st' w_e w1 Hen Hep).
    + intros (He & Hm & H50 & prev & inertia & delta & Hp & Hi & Hd & Hw).
      apply inertia_after_inv in Hi as (st & w & st1 & w1 & Hen & Hep & ->).
      rewrite (previous_check_entered e st w Hinf Hm Hen) in Hp. injection Hp as <-.
      rewrite <- (run_epoch_keeps_prev e st st1 w w1 Hep) in Hd.
      assert (Hc : convergence_check e (ls_prev_inertia st1) (inertia_ (ls_kmeans st1))
                   = Ok Stop).
      { apply convergence_check_stop_iff. repeat split; try assumption.
        exists delta. now split. }
      rewrite (Hturn e st w He Hen).
      rewrite (epoch_loop_step data batch_size max_iter t0 batches_per_epoch _ e st w).
      rewrite Hep, Hc. now exists st1.
  - split.
    + intros [st' Hrun].
      destruct (loop max_iter 0 st0 w0) as [[[[e'|] st'']|x] w'];
        cbn [fst] in Hrun; try discriminate Hrun.
      cbn [Nat.add] in Hout. now exists st'', w'.
    + intros (st & w & Hen).
      pose proof (epoch_loop_shift max_iter 0 st w Hen) as Hs.
      rewrite Nat.add_0_r in Hs. rewrite Hs. now exists st.
  - intros x. split.
    + intros Hrun.
      destruct (loop max_iter 0 st0 w0) as [[[[e'|] st'']|x'] w'];
        cbn [fst] in Hrun; try discriminate Hrun.
      injection Hrun as ->.
      destruct Hout as (e & st & w & Hr & Hen & Hcase).
      exists e, st, w. split; [lia|]. split; [exact Hen|].
      destruct Hcase as [Hraise | (st1 & w1 & Hep & Hc)]; [now left|]. right.
      apply convergence_check_raise_iff in Hc as (Hm & -> & Hz).
      split; [reflexivity|]. split; [exact Hm|].
      exists (ls_prev_inertia st1), (inertia_ (ls_kmeans st1)).
      split; [|split; [|assumption]].
      * rewrite (previous_check_entered e st w Hinf Hm Hen).
        now rewrite (run_epoch_keeps_prev e st st1 w w1 Hep).
      * exact (inertia_after_entered e st st1 w w1 Hen Hep).
    + intros (e & st & w & He & Hen & Hcase).
      rewrite (Hturn e st w He Hen).
      rewrite (epoch_loop_step data batch_size max_iter t0 batches_per_epoch _ e st w).
      destruct Hcase as [Hraise | (-> & Hm & prev & inertia & Hp & Hi & Hz)].
      * destruct (epoch_of e st w) as [[st1|x'] w1]; cbn [fst] in *; [discriminate|].
        now injection Hraise as ->.
      * apply inertia_after_inv in Hi as (st_ & w_ & st1 & w1 & Hen' & Hep & ->).
        rewrite Hen in Hen'. injection Hen' as <- <-.
        rewrite (previous_check_entered e st w Hinf Hm Hen) in Hp. injection Hp as <-.
        rewrite <- (run_epoch_keeps_prev e st st1 w w1 Hep) in Hz.
        assert (Hc : convergence_check e (ls_prev_inertia st1) (inertia_ (ls_kmeans st1))
                     = Raise ZeroDivisionError).
        { apply convergence_check_raise_iff. now repeat split. }
        now rewrite Hep, Hc.
Qed.

End EarlyStop.



(** C5. [kmeans_cluster] seeds its generator and the estimator with the
    constant 42 and reads nothing else from its surroundings but the clock,
    which only feeds the progress display: on the same data and the same
    [k], [batch_size] and [max_iter], two runs started in any two worlds
    return the same centroid matrix, or raise the same exception. *)
Theorem kmeans_cluster_deterministic `{RandomStateOps} `{MiniBatchKMeansOps}
        (data : ndarray) (k batch_size max_iter : nat) (w1 w2 : World) :
  fst (kmeans_cluster data k batch_size max_iter w1)
  = fst (kmeans_cluster data k batch_size max_iter w2).
Proof.
  unfold kmeans_cluster.
  apply (agree_bind (kmeans_run data k batch_size max_iter)
                    (kmeans_run data k batch_size max_iter)).
  - apply agree_kmeans_run.
  - intros out. apply agree_ret.
Qed.

(** *** The normalizer *)

Lemma sum_of_squares_stays_infinite (n : nat) :
  fold_left (SpecFloat.SFadd f32_prec f32_emax)
    (map (fun x => SpecFloat.SFmul f32_prec f32_emax (f32_value x) (f32_value x))
         (repeat 0%Z n))
    (SpecFloat.S754_infinity false)
  = SpecFloat.S754_infinity false.
Proof.
  induction n as [|n IH]; [reflexivity|].
  cbn [repeat map fold_left].
  replace (SpecFloat.SFadd f32_prec f32_emax (SpecFloat.S754_infinity false)
             (SpecFloat.SFmul f32_prec f32_emax (f32_value 0%Z) (f32_value 0%Z)))
    with (SpecFloat.S754_infinity false) by (vm_compute; reflexivity).
  exact IH.
Qed.

Lemma map_repeat {A B} (f : A -> B) (a : A) (n : nat) :
  map f (repeat a n) = repeat (f a) n.
Proof. induction n as [|n IH]; [reflexivity|]. cbn. now rewrite IH. Qed.

(** C6. A row that holds 2^64 followed by any number of zeros is finite and
    its norm is 2^64, far above 1e-10; [l2_normalize] returns the zero row
    for it, of norm 0 and not 1: the square of 2^64 is infinite in
    [float32], so the norm is, and every component divided by it is zero.  A
    row that holds +infinity and 1.0 comes back as NaN and 0. *)
Theorem l2_normalize_overflowing_row (n : nat) :
  f32_value two_to_the_64 = SpecFloat.S754_finite false 8388608 41 /\
  l2_normalize (mk_ndarray (S n) [two_to_the_64 :: repeat 0%Z n])
  = mk_ndarray (S n) [repeat 0%Z (S n)] /\
  map (map f32_value) (rows (l2_normalize (mk_ndarray 2 [[infinity32; one32]])))
  = [[SpecFloat.S754_nan; SpecFloat.S754_zero false]].
Proof.
  split; [vm_compute; reflexivity|]. split; [|vm_compute; reflexivity].
  unfold l2_normalize. cbn [dim rows map]. f_equal. f_equal.
  assert (Hnorm : linalg_norm (two_to_the_64 :: repeat 0%Z n)
                  = SpecFloat.S754_infinity false).
  { unfold linalg_norm. cbn [map fold_left].
    replace (SpecFloat.SFadd f32_prec f32_emax (SpecFloat.S754_zero false)
               (SpecFloat.SFmul f32_prec f32_emax (f32_value two_to_the_64)
                  (f32_value two_to_the_64)))
      with (SpecFloat.S754_infinity false) by (vm_compute; reflexivity).
    rewrite sum_of_squares_stays_infinite. vm_compute. reflexivity. }
  rewrite Hnorm.
  replace (np_maximum (SpecFloat.S754_infinity false) (f32_value epsilon32))
    with (SpecFloat.S754_infinity false) by (vm_compute; reflexivity).
  cbn [repeat map]. rewrite map_repeat.
  replace (f32_of_value
             (SpecFloat.SFdiv f32_prec f32_emax (f32_value two_to_the_64)
                (SpecFloat.S754_infinity false)))
    with 0%Z by (vm_compute; reflexivity).
  replace (f32_of_value
             (SpecFloat.SFdiv f32_prec f32_emax (f32_value 0%Z)
                (SpecFloat.S754_infinity false)))
    with 0%Z by (vm_compute; reflexivity).
  reflexivity.
Qed.


(** * Further properties *)

(** ** The codec: which files are accepted *)

Local Open Scope Z_scope.

Lemma bytes_eqb_eq (a b : bytes) : bytes_eqb a b = true <-> a = b.
Proof.
  split; [|intros ->; apply bytes_eqb_refl].
  revert b. induction a as [|x a IH]; intros [|y b]; simpl; try discriminate; [reflexivity|].
  intros H. apply andb_true_iff in H as [Hx Hab].
  apply Byte.byte_dec_bl in Hx. apply IH in Hab. now subst.
Qed.

Lemma load_codebook_read_image (path : string) (w : World) (content : bytes) :
  w_fs w path = Some content ->
  load_codebook path w = (read_image content, w).
Proof.
  intros Hfs. unfold load_codebook, with_open_rb. rewrite Hfs. f_equal.
  unfold read_image.
  unfold bind at 1, f_read at 1. cbv beta iota.
  destruct (negb (bytes_eqb (firstn 4 content) MAGIC)); [reflexivity|].
  unfold bind at 1, f_read at 1. cbv beta iota.
  unfold bind at 1, lift at 1.
  destruct (struct_unpack_I (firstn 4 (skipn 4 content))) as [version|e]; [|reflexivity].
  cbn [rbind].
  unfold bind at 1, f_read at 1. cbv beta iota.
  unfold bind at 1, lift at 1.
  rewrite !skipn_skipn. cbn [Nat.add].
  destruct (struct_unpack_I (firstn 4 (skipn 8 content))) as [entry_count|e]; [|reflexivity].
  cbn [rbind].
  unfold bind at 1, f_read at 1. cbv beta iota.
  unfold bind at 1, lift at 1.
  rewrite !skipn_skipn. cbn [Nat.add].
  destruct (struct_unpack_I (firstn 4 (skipn 12 content))) as [dim|e]; [|reflexivity].
  cbn [rbind].
  destruct (negb (dim =? SLOT_DIM)); [reflexivity|].
  unfold bind at 1, f_read at 1. cbv beta iota.
  unfold bind at 1, lift at 1.
  rewrite !skipn_skipn. cbn [Nat.add].
  destruct (frombuffer (firstn (Z.to_nat (entry_count * dim * 4)) (skipn 16 content)))
    as [data|e]; reflexivity.
Qed.

Lemma struct_unpack_I_ok (b : bytes) (v : Z) :
  struct_unpack_I b = Ok v <-> length b = 4%nat /\ v = le_int b.
Proof.
  unfold struct_unpack_I. destruct (Nat.eqb_spec (length b) 4) as [E|E].
  - split; [intros [= <-]; now split | intros [_ ->]; reflexivity].
  - split; [discriminate | intros [E' _]; contradiction].
Qed.

Lemma struct_unpack_I_short (b : bytes) :
  length b <> 4%nat -> struct_unpack_I b = Raise StructError.
Proof.
  intros E. unfold struct_unpack_I. now destruct (Nat.eqb_spec (length b) 4).
Qed.

Lemma le_int_bound (bs : bytes) : le_int bs < 256 ^ Z.of_nat (length bs).
Proof.
  induction bs as [|b bs IH]; [cbn; lia|].
  cbn [le_int length]. rewrite Nat2Z.inj_succ, Z.pow_succ_r by lia.
  pose proof (Z_of_byte_range b). lia.
Qed.

Lemma le_bytes_le_int (bs : bytes) : le_bytes (length bs) (le_int bs) = bs.
Proof.
  induction bs as [|b bs IH]; [reflexivity|].
  cbn [length le_bytes le_int].
  pose proof (Z_of_byte_range b) as Hb.
  assert (Hmod : (Z_of_byte b + 256 * le_int bs) mod 256 = Z_of_byte b).
  { symmetry. apply Z.mod_unique with (q := le_int bs); lia. }
  assert (Hdiv : (Z_of_byte b + 256 * le_int bs) / 256 = le_int bs).
  { symmetry. apply Z.div_unique with (r := Z_of_byte b); lia. }
  rewrite Hdiv, IH. f_equal.
  unfold byte_of_Z. rewrite Hmod.
  unfold Z_of_byte. now rewrite N2Z.id, Byte.of_to_N.
Qed.

(** The six parts of a file, as [load_codebook] reads them. *)
Lemma image_parts (n : nat) (f : bytes) :
  f = firstn 4 f ++ firstn 4 (skipn 4 f) ++ firstn 4 (skipn 8 f)
      ++ firstn 4 (skipn 12 f) ++ firstn n (skipn 16 f) ++ skipn n (skipn 16 f).
Proof.
  rewrite (firstn_skipn n (skipn 16 f)).
  change (skipn 16 f) with (skipn (4 + 12) f). rewrite <- skipn_skipn.
  rewrite (firstn_skipn 4 (skipn 12 f)).
  change (skipn 12 f) with (skipn (4 + 8) f). rewrite <- skipn_skipn.
  rewrite (firstn_skipn 4 (skipn 8 f)).
  change (skipn 8 f) with (skipn (4 + 4) f). rewrite <- skipn_skipn.
  rewrite (firstn_skipn 4 (skipn 4 f)).
  now rewrite (firstn_skipn 4 f).
Qed.

Lemma group4_length_div (buf : bytes) :
  (length buf mod 4 = 0)%nat -> length buf = (4 * length (group4 buf))%nat.
Proof.
  intros Hm.
  assert (Hlen : length buf = (4 * (length buf / 4))%nat).
  { pose proof (Nat.div_mod_eq (length buf) 4). lia. }
  rewrite (group4_length _ _ Hlen). exact Hlen.
Qed.

Lemma chunks_length (r c : nat) (flat : list f32) : length (chunks r c flat) = r.
Proof.
  revert flat. induction r as [|r IH]; intros flat; [reflexivity|].
  cbn [chunks length]. now rewrite IH.
Qed.

(** X1. [load_codebook] returns an array exactly for the files that consist
    of the magic "VXCB", four bytes of version, four bytes of entry count,
    four bytes that encode the dimension 256, a payload of entry_count * 256
    * 4 bytes, and anything after it; the array is then the one the count
    and the payload decode to.  In particular trailing bytes are ignored, and
    a file with fewer payload bytes than it declares is never accepted. *)
Theorem load_codebook_accepts_iff (path : string) (w : World) (a : ndarray) :
  fst (load_codebook path w) = Ok a <->
  exists ver ecb dimb payload extra,
    w_fs w path = Some (MAGIC ++ ver ++ ecb ++ dimb ++ payload ++ extra) /\
    length ver = 4%nat /\ length ecb = 4%nat /\ length dimb = 4%nat /\
    le_int dimb = SLOT_DIM /\
    length payload = Z.to_nat (le_int ecb * SLOT_DIM * 4) /\
    a = decoded ecb payload.
Proof.
  split.
  - unfold load_codebook at 1, with_open_rb.
    destruct (w_fs w path) as [content|] eqn:Hfs; [|discriminate].
    fold (load_codebook path w).
    intros Hload.
    assert (Himg : read_image content = Ok a).
    { rewrite <- Hload. cbn [fst].
      pose proof (load_codebook_read_image path w content Hfs) as E.
      unfold load_codebook, with_open_rb in E. rewrite Hfs in E.
      now injection E as ->. }
    clear Hload. revert Himg. unfold read_image.
    destruct (bytes_eqb (firstn 4 content) MAGIC) eqn:Hmagic; cbn [negb]; [|discriminate].
    apply bytes_eqb_eq in Hmagic.
    destruct (struct_unpack_I (firstn 4 (skipn 4 content))) as [version|e] eqn:Hv;
      cbn [rbind]; [|discriminate].
    destruct (struct_unpack_I (firstn 4 (skipn 8 content))) as [ec|e] eqn:Hec;
      cbn [rbind]; [|discriminate].
    destruct (struct_unpack_I (firstn 4 (skipn 12 content))) as [d|e] eqn:Hd;
      cbn [rbind]; [|discriminate].
    apply struct_unpack_I_ok in Hv as [Hvl _], Hec as [Hecl ->], Hd as [Hdl ->].
    destruct (Z.eqb_spec (le_int (firstn 4 (skipn 12 content))) SLOT_DIM) as [Hdim|_];
      cbn [negb]; [|discriminate].
    rewrite Hdim.
    set (n := Z.to_nat (le_int (firstn 4 (skipn 8 content)) * SLOT_DIM * 4)).
    unfold frombuffer.
    destruct (Nat.eqb_spec (length (firstn n (skipn 16 content)) mod 4) 0) as [Hmod|_];
      cbn [rbind]; [|discriminate].
    unfold reshape.
    destruct (Nat.eqb_spec (length (group4 (firstn n (skipn 16 content))))
                (Z.to_nat (le_int (firstn 4 (skipn 8 content))) * Z.to_nat SLOT_DIM))
      as [Hshape|_]; [|discriminate].
    intros [= <-].
    exists (firstn 4 (skipn 4 content)), (firstn 4 (skipn 8 content)),
      (firstn 4 (skipn 12 content)), (firstn n (skipn 16 content)),
      (skipn n (skipn 16 content)).
    split; [|repeat split; try assumption].
    + rewrite <- Hmagic, <- image_parts. reflexivity.
    + rewrite (group4_length_div _ Hmod), Hshape.
      pose proof (le_int_nonneg (firstn 4 (skipn 8 content))).
      subst n. unfold SLOT_DIM. lia.
  - intros (ver & ecb & dimb & payload & extra & Hfs & Hv & He & Hd & Hdim & Hpay & ->).
    now rewrite (load_codebook_image path w ver ecb dimb payload extra).
Qed.

(** X2. A file that starts with the magic but is shorter than the 16-byte
    header makes [load_codebook] fail with [struct.error], not with
    ValueError: one of the three [struct.unpack] calls gets fewer than four
    bytes. *)
Theorem load_codebook_short_header (path : string) (w : World) (content : bytes) :
  w_fs w path = Some content ->
  firstn 4 content = MAGIC ->
  (length content < 16)%nat ->
  load_codebook path w = (Raise StructError, w).
Proof.
  intros Hfs Hmagic Hlen.
  rewrite (load_codebook_read_image path w content Hfs). f_equal.
  unfold read_image. rewrite Hmagic, bytes_eqb_refl. cbn [negb].
  destruct (Nat.eq_dec (length (firstn 4 (skipn 4 content))) 4) as [E1|E1];
    [|now rewrite (struct_unpack_I_short _ E1)].
  rewrite (proj2 (struct_unpack_I_ok _ _) (conj E1 eq_refl)). cbn [rbind].
  destruct (Nat.eq_dec (length (firstn 4 (skipn 8 content))) 4) as [E2|E2];
    [|now rewrite (struct_unpack_I_short _ E2)].
  rewrite (proj2 (struct_unpack_I_ok _ _) (conj E2 eq_refl)). cbn [rbind].
  rewrite struct_unpack_I_short; [reflexivity|].
  rewrite length_firstn, length_skipn. lia.
Qed.

Lemma load_codebook_short_header_witness :
  load_codebook "codebook.bin" (world_with "codebook.bin" MAGIC)
  = (Raise StructError, world_with "codebook.bin" MAGIC).
Proof.
  apply (load_codebook_short_header "codebook.bin" (world_with "codebook.bin" MAGIC) MAGIC).
  - reflexivity.
  - reflexivity.
  - cbn. lia.
Defined.

(** X3. A file with a complete header for the expected dimension that
    declares at most 65536 entries (the capacity of a codebook) but holds
    fewer payload bytes than entry_count * 256 * 4 makes [load_codebook] fail
    with ValueError, whatever the number of bytes present: a length that is
    not a multiple of four stops [np.frombuffer], any other stops [reshape].
    No shorter array is ever returned.  (The bound keeps the size asked of
    [f.read] within 64 MiB; a header that declares millions of entries can
    make the read itself fail for lack of memory.) *)
Theorem load_codebook_truncated_payload (path : string) (w : World)
        (ver ecb dimb rest : bytes) :
  w_fs w path = Some (MAGIC ++ ver ++ ecb ++ dimb ++ rest) ->
  length ver = 4%nat -> length ecb = 4%nat -> length dimb = 4%nat ->
  le_int dimb = SLOT_DIM ->
  le_int ecb <= DEFAULT_K ->
  (length rest < Z.to_nat (le_int ecb * SLOT_DIM * 4))%nat ->
  load_codebook path w = (Raise ValueError, w).
Proof.
  intros Hfs Hv He Hd Hdim _ Hshort.
  rewrite (load_codebook_read_image path w _ Hfs). f_equal.
  unfold read_image.
  change (firstn 4 (MAGIC ++ ver ++ ecb ++ dimb ++ rest)) with MAGIC.
  rewrite bytes_eqb_refl. cbn [negb].
  change (skipn 4 (MAGIC ++ ver ++ ecb ++ dimb ++ rest)) with (ver ++ ecb ++ dimb ++ rest).
  assert (Hf : forall (a b : bytes), length a = 4%nat -> firstn 4 (a ++ b) = a).
  { intros a b Ha. rewrite firstn_app, Ha, Nat.sub_diag, firstn_all2 by lia.
    cbn [firstn]. apply app_nil_r. }
  assert (Hs : forall (n : nat) (a b : bytes), length a = n -> skipn n (a ++ b) = b).
  { intros n a b Ha. rewrite skipn_app, Ha, Nat.sub_diag, skipn_all2 by lia. reflexivity. }
  rewrite (Hf ver _ Hv).
  rewrite (proj2 (struct_unpack_I_ok _ _) (conj Hv eq_refl)). cbn [rbind].
  replace (skipn 8 (MAGIC ++ ver ++ ecb ++ dimb ++ rest)) with (ecb ++ dimb ++ rest).
  2:{ symmetry. rewrite app_assoc. apply Hs. rewrite length_app, Hv. reflexivity. }
  rewrite (Hf ecb _ He).
  rewrite (proj2 (struct_unpack_I_ok _ _) (conj He eq_refl)). cbn [rbind].
  replace (skipn 12 (MAGIC ++ ver ++ ecb ++ dimb ++ rest)) with (dimb ++ rest).
  2:{ symmetry. rewrite !app_assoc. rewrite <- (app_assoc _ dimb rest).
      apply Hs. rewrite !length_app, Hv, He. reflexivity. }
  rewrite (Hf dimb _ Hd).
  rewrite (proj2 (struct_unpack_I_ok _ _) (conj Hd eq_refl)). cbn [rbind].
  rewrite Hdim, Z.eqb_refl. cbn [negb].
  replace (skipn 16 (MAGIC ++ ver ++ ecb ++ dimb ++ rest)) with rest.
  2:{ symmetry. rewrite !app_assoc. apply Hs. rewrite !length_app, Hv, He, Hd. reflexivity. }
  rewrite firstn_all2 by lia.
  unfold frombuffer.
  destruct (Nat.eqb_spec (length rest mod 4) 0) as [Hmod|_]; [|reflexivity].
  cbn [rbind]. unfold reshape.
  destruct (Nat.eqb_spec (length (group4 rest))
              (Z.to_nat (le_int ecb) * Z.to_nat SLOT_DIM)) as [Hshape|_]; [|reflexivity].
  exfalso. pose proof (group4_length_div rest Hmod) as Hlen.
  pose proof (le_int_nonneg ecb). unfold SLOT_DIM in *. lia.
Qed.

Lemma load_codebook_truncated_payload_witness :
  load_codebook "codebook.bin" (world_with "codebook.bin" truncated_file)
  = (Raise ValueError, world_with "codebook.bin" truncated_file).
Proof.
  apply (load_codebook_truncated_payload "codebook.bin"
           (world_with "codebook.bin" truncated_file)
           [x01; x00; x00; x00] [x01; x00; x00; x00] [x00; x01; x00; x00] (repeat x00 8)).
  - reflexivity.
  - reflexivity.
  - reflexivity.
  - reflexivity.
  - reflexivity.
  - vm_compute. discriminate.
  - vm_compute. lia.
Defined.

(** X4. [load_codebook] fails with ValueError when the first four bytes are
    not "VXCB" (an empty or shorter file included), and when the header is
    complete but its dimension field is not 256, whatever follows. *)
Theorem load_codebook_bad_magic_or_dim (path : string) (w : World) (content : bytes) :
  w_fs w path = Some content ->
  firstn 4 content <> MAGIC \/
  ((16 <= length content)%nat /\ le_int (firstn 4 (skipn 12 content)) <> SLOT_DIM) ->
  load_codebook path w = (Raise ValueError, w).
Proof.
  intros Hfs Hbad.
  rewrite (load_codebook_read_image path w content Hfs). f_equal.
  unfold read_image.
  destruct (bytes_eqb (firstn 4 content) MAGIC) eqn:Hmagic; cbn [negb]; [|reflexivity].
  apply bytes_eqb_eq in Hmagic.
  destruct Hbad as [Hbad | [Hlen Hdim]]; [contradiction|].
  assert (Hl : forall k, (k + 4 <= 16)%nat -> length (firstn 4 (skipn k content)) = 4%nat).
  { intros k Hk. rewrite length_firstn, length_skipn. lia. }
  rewrite (proj2 (struct_unpack_I_ok _ _) (conj (Hl 4%nat ltac:(lia)) eq_refl)). cbn [rbind].
  rewrite (proj2 (struct_unpack_I_ok _ _) (conj (Hl 8%nat ltac:(lia)) eq_refl)). cbn [rbind].
  rewrite (proj2 (struct_unpack_I_ok _ _) (conj (Hl 12%nat ltac:(lia)) eq_refl)). cbn [rbind].
  apply Z.eqb_neq in Hdim. now rewrite Hdim.
Qed.

Lemma load_codebook_bad_magic_or_dim_witness :
  load_codebook "codebook.bin" (world_with "codebook.bin" [])
  = (Raise ValueError, world_with "codebook.bin" []).
Proof.
  apply (load_codebook_bad_magic_or_dim "codebook.bin" (world_with "codebook.bin" []) []).
  - reflexivity.
  - left. discriminate.
Defined.

Lemma concat_chunks (r c : nat) (flat : list f32) :
  length flat = (r * c)%nat -> concat (chunks r c flat) = flat.
Proof.
  revert flat. induction r as [|r IH]; intros flat Hlen.
  - destruct flat; [reflexivity | discriminate].
  - cbn [chunks concat]. rewrite IH; [apply firstn_skipn|].
    rewrite length_skipn. lia.
Qed.

Lemma tobytes_group4 (m : nat) (buf : bytes) :
  length buf = (4 * m)%nat -> flat_map f32_tobytes (group4 buf) = buf.
Proof.
  revert buf. induction m as [|m IH]; intros buf Hlen.
  - destruct buf; [reflexivity | discriminate].
  - destruct buf as [|b0 [|b1 [|b2 [|b3 rest]]]]; cbn [length] in Hlen; try lia.
    cbn [group4 flat_map]. rewrite IH by lia.
    unfold f32_tobytes.
    change 4%nat with (length [b0; b1; b2; b3]) at 1.
    now rewrite le_bytes_le_int.
Qed.

(** X5. Take a version-1 codebook file that has no bytes after its payload,
    and the shape and float32 values [load_codebook] decodes from it.
    [save_codebook], applied to the NumPy array of that shape and those
    values, to any path in any world, writes the bytes of the file: on such
    files decoding and encoding are inverse to each other.  (In the source
    [load_codebook] hands the values over as a torch tensor, which
    [save_codebook] does not take as it is; the array [a] below stands for
    the tensor's shape and values.) *)
Theorem saving_the_loaded_values_reproduces (path path2 : string) (w w2 : World)
        (ecb dimb payload : bytes) :
  w_fs w path = Some (MAGIC ++ [x01; x00; x00; x00] ++ ecb ++ dimb ++ payload) ->
  length ecb = 4%nat -> length dimb = 4%nat ->
  le_int dimb = SLOT_DIM ->
  length payload = Z.to_nat (le_int ecb * SLOT_DIM * 4) ->
  exists a,
    fst (load_codebook path w) = Ok a /\
    fst (save_codebook a path2 w2) = Ok tt /\
    w_fs (snd (save_codebook a path2 w2)) path2
    = Some (MAGIC ++ [x01; x00; x00; x00] ++ ecb ++ dimb ++ payload).
Proof.
  intros Hfs He Hd Hdim Hpay.
  exists (decoded ecb payload).
  pose proof (le_int_nonneg ecb) as Hnn.
  pose proof (le_int_bound ecb) as Hb. rewrite He in Hb.
  change (256 ^ Z.of_nat 4) with 4294967296 in Hb.
  assert (Hlen : length payload = (4 * (Z.to_nat (le_int ecb) * 256))%nat).
  { rewrite Hpay. unfold SLOT_DIM. lia. }
  assert (Hshape : shape0 (decoded ecb payload) = Z.to_nat (le_int ecb)).
  { unfold shape0, decoded. cbn [rows]. apply chunks_length. }
  split.
  - rewrite (load_codebook_image path w [x01; x00; x00; x00] ecb dimb payload []);
      try assumption; try reflexivity.
    now rewrite app_nil_r.
  - rewrite (save_codebook_run (decoded ecb payload) path2 w2 eq_refl)
      by (rewrite Hshape; unfold u32_max; lia).
    cbn [fst snd]. split; [reflexivity|].
    unfold saved_world. cbn [w_fs]. rewrite fs_set_same. f_equal.
    unfold codebook_file. rewrite Hshape.
    change (shape1 (decoded ecb payload)) with 256%nat.
    change (rows (decoded ecb payload))
      with (chunks (Z.to_nat (le_int ecb)) 256 (group4 payload)).
    rewrite concat_chunks by (apply group4_length; exact Hlen).
    change (flat_map (le_bytes 4) (group4 payload))
      with (flat_map f32_tobytes (group4 payload)).
    rewrite (tobytes_group4 _ _ Hlen).
    rewrite Z2Nat.id by lia.
    rewrite <- He at 1. rewrite le_bytes_le_int.
    replace (le_bytes 4 (Z.of_nat 256)) with dimb; [reflexivity|].
    rewrite <- (le_bytes_le_int dimb), Hd, Hdim. reflexivity.
Qed.

Lemma saving_the_loaded_values_reproduces_witness :
  exists a,
    fst (load_codebook "codebook.bin" (world_with "codebook.bin" one_entry_file)) = Ok a /\
    fst (save_codebook a "copy.bin" empty_world) = Ok tt /\
    w_fs (snd (save_codebook a "copy.bin" empty_world)) "copy.bin" = Some one_entry_file.
Proof.
  apply (saving_the_loaded_values_reproduces "codebook.bin" "copy.bin"
           (world_with "codebook.bin" one_entry_file) empty_world
           [x01; x00; x00; x00] [x00; x01; x00; x00] (repeat x00 1024));
    reflexivity.
Defined.

(** ** The reader: what it returns *)

Local Open Scope nat_scope.

Section ReaderMore.

Context `{Runtime}.

Lemma floats_length (xs : list string) (vs : list float) :
  floats xs = Ok vs -> length vs = length xs.
Proof.
  revert vs. induction xs as [|x xs IH]; intros vs; cbn [floats].
  - now intros [= <-].
  - destruct (py_float x); cbn [rbind]; [|discriminate].
    destruct (floats xs) as [ws|]; cbn [rbind]; [|discriminate].
    intros [= <-]. cbn [length]. now rewrite (IH ws).
Qed.

Lemma read_line_parse (line : string) (vectors : list (list f32)) :
  read_line line vectors
  = Ok (match parse_line line with
        | Some v => vectors ++ [v]
        | None => vectors
        end).
Proof.
  unfold read_line, parse_line.
  destruct (length (split_space (rstrip line)) <? 3); [reflexivity|].
  destruct (floats (tl (split_space (rstrip line)))) as [xs|e] eqn:E; [reflexivity|].
  now rewrite (floats_raises_ValueError _ _ E).
Qed.

Lemma read_lines_parsed (max_vocab : option nat) (lines : list string) (i : nat)
      (vectors : list (list f32)) :
  read_lines max_vocab i lines vectors
  = Ok (vectors ++ parsed (match max_vocab with
                           | Some m => firstn (m - i) lines
                           | None => lines
                           end)).
Proof.
  revert i vectors. induction lines as [|line rest IH]; intros i vectors.
  - cbn [read_lines]. destruct max_vocab; rewrite ?firstn_nil; cbn; now rewrite app_nil_r.
  - cbn [read_lines]. unfold cap_reached.
    destruct max_vocab as [m|].
    + destruct (Nat.leb_spec m i) as [Hcap|Hcap].
      * replace (m - i) with 0 by lia. cbn. now rewrite app_nil_r.
      * rewrite read_line_parse. cbn [rbind].
        rewrite (IH (S i)). replace (m - i) with (S (m - S i)) by lia.
        cbn [firstn]. unfold parsed at 2. cbn [flat_map].
        fold (parsed (firstn (m - S i) rest)).
        destruct (parse_line line); cbn [app]; now rewrite <- ?app_assoc.
    + rewrite read_line_parse. cbn [rbind]. rewrite (IH (S i)).
      unfold parsed at 2. cbn [flat_map]. fold (parsed rest).
      destruct (parse_line line); cbn [app]; now rewrite <- ?app_assoc.
Qed.

Lemma load_embeddings_stack (path : string) (max_vocab : option nat) (w : World)
      (content : bytes) :
  w_fs w path = Some content ->
  fst (load_embeddings path max_vocab w)
  = np_stack (parsed (consumed max_vocab (text_lines content))).
Proof.
  intros Hfs. unfold load_embeddings.
  unfold bind at 1, print at 1.
  unfold bind at 1, with_open_r. cbn [w_fs]. rewrite Hfs.
  rewrite read_lines_parsed. cbn [app].
  replace (match max_vocab with
           | Some m => firstn (m - 0) (text_lines content)
           | None => text_lines content
           end) with (consumed max_vocab (text_lines content))
    by (destruct max_vocab; cbn [consumed]; now rewrite ?Nat.sub_0_r).
  unfold bind at 1, lift at 1.
  destruct (np_stack (parsed (consumed max_vocab (text_lines content)))); reflexivity.
Qed.

Lemma parse_line_length (line : string) (v : list f32) :
  parse_line line = Some v -> 2 <= length v.
Proof.
  unfold parse_line.
  destruct (Nat.ltb_spec (length (split_space (rstrip line))) 3) as [|Hlen]; [discriminate|].
  destruct (floats (tl (split_space (rstrip line)))) as [xs|] eqn:E; [|discriminate].
  intros [= <-]. rewrite length_map, (floats_length _ _ E).
  destruct (split_space (rstrip line)); cbn [length tl] in *; lia.
Qed.

Lemma parsed_length (lines : list string) : length (parsed lines) <= length lines.
Proof.
  induction lines as [|l ls IH]; [reflexivity|].
  unfold parsed. cbn [flat_map]. fold (parsed ls). rewrite length_app.
  destruct (parse_line l); cbn [length]; lia.
Qed.

Lemma parsed_rows (lines : list string) :
  Forall (fun v => 2 <= length v) (parsed lines).
Proof.
  induction lines as [|l ls IH]; [constructor|].
  unfold parsed. cbn [flat_map]. fold (parsed ls). apply Forall_app. split; [|exact IH].
  destruct (parse_line l) as [v|] eqn:E; constructor; [|constructor].
  exact (parse_line_length l v E).
Qed.

End ReaderMore.

(** X6. [load_embeddings] on an existing file is [np.stack] applied to the
    vectors of the lines it reads, in the order of the file: a line
    contributes its vector when it has at least three space-separated fields
    and all fields after the first parse as floats, and nothing otherwise;
    with a cap, only the first [max_vocab] lines are read, skipped ones
    counted. *)
Theorem load_embeddings_is_stack_of_parsed `{Runtime} (path : string)
        (max_vocab : option nat) (w : World) (content : bytes) :
  w_fs w path = Some content ->
  fst (load_embeddings path max_vocab w)
  = np_stack (parsed (consumed max_vocab (text_lines content))).
Proof. apply load_embeddings_stack. Qed.

Lemma load_embeddings_is_stack_of_parsed_witness :
  fst (@load_embeddings sample_runtime "vectors.txt" (Some 2)
         (world_with "vectors.txt" small_corpus))
  = Ok (mk_ndarray 3 [[0%Z; 0%Z; 0%Z]]).
Proof.
  rewrite (@load_embeddings_is_stack_of_parsed sample_runtime "vectors.txt" (Some 2)
             (world_with "vectors.txt" small_corpus) small_corpus eq_refl).
  reflexivity.
Defined.

(** X7. With [max_vocab = m] the result depends on the first [m] lines of
    the file only, and has at most [m] rows: two files that agree on their
    first [m] lines give the same array or the same exception. *)
Theorem load_embeddings_cap `{Runtime} (path1 path2 : string) (m : nat)
        (w1 w2 : World) (content1 content2 : bytes) :
  w_fs w1 path1 = Some content1 ->
  w_fs w2 path2 = Some content2 ->
  firstn m (text_lines content1) = firstn m (text_lines content2) ->
  fst (load_embeddings path1 (Some m) w1) = fst (load_embeddings path2 (Some m) w2) /\
  forall data, fst (load_embeddings path1 (Some m) w1) = Ok data -> shape0 data <= m.
Proof.
  intros Hfs1 Hfs2 Hlines.
  rewrite (load_embeddings_stack path1 (Some m) w1 content1 Hfs1).
  rewrite (load_embeddings_stack path2 (Some m) w2 content2 Hfs2).
  cbn [consumed]. rewrite Hlines. split; [reflexivity|].
  intros data. unfold np_stack.
  destruct (parsed (firstn m (text_lines content2))) as [|v rest] eqn:E; [discriminate|].
  destruct (forallb _ rest); [|discriminate].
  intros [= <-]. unfold shape0. cbn [rows]. rewrite <- E.
  etransitivity; [apply parsed_length|]. apply firstn_le_length.
Qed.

Lemma load_embeddings_cap_witness :
  fst (@load_embeddings sample_runtime "vectors.txt" (Some 2)
         (world_with "vectors.txt" small_corpus))
  = fst (@load_embeddings sample_runtime "other.txt" (Some 2)
           (world_with "other.txt" other_corpus)).
Proof.
  refine (proj1 (@load_embeddings_cap sample_runtime "vectors.txt" "other.txt" 2
                   (world_with "vectors.txt" small_corpus)
                   (world_with "other.txt" other_corpus)
                   small_corpus other_corpus _ _ _)); reflexivity.
Defined.

(** X8. When [load_embeddings] returns, the array has at least one row, at
    least two columns, and every row has as many components as the first
    vector parsed; when the parsed vectors differ in length it raises
    ValueError instead. *)
Theorem load_embeddings_rectangular `{Runtime} (path : string)
        (max_vocab : option nat) (w : World) (content : bytes) :
  w_fs w path = Some content ->
  (forall data, fst (load_embeddings path max_vocab w) = Ok data ->
     1 <= shape0 data /\ 2 <= shape1 data /\
     Forall (fun r => length r = shape1 data) (rows data)) /\
  ((exists u v, In u (parsed (consumed max_vocab (text_lines content))) /\
                In v (parsed (consumed max_vocab (text_lines content))) /\
                length u <> length v) ->
   fst (load_embeddings path max_vocab w) = Raise ValueError).
Proof.
  intros Hfs. rewrite (load_embeddings_stack path max_vocab w content Hfs).
  pose proof (parsed_rows (consumed max_vocab (text_lines content))) as Hrows.
  unfold np_stack.
  destruct (parsed (consumed max_vocab (text_lines content))) as [|v0 rest]; split.
  - discriminate.
  - reflexivity.
  - intros data.
    destruct (forallb (fun u => length u =? length v0) rest) eqn:Hall; [|discriminate].
    intros [= <-]. unfold shape0, shape1. cbn [rows dim length].
    split; [lia|]. split; [now inversion Hrows|].
    constructor; [reflexivity|].
    rewrite forallb_forall in Hall. apply Forall_forall.
    intros u Hu. now apply Nat.eqb_eq, Hall.
  - intros (u & v & Hu & Hv & Hne).
    destruct (forallb (fun u => length u =? length v0) rest) eqn:Hall; [|reflexivity].
    exfalso. rewrite forallb_forall in Hall.
    assert (Hl : forall x, In x (v0 :: rest) -> length x = length v0).
    { intros x [<-|Hx]; [reflexivity | now apply Nat.eqb_eq, Hall]. }
    rewrite (Hl u Hu), (Hl v Hv) in Hne. now apply Hne.
Qed.

Lemma load_embeddings_rectangular_witness :
  w_fs (world_with "vectors.txt" small_corpus) "vectors.txt" = Some small_corpus /\
  fst (@load_embeddings sample_runtime "vectors.txt" None
         (world_with "vectors.txt" small_corpus))
  = Ok (mk_ndarray 3 [[0%Z; 0%Z; 0%Z]; [0%Z; 0%Z; 0%Z]]) /\
  1 <= 2 /\ 2 <= 3.
Proof.
  split; [reflexivity|]. split; [reflexivity|].
  destruct (proj1 (@load_embeddings_rectangular sample_runtime "vectors.txt" None
                     (world_with "vectors.txt" small_corpus) small_corpus eq_refl)
                  (mk_ndarray 3 [[0%Z; 0%Z; 0%Z]; [0%Z; 0%Z; 0%Z]]) eq_refl)
    as (H1 & H2 & _).
  split; assumption.
Defined.

(** *** Lines that are read *)

Lemma plain_number_chars (s : string) :
  all_chars (fun c => match classify c with Other => false | _ => true end) s = true ->
  all_chars numeric_char s = true.
Proof.
  induction s as [|c s IH]; [reflexivity|]. cbn [all_chars].
  intros Hs. apply andb_true_iff in Hs as [Hc Hs]. rewrite (IH Hs), andb_true_r.
  unfold numeric_char. now destruct (classify c).
Qed.

Lemma to_ascii_decimal_id (s : string) :
  all_chars numeric_char s = true -> to_ascii_decimal s = s.
Proof.
  induction s as [|c s IH]; [reflexivity|]. cbn [all_chars].
  intros Hs. apply andb_true_iff in Hs as [Hc Hs].
  destruct (numeric_char_facts c Hc) as (Hp & _).
  cbn [to_ascii_decimal]. now rewrite Hp, IH.
Qed.

Lemma drop_underscores_id (s : string) (p : ascii) :
  Ascii.eqb p "_" = false ->
  all_chars numeric_char s = true -> drop_underscores p s = Some s.
Proof.
  revert p. induction s as [|c s IH]; intros p Hp Hs.
  - cbn [drop_underscores]. now rewrite Hp.
  - cbn [all_chars] in Hs. apply andb_true_iff in Hs as [Hc Hs].
    destruct (numeric_char_facts c Hc) as (_ & _ & _ & _ & Hu & Hz & _).
    cbn [drop_underscores]. rewrite Hz, Hu, Hp. cbn [andb].
    now rewrite (IH c Hu Hs).
Qed.

Lemma rstrip_c_id (s : string) :
  all_chars numeric_char s = true -> rstrip_c s = s.
Proof.
  induction s as [|c s IH]; [reflexivity|]. cbn [all_chars].
  intros Hs. apply andb_true_iff in Hs as [Hc Hs].
  destruct (numeric_char_facts c Hc) as (_ & _ & Hcs & _).
  now rewrite (rstrip_c_cons _ _ Hcs), IH.
Qed.

Lemma lstrip_c_id (s : string) :
  all_chars numeric_char s = true -> lstrip_c s = s.
Proof.
  destruct s as [|c s]; [reflexivity|]. cbn [all_chars].
  intros Hs. apply andb_true_iff in Hs as [Hc _].
  destruct (numeric_char_facts c Hc) as (_ & _ & Hcs & _).
  cbn [lstrip_c]. now rewrite Hcs.
Qed.

(** [float] accepts a plain number as it stands. *)
Lemma float_literal_plain (s : string) :
  plain_number s = true -> float_literal s = Some s.
Proof.
  unfold plain_number. intros Hs. apply andb_true_iff in Hs as [Hrun Hchars].
  apply plain_number_chars in Hchars.
  unfold float_literal.
  rewrite (to_ascii_decimal_id s Hchars), (drop_underscores_id s "000" eq_refl Hchars).
  rewrite (lstrip_c_id s Hchars), (rstrip_c_id s Hchars), Hrun. reflexivity.
Qed.

Lemma plain_number_nonempty (s : string) : plain_number s = true -> s <> EmptyString.
Proof. intros Hs ->. discriminate Hs. Qed.

Lemma plain_number_spaceless (s : string) :
  plain_number s = true -> all_chars (fun c => negb (Ascii.eqb c " ")) s = true.
Proof.
  unfold plain_number. intros Hs. apply andb_true_iff in Hs as [_ Hs].
  now apply numeric_spaceless, plain_number_chars.
Qed.

Lemma split_space_spaceless (s : string) :
  all_chars (fun c => negb (Ascii.eqb c " ")) s = true -> split_space s = [s].
Proof.
  induction s as [|c s IH]; [reflexivity|]. cbn [all_chars].
  intros Hs. apply andb_true_iff in Hs as [Hc Hs]. apply negb_true_iff in Hc.
  cbn [split_space]. now rewrite Hc, (IH Hs).
Qed.

Lemma split_join_space (fields : list string) :
  fields <> [] ->
  Forall (fun f => all_chars (fun c => negb (Ascii.eqb c " ")) f = true) fields ->
  split_space (join_space fields) = fields.
Proof.
  induction fields as [|f rest IH]; [contradiction|]. intros _ Hall.
  inversion Hall as [|? ? Hf Hrest]; subst.
  destruct rest as [|g rest].
  - cbn [join_space]. now apply split_space_spaceless.
  - change (join_space (f :: g :: rest))
      with (f ++ String " " (join_space (g :: rest)))%string.
    rewrite split_space_app, (split_space_spaceless f Hf), IH by (discriminate || assumption).
    reflexivity.
Qed.

(** A joined list of plain numbers ends with a character that is not white
    space. *)
Lemma join_space_last (fields : list string) :
  fields <> [] ->
  Forall (fun f => plain_number f = true) fields ->
  exists y c, join_space fields = (y ++ String c "")%string /\ str_isspace c = false.
Proof.
  induction fields as [|f rest IH]; [contradiction|]. intros _ Hall.
  inversion Hall as [|? ? Hf Hrest]; subst.
  destruct rest as [|g rest].
  - cbn [join_space]. pose proof (plain_number_nonempty f Hf) as Hne.
    unfold plain_number in Hf. apply andb_true_iff in Hf as [_ Hf].
    apply plain_number_chars in Hf. clear Hall Hrest IH.
    induction f as [|c f IHf]; [contradiction|].
    cbn [all_chars] in Hf. apply andb_true_iff in Hf as [Hc Hf].
    destruct f as [|d f].
    + exists EmptyString, c. split; [reflexivity|].
      now destruct (numeric_char_facts c Hc) as (_ & Hs & _).
    + assert (Hd : String d f <> EmptyString) by discriminate.
      destruct (IHf Hf Hd) as (y & e & Hy & He).
      exists (String c y), e. split; [|exact He]. cbn [append]. now rewrite Hy.
  - assert (Hg : g :: rest <> []) by discriminate.
    destruct (IH Hg Hrest) as (y & c & Hy & Hc).
    exists (f ++ String " " y)%string, c. split; [|exact Hc].
    change (join_space (f :: g :: rest))
      with (f ++ String " " (join_space (g :: rest)))%string.
    rewrite Hy, append_assoc. reflexivity.
Qed.

Lemma rstrip_spaces (ws : string) :
  all_chars str_isspace ws = true -> rstrip ws = EmptyString.
Proof.
  induction ws as [|c ws IH]; [reflexivity|]. cbn [all_chars].
  intros Hs. apply andb_true_iff in Hs as [Hc Hs].
  cbn [rstrip]. now rewrite (IH Hs), Hc.
Qed.

Section ReaderAccepts.

Context `{Runtime}.

Lemma floats_plain (fields : list string) :
  Forall (fun f => plain_number f = true) fields ->
  floats fields = Ok (map strtod fields).
Proof.
  induction 1 as [|f rest Hf _ IH]; [reflexivity|].
  cbn [floats map]. unfold py_float. rewrite (float_literal_plain f Hf).
  cbn [rbind]. now rewrite IH.
Qed.

Lemma read_line_well_formed (tok ws : string) (fields : list string)
      (vectors : list (list f32)) :
  all_chars (fun c => negb (Ascii.eqb c " ")) tok = true ->
  Forall (fun f => plain_number f = true) fields ->
  2 <= length fields ->
  all_chars str_isspace ws = true ->
  read_line (tok ++ String " " (join_space fields ++ ws)) vectors
  = Ok (vectors ++ [map (fun f => float32 (strtod f)) fields]).
Proof.
  intros Htok Hfields Hlen Hws.
  assert (Hne : fields <> []) by (destruct fields; [cbn in Hlen; lia | discriminate]).
  destruct (join_space_last fields Hne Hfields) as (y & c & Hy & Hc).
  assert (Hr : rstrip (tok ++ String " " (join_space fields ++ ws))
               = (tok ++ String " " (join_space fields))%string).
  { rewrite Hy.
    replace (tok ++ String " " ((y ++ String c "") ++ ws))%string
      with ((tok ++ String " " y) ++ String c ws)%string
      by (repeat first [rewrite append_assoc | progress cbn [append]]; reflexivity).
    rewrite rstrip_app by (rewrite (rstrip_cons _ _ Hc); discriminate).
    rewrite (rstrip_cons _ _ Hc), (rstrip_spaces ws Hws).
    repeat first [rewrite append_assoc | progress cbn [append]]. reflexivity. }
  unfold read_line. rewrite Hr, split_space_app, (split_space_spaceless tok Htok).
  rewrite split_join_space; [|exact Hne|].
  2:{ eapply Forall_impl; [|exact Hfields]. intros f. apply plain_number_spaceless. }
  cbn [app length tl].
  destruct (Nat.ltb_spec (S (length fields)) 3) as [Hlt|_]; [lia|].
  rewrite (floats_plain fields Hfields), map_map. reflexivity.
Qed.

End ReaderAccepts.

(** X9. A line made of a token without spaces, a space, two or more plain
    decimal numbers separated by single spaces, and trailing white space
    (the line end) adds exactly one vector to the list, with one component
    per number, in order. *)
Theorem read_line_reads_well_formed `{Runtime} (tok ws : string)
        (fields : list string) (vectors : list (list f32)) :
  all_chars (fun c => negb (Ascii.eqb c " ")) tok = true ->
  Forall (fun f => plain_number f = true) fields ->
  2 <= length fields ->
  all_chars str_isspace ws = true ->
  read_line (tok ++ String " " (join_space fields ++ ws)) vectors
  = Ok (vectors ++ [map (fun f => float32 (strtod f)) fields]).
Proof. apply read_line_well_formed. Qed.

Lemma read_line_reads_well_formed_witness :
  @read_line sample_runtime
    ("cat" ++ String " " (join_space ["1.0"; "-2.5"; "3e2"] ++ String newline ""))%string []
  = Ok [[0%Z; 0%Z; 0%Z]].
Proof.
  apply (@read_line_reads_well_formed sample_runtime "cat" (String newline "")
           ["1.0"; "-2.5"; "3e2"]%string []).
  - reflexivity.
  - repeat constructor.
  - cbn. lia.
  - reflexivity.
Defined.

(** ** The batches of an epoch *)

Lemma firstn_plus {A} (a b : nat) (l : list A) :
  firstn (a + b) l = firstn a l ++ firstn b (skipn a l).
Proof.
  revert l. induction a as [|a IH]; intros l; [reflexivity|].
  destruct l as [|x l]; [cbn; now destruct b|].
  cbn [Nat.add firstn skipn app]. now rewrite IH.
Qed.

(** The slices of the batches [0 .. q-1] tile the first [q * batch_size]
    positions of the permutation when that many exist. *)
Lemma slices_tile (n batch_size : nat) (perm : list nat) (q : nat) :
  q * batch_size <= n -> length perm = n ->
  let slices := map (fun b => slice perm (b * batch_size)
                                (Nat.min (b * batch_size + batch_size) n)) (seq 0 q) in
  concat slices = firstn (q * batch_size) perm /\
  Forall (fun s => length s = batch_size) slices.
Proof.
  intros Hq Hlen. cbn zeta. induction q as [|q IH]; [split; [reflexivity | constructor]|].
  destruct IH as [IHc IHl]; [lia|].
  rewrite seq_S, map_app, concat_app, IHc. cbn [Nat.add map concat].
  assert (Hmin : Nat.min (q * batch_size + batch_size) n = q * batch_size + batch_size) by lia.
  unfold slice. rewrite Hmin, app_nil_r.
  replace (q * batch_size + batch_size - q * batch_size) with batch_size by lia.
  split.
  - replace (S q * batch_size) with (q * batch_size + batch_size) by lia.
    now rewrite firstn_plus.
  - apply Forall_app. split; [exact IHl|]. constructor; [|constructor].
    rewrite length_firstn, length_skipn. lia.
Qed.

Section ClustererMore.

Context `{RandomStateOps} `{MiniBatchKMeansOps}.

(** The progress display returns normally as long as [max_iter] is not
    zero. *)
Lemma show_progress_returns (max_iter : nat) (t0 : float) (bpe epoch b : nat) (w : World) :
  0 < max_iter -> fst (show_progress max_iter t0 bpe epoch b w) = Ok tt.
Proof.
  intros Hm. unfold show_progress.
  destruct (b mod 10 =? 0); [|reflexivity].
  unfold bind, time_time, _progress_bar.
  destruct (Nat.eqb_spec max_iter 0) as [E|_]; [lia|]. reflexivity.
Qed.

Lemma batch_loop_fit_all (data : ndarray) (batch_size max_iter : nat) (t0 : float)
      (bpe epoch : nat) (perm : list nat) :
  0 < max_iter ->
  forall (remaining b : nat) (kmeans : MiniBatchKMeans) (w : World),
    fst (batch_loop data batch_size max_iter t0 bpe remaining b epoch perm kmeans w)
    = fit_all data kmeans
        (map (fun b => slice perm (b * batch_size)
                         (Nat.min (b * batch_size + batch_size) (shape0 data)))
             (seq b remaining)).
Proof.
  intros Hm. induction remaining as [|remaining IH]; intros b kmeans w; [reflexivity|].
  cbn [batch_loop seq map fit_all]. unfold bind at 1, lift at 1.
  destruct (getitem data _) as [batch|e]; [|reflexivity]. cbn [rbind].
  unfold bind at 1, lift at 1.
  destruct (partial_fit kmeans batch) as [kmeans'|e]; [|reflexivity]. cbn [rbind].
  unfold bind at 1.
  pose proof (show_progress_returns max_iter t0 bpe epoch b w Hm) as Hp.
  destruct (show_progress max_iter t0 bpe epoch b w) as [[[]|e] w']; cbn [fst] in Hp;
    [|discriminate Hp].
  apply IH.
Qed.

Lemma run_epoch_batches (data : ndarray) (batch_size max_iter : nat) (t0 : float)
      (epoch : nat) (st : loop_state) (w : World) :
  0 < max_iter ->
  1 <= batch_size <= shape0 data ->
  length (fst (draw_permutation (ls_rng st) (shape0 data))) = shape0 data ->
  exists batches : list (list nat),
    length batches = shape0 data / batch_size /\
    Forall (fun s => length s = batch_size) batches /\
    concat batches
    = firstn (shape0 data / batch_size * batch_size)
        (fst (draw_permutation (ls_rng st) (shape0 data))) /\
    fst (run_epoch data batch_size max_iter t0
           (Nat.max 1 (shape0 data / batch_size)) epoch st w)
    = rbind (fit_all data (ls_kmeans st) batches) (fun kmeans =>
      Ok (mk_loop_state (snd (draw_permutation (ls_rng st) (shape0 data)))
            kmeans (ls_prev_inertia st))).
Proof.
  intros Hm [Hb1 Hb2] Hperm.
  set (n := shape0 data) in *.
  assert (Hq : 1 <= n / batch_size) by (apply Nat.div_le_lower_bound; lia).
  assert (Hmax : Nat.max 1 (n / batch_size) = n / batch_size) by lia.
  assert (Hle : n / batch_size * batch_size <= n).
  { rewrite Nat.mul_comm. apply Nat.Div0.mul_div_le. }
  unfold run_epoch. fold n. rewrite Hmax.
  destruct (draw_permutation (ls_rng st) n) as [perm rng] eqn:Hdraw.
  cbn [fst snd] in *.
  destruct (slices_tile n batch_size perm (n / batch_size) Hle Hperm) as [Hc Hl].
  eexists. split; [|split; [exact Hl | split; [exact Hc|]]].
  - now rewrite length_map, length_seq.
  - unfold bind.
    pose proof (batch_loop_fit_all data batch_size max_iter t0 (n / batch_size) epoch perm
                  Hm (n / batch_size) 0 (ls_kmeans st) w) as Hfit.
    fold n in Hfit. rewrite <- Hfit.
    destruct (batch_loop _ _ _ _ _ _ _ _ _ _ w) as [[kmeans|e] w']; reflexivity.
Qed.

End ClustererMore.

(** X10. In an epoch of [kmeans_cluster] with 1 <= batch_size <= n, the
    estimator is fitted on n // batch_size batches of exactly batch_size rows
    each, which are the consecutive slices of the epoch's permutation: the
    rows at its last n mod batch_size positions are not used in that epoch.
    The progress display does not alter or interrupt this. *)
Theorem epoch_batches_tile_permutation `{RandomStateOps} `{MiniBatchKMeansOps}
        (data : ndarray) (batch_size max_iter : nat) (t0 : float)
        (epoch : nat) (st : loop_state) (w : World) :
  0 < max_iter ->
  1 <= batch_size <= shape0 data ->
  length (fst (draw_permutation (ls_rng st) (shape0 data))) = shape0 data ->
  exists batches : list (list nat),
    length batches = shape0 data / batch_size /\
    Forall (fun s => length s = batch_size) batches /\
    concat batches
    = firstn (shape0 data / batch_size * batch_size)
        (fst (draw_permutation (ls_rng st) (shape0 data))) /\
    fst (run_epoch data batch_size max_iter t0
           (Nat.max 1 (shape0 data / batch_size)) epoch st w)
    = rbind (fit_all data (ls_kmeans st) batches) (fun kmeans =>
      Ok (mk_loop_state (snd (draw_permutation (ls_rng st) (shape0 data)))
            kmeans (ls_prev_inertia st))).
Proof. apply run_epoch_batches. Qed.

Lemma epoch_batches_tile_permutation_witness :
  exists batches : list (list nat),
    length batches = 5 / 2 /\
    Forall (fun s => length s = 2) batches /\
    concat batches = firstn (5 / 2 * 2) [0; 1; 2; 3; 4] /\
    fst (@run_epoch stub_random stub_kmeans five_vectors 2 300 0%float
           (Nat.max 1 (5 / 2)) 0
           (@mk_loop_state stub_random stub_kmeans tt 1 infinity) empty_world)
    = rbind (@fit_all stub_kmeans five_vectors 1 batches) (fun kmeans =>
      Ok (@mk_loop_state stub_random stub_kmeans tt kmeans infinity)).
Proof.
  apply (@epoch_batches_tile_permutation stub_random stub_kmeans five_vectors 2 300
           0%float 0 (@mk_loop_state stub_random stub_kmeans tt 1 infinity) empty_world).
  - lia.
  - cbn. lia.
  - reflexivity.
Defined.

(** ** When the clusterer returns *)

Lemma returns_ret {A} (a : A) (Q : A -> Prop) : Q a -> returns (ret a) Q.
Proof. intros Ha w. now exists a, w. Qed.

Lemma returns_bind {A B} (m : M A) (k : A -> M B) (Q1 : A -> Prop) (Q2 : B -> Prop) :
  returns m Q1 -> (forall a, Q1 a -> returns (k a) Q2) -> returns (bind m k) Q2.
Proof.
  intros Hm Hk w. destruct (Hm w) as (a & w1 & E & Ha). unfold bind. rewrite E.
  now apply Hk.
Qed.

Lemma returns_print (e : event) : returns (print e) (fun _ => True).
Proof. intros w. unfold print. eauto. Qed.

Lemma returns_time : returns time_time (fun _ => True).
Proof. intros w. unfold time_time. eauto. Qed.

Lemma returns_lift {A} (r : result A) (a : A) (Q : A -> Prop) :
  r = Ok a -> Q a -> returns (lift r) Q.
Proof. intros -> Ha w. now exists a, w. Qed.

Lemma take_rows_in_range (rs : list (list f32)) (indices : list nat) :
  Forall (fun i => i < length rs) indices -> exists t, take_rows rs indices = Ok t.
Proof.
  induction 1 as [|i rest Hi _ [t IH]]; [now exists []|].
  cbn [take_rows]. destruct (nth_error rs i) as [r|] eqn:E.
  - rewrite IH. cbn [rbind]. eauto.
  - apply nth_error_None in E. lia.
Qed.

Lemma getitem_in_range (data : ndarray) (indices : list nat) :
  Forall (fun i => i < shape0 data) indices -> exists batch, getitem data indices = Ok batch.
Proof.
  intros Hi. unfold getitem. destruct (take_rows_in_range (rows data) indices Hi) as [t ->].
  cbn [rbind]. eauto.
Qed.

Lemma slice_Forall (P : nat -> Prop) (perm : list nat) (start stop : nat) :
  Forall P perm -> Forall P (slice perm start stop).
Proof.
  intros Hp. unfold slice.
  rewrite <- (firstn_skipn start perm) in Hp. apply Forall_app in Hp as [_ Hp].
  rewrite <- (firstn_skipn (stop - start) (skipn start perm)) in Hp.
  now apply Forall_app in Hp as [Hp _].
Qed.

Lemma slice_length (perm : list nat) (start stop : nat) :
  start <= stop <= length perm -> length (slice perm start stop) = stop - start.
Proof.
  intros Hs. unfold slice. rewrite length_firstn, length_skipn. lia.
Qed.

Lemma convergence_check_returns (epoch : nat) (prev_inertia inertia : float) :
  PrimFloat.eqb prev_inertia 0 = false ->
  exists v, convergence_check epoch prev_inertia inertia = Ok v /\
            (v = Stop \/ v = Proceed prev_inertia \/ v = Proceed inertia).
Proof.
  intros Hp. unfold convergence_check.
  destruct ((epoch + 1) mod 10 =? 0); [|eauto].
  unfold improvement_pct, py_div. rewrite Hp.
  destruct (negb (PrimFloat.eqb prev_inertia infinity)); cbn [rbind];
    match goal with |- context [if ?c then _ else _] => destruct c end; eauto.
Qed.

Section ClustererReturns.

Context `{RandomStateOps} `{MiniBatchKMeansOps}.

Variable data : ndarray.
Variables k batch_size max_iter : nat.
Variable t0 : float.
Variable bpe : nat.

Local Abbreviation is_fitted := (fitted data k batch_size max_iter).

Hypothesis batch_size_fits : 1 <= batch_size <= shape0 data.
Hypothesis fit_returns :
  forall (kmeans : MiniBatchKMeans) (batch : ndarray),
    is_fitted kmeans -> batch_of data batch_size batch ->
    exists kmeans', partial_fit kmeans batch = Ok kmeans'.
Hypothesis inertia_nonzero :
  forall kmeans : MiniBatchKMeans,
    is_fitted kmeans -> PrimFloat.eqb (inertia_ kmeans) 0 = false.
Hypothesis permutation_drawn :
  forall rng : RandomState,
    length (fst (draw_permutation rng (shape0 data))) = shape0 data /\
    Forall (fun i => i < shape0 data) (fst (draw_permutation rng (shape0 data))).

Lemma show_progress_total (epoch b : nat) :
  0 < max_iter -> returns (show_progress max_iter t0 bpe epoch b) (fun _ => True).
Proof.
  intros Hm. unfold show_progress.
  destruct (b mod 10 =? 0); [|now apply returns_ret].
  eapply returns_bind; [apply returns_time|]. intros now _.
  unfold _progress_bar. destruct (Nat.eqb_spec max_iter 0) as [E|_]; [lia|].
  apply returns_print.
Qed.

Lemma batch_loop_returns (epoch : nat) (perm : list nat) :
  0 < max_iter ->
  length perm = shape0 data ->
  Forall (fun i => i < shape0 data) perm ->
  forall (remaining b : nat) (kmeans : MiniBatchKMeans),
    (b + remaining) * batch_size <= shape0 data ->
    is_fitted kmeans ->
    returns (batch_loop data batch_size max_iter t0 bpe remaining b epoch perm kmeans)
            is_fitted.
Proof.
  intros Hm Hlen Hperm. induction remaining as [|remaining IH]; intros b kmeans Hb Hfit.
  - now apply returns_ret.
  - cbn [batch_loop].
    assert (Hstop : Nat.min (b * batch_size + batch_size) (shape0 data)
                    = b * batch_size + batch_size) by nia.
    rewrite Hstop.
    destruct (getitem_in_range data
                (slice perm (b * batch_size) (b * batch_size + batch_size))
                (slice_Forall _ perm _ _ Hperm)) as [batch Hbatch].
    assert (Hof : batch_of data batch_size batch).
    { exists (slice perm (b * batch_size) (b * batch_size + batch_size)).
      split; [|exact Hbatch]. rewrite slice_length by nia. lia. }
    eapply returns_bind; [exact (returns_lift _ batch (fun x => x = batch) Hbatch eq_refl)|].
    intros batch' ->.
    destruct (fit_returns kmeans batch Hfit Hof) as [kmeans' Hk].
    eapply returns_bind;
      [exact (returns_lift _ kmeans' (fun x => x = kmeans') Hk eq_refl)|].
    intros kmeans'' ->.
    eapply returns_bind; [now apply show_progress_total|]. intros _ _.
    apply IH; [nia|]. exact (fitted_batch data k batch_size max_iter _ _ _ Hfit Hof Hk).
Qed.

Lemma run_epoch_returns (epoch : nat) (st : loop_state) :
  0 < max_iter ->
  bpe * batch_size <= shape0 data ->
  is_fitted (ls_kmeans st) ->
  returns (run_epoch data batch_size max_iter t0 bpe epoch st)
          (fun st1 => is_fitted (ls_kmeans st1) /\
                      ls_prev_inertia st1 = ls_prev_inertia st).
Proof.
  intros Hm Hb Hfit w. unfold run_epoch.
  destruct (permutation_drawn (ls_rng st)) as [Hlen Hperm].
  destruct (draw_permutation (ls_rng st) (shape0 data)) as [perm rng]. cbn [fst] in *.
  destruct (batch_loop_returns epoch perm Hm Hlen Hperm bpe 0 (ls_kmeans st) Hb Hfit w)
    as (km & w' & E & Hkm).
  unfold bind. rewrite E. unfold ret. eexists _, w'. split; [reflexivity|].
  now split.
Qed.

Lemma epoch_loop_returns (remaining : nat) :
  (0 < remaining -> 0 < max_iter) ->
  bpe * batch_size <= shape0 data ->
  forall (epoch : nat) (st : loop_state),
    is_fitted (ls_kmeans st) ->
    PrimFloat.eqb (ls_prev_inertia st) 0 = false ->
    returns (epoch_loop data batch_size max_iter t0 bpe remaining epoch st)
            (fun out => is_fitted (ls_kmeans (snd out))).
Proof.
  intros Hm Hb. induction remaining as [|remaining IH]; intros epoch st Hfit Hprev.
  - now apply returns_ret.
  - assert (Hmax : 0 < max_iter) by (apply Hm; lia).
    intros w. cbn [epoch_loop]. unfold bind at 1.
    destruct (run_epoch_returns epoch st Hmax Hb Hfit w) as (st1 & w1 & -> & Hfit1 & Hp1).
    unfold bind at 1, lift at 1.
    rewrite <- Hp1 in Hprev.
    destruct (convergence_check_returns epoch (ls_prev_inertia st1)
                (inertia_ (ls_kmeans st1)) Hprev) as (v & -> & Hv).
    destruct Hv as [-> | [-> | ->]].
    + unfold bind, print, ret. eexists _, _. split; [reflexivity | exact Hfit1].
    + apply IH; [intros _; exact Hmax | exact Hfit1 | exact Hprev].
    + apply IH; [intros _; exact Hmax | exact Hfit1 | now apply inertia_nonzero].
Qed.

End ClustererReturns.

Lemma kmeans_run_returns `{RandomStateOps} `{MiniBatchKMeansOps}
      (data : ndarray) (k batch_size max_iter : nat) :
  1 <= batch_size ->
  Nat.max k batch_size <= shape0 data ->
  (forall sample, batch_of data (Nat.max k batch_size) sample ->
     exists kmeans,
       partial_fit (MiniBatchKMeans_new k batch_size 42 max_iter) sample = Ok kmeans) ->
  (forall kmeans batch,
     fitted data k batch_size max_iter kmeans -> batch_of data batch_size batch ->
     exists kmeans', partial_fit kmeans batch = Ok kmeans') ->
  (forall kmeans,
     fitted data k batch_size max_iter kmeans ->
     PrimFloat.eqb (inertia_ kmeans) 0 = false) ->
  (forall rng size, size <= shape0 data ->
     length (fst (draw_choice rng (shape0 data) size)) = size /\
     Forall (fun i => i < shape0 data) (fst (draw_choice rng (shape0 data) size))) ->
  (forall rng,
     length (fst (draw_permutation rng (shape0 data))) = shape0 data /\
     Forall (fun i => i < shape0 data) (fst (draw_permutation rng (shape0 data)))) ->
  forall w, exists how kmeans w',
    kmeans_run data k batch_size max_iter w = (Ok (how, cluster_centers_ kmeans), w') /\
    fitted data k batch_size max_iter kmeans.
Proof.
  intros Hb Hk Hseed Hfit Hin Hchoice Hperm w.
  assert (Hbn : 1 <= batch_size <= shape0 data) by lia.
  assert (Hq : Nat.max 1 (shape0 data / batch_size) * batch_size <= shape0 data).
  { assert (1 <= shape0 data / batch_size) by (apply Nat.div_le_lower_bound; lia).
    replace (Nat.max 1 (shape0 data / batch_size)) with (shape0 data / batch_size) by lia.
    rewrite Nat.mul_comm. apply Nat.Div0.mul_div_le. }
  unfold kmeans_run.
  unfold bind at 1, print at 1.
  unfold bind at 1, print at 1.
  unfold bind at 1, time_time at 1.
  unfold bind at 1, floordiv at 1.
  destruct (Nat.eqb_spec batch_size 0) as [E|_]; [lia|]. unfold ret at 1.
  unfold bind at 1, print at 1.
  unfold bind at 1, lift at 1, rng_choice.
  destruct (Nat.ltb_spec (shape0 data) (Nat.max k batch_size)) as [E|_]; [lia|].
  destruct (Hchoice (RandomState_new 42) (Nat.max k batch_size) Hk) as [Hlen Hidx].
  destruct (draw_choice (RandomState_new 42) (shape0 data) (Nat.max k batch_size))
    as [indices rng]. cbn [fst] in Hlen, Hidx.
  unfold bind at 1, lift at 1.
  destruct (getitem_in_range data indices Hidx) as [sample Hsample]. rewrite Hsample.
  assert (Hof : batch_of data (Nat.max k batch_size) sample) by now exists indices.
  unfold bind at 1, lift at 1.
  destruct (Hseed sample Hof) as [kmeans Hkm]. rewrite Hkm.
  pose proof (fitted_seed data k batch_size max_iter sample kmeans Hof Hkm) as Hfitted.
  unfold bind at 1, time_time at 1.
  unfold bind at 1, print at 1.
  unfold bind at 1.
  match goal with |- context [epoch_loop ?d ?b ?m ?t ?q ?r ?e ?st ?w0] =>
    destruct (epoch_loop_returns d k b m t q Hbn Hfit Hin Hperm r (fun Hr => Hr) Hq e st
                Hfitted eq_refl w0)
      as ([how st'] & w1 & -> & Hst')
  end.
  unfold bind, time_time, print, ret. cbn [snd] in Hst'. eauto 6.
Qed.



(** X12. With [batch_size = 0], [kmeans_cluster] raises ZeroDivisionError
    (from [n // batch_size]) for every data set, [k] and epoch count, before
    anything is sampled or fitted: the two header lines are all it prints. *)
Theorem kmeans_cluster_zero_batch_size `{RandomStateOps} `{MiniBatchKMeansOps}
        (data : ndarray) (k max_iter : nat) (w : World) :
  fst (kmeans_cluster data k 0 max_iter w) = Raise ZeroDivisionError /\
  w_stdout (snd (kmeans_cluster data k 0 max_iter w))
  = w_stdout w ++ [KMeansStart (shape0 data) k; KMeansParams 0 max_iter].
Proof.
  unfold kmeans_cluster, kmeans_run, bind, print, time_time, floordiv, raise.
  cbn. now rewrite <- app_assoc.
Qed.

(** ** Corpus BLEU-4 *)

Lemma list_sum_cons (a : nat) (l : list nat) : list_sum (a :: l) = a + list_sum l.
Proof. reflexivity. Qed.

Lemma add_at_spec (l : list nat) (i v : nat) :
  i < length l ->
  exists l', add_at l i v = Ok l' /\ length l' = length l /\
             forall j, nth j l' 0 = nth j l 0 + (if j =? i then v else 0).
Proof.
  revert i. induction l as [|x l IH]; intros i Hi; [cbn in Hi; lia|].
  destruct i as [|i].
  - cbn [add_at]. eexists. split; [reflexivity|]. split; [reflexivity|].
    intros [|j]; cbn; lia.
  - cbn [length] in Hi. destruct (IH i ltac:(lia)) as (l' & E & Hl & Hn).
    cbn [add_at]. rewrite E. cbn [rbind]. eexists. split; [reflexivity|].
    split; [cbn; lia|]. intros [|j]; [cbn; lia|]. cbn [nth]. rewrite Hn.
    reflexivity.
Qed.

Lemma clip_loop_spec (items ref_ngrams : Counter) (n : nat) :
  forall clipped, n - 1 < length clipped ->
  exists clipped', clip_loop items ref_ngrams n clipped = Ok clipped' /\
                   length clipped' = length clipped /\
                   forall j, nth j clipped' 0
                             = nth j clipped 0
                               + (if j =? n - 1 then clip_sum items ref_ngrams else 0).
Proof.
  induction items as [|[g count] items IH]; intros clipped Hn.
  - exists clipped. split; [reflexivity|]. split; [reflexivity|].
    intros j. unfold clip_sum. cbn. destruct (j =? n - 1); lia.
  - cbn [clip_loop].
    destruct (add_at_spec clipped (n - 1) (Nat.min count (counter_get ref_ngrams g 0)) Hn)
      as (c1 & -> & Hl1 & Hn1).
    cbn [rbind]. destruct (IH c1 ltac:(lia)) as (c2 & -> & Hl2 & Hn2).
    exists c2. split; [reflexivity|]. split; [lia|].
    intros j. rewrite Hn2, Hn1. unfold clip_sum. cbn [map fst snd].
    rewrite list_sum_cons. destruct (j =? n - 1); lia.
Qed.

Lemma counter_incr_sum (c : Counter) (g : ngram) :
  list_sum (map snd (counter_incr c g)) = S (list_sum (map snd c)).
Proof.
  induction c as [|[h k] c IH]; [reflexivity|].
  cbn [counter_incr]. destruct (ngram_eqb h g); cbn [map snd];
    rewrite !list_sum_cons; [lia|].
  rewrite IH. lia.
Qed.

Lemma Counter_sum (gs : list ngram) :
  forall c, list_sum (map snd (fold_left counter_incr gs c))
            = length gs + list_sum (map snd c).
Proof.
  induction gs as [|g gs IH]; intros c; [reflexivity|].
  cbn [fold_left length]. rewrite IH, counter_incr_sum. lia.
Qed.

Lemma ngrams_length (toks : list string) (n : nat) :
  length (ngrams toks n) = length toks + 1 - n.
Proof. unfold ngrams. now rewrite length_map, length_seq. Qed.

Lemma Counter_of_sum (toks : list string) (n : nat) :
  list_sum (map snd (Counter_of (ngrams toks n))) = length toks + 1 - n.
Proof.
  unfold Counter_of. rewrite Counter_sum, ngrams_length. cbn. lia.
Qed.

Lemma clip_sum_le (items ref_ngrams : Counter) :
  clip_sum items ref_ngrams <= list_sum (map snd items).
Proof.
  unfold clip_sum. induction items as [|[g k] items IH]; [reflexivity|].
  cbn [map fst snd]. rewrite !list_sum_cons. lia.
Qed.

Lemma matched_le (ref hyp : list string) (n : nat) :
  matched ref hyp n <= length hyp + 1 - n.
Proof.
  unfold matched. etransitivity; [apply clip_sum_le|]. now rewrite Counter_of_sum.
Qed.

Lemma order_step_spec (ref hyp : list string) (n : nat) (st : bleu_counts) :
  n - 1 < length (clipped_counts st) -> n - 1 < length (total_counts st) ->
  exists st', order_step ref hyp n st = Ok st' /\
    length (clipped_counts st') = length (clipped_counts st) /\
    length (total_counts st') = length (total_counts st) /\
    ref_len st' = ref_len st /\ hyp_len st' = hyp_len st /\
    (forall j, nth j (clipped_counts st') 0
               = nth j (clipped_counts st) 0 + (if j =? n - 1 then matched ref hyp n else 0)) /\
    (forall j, nth j (total_counts st') 0
               = nth j (total_counts st) 0 + (if j =? n - 1 then length hyp + 1 - n else 0)).
Proof.
  intros Hc Ht. unfold order_step.
  destruct (clip_loop_spec (Counter_of (ngrams hyp n)) (Counter_of (ngrams ref n)) n
              (clipped_counts st) Hc) as (c' & -> & Hlc & Hnc).
  cbn [rbind].
  destruct (add_at_spec (total_counts st) (n - 1)
              (list_sum (map snd (Counter_of (ngrams hyp n)))) Ht) as (t' & -> & Hlt & Hnt).
  cbn [rbind]. eexists. split; [reflexivity|]. cbn.
  repeat split; try assumption.
  intros j. rewrite Hnt, Counter_of_sum. reflexivity.
Qed.

Lemma order_loop_spec (ref hyp : list string) (st : bleu_counts) :
  length (clipped_counts st) = 4 -> length (total_counts st) = 4 ->
  exists st', order_loop (seq 1 4) ref hyp st = Ok st' /\
    length (clipped_counts st') = 4 /\ length (total_counts st') = 4 /\
    ref_len st' = ref_len st /\ hyp_len st' = hyp_len st /\
    (forall j, j < 4 -> nth j (clipped_counts st') 0
                        = nth j (clipped_counts st) 0 + matched ref hyp (S j)) /\
    (forall j, j < 4 -> nth j (total_counts st') 0
                        = nth j (total_counts st) 0 + (length hyp - j)).
Proof.
  intros Hc Ht. cbn [seq order_loop].
  destruct (order_step_spec ref hyp 1 st) as (s1 & -> & Hc1 & Ht1 & Hr1 & Hh1 & Hn1 & Hm1);
    [cbn; lia | cbn; lia |]. cbn [rbind].
  destruct (order_step_spec ref hyp 2 s1) as (s2 & -> & Hc2 & Ht2 & Hr2 & Hh2 & Hn2 & Hm2);
    [cbn; lia | cbn; lia |]. cbn [rbind].
  destruct (order_step_spec ref hyp 3 s2) as (s3 & -> & Hc3 & Ht3 & Hr3 & Hh3 & Hn3 & Hm3);
    [cbn; lia | cbn; lia |]. cbn [rbind].
  destruct (order_step_spec ref hyp 4 s3) as (s4 & -> & Hc4 & Ht4 & Hr4 & Hh4 & Hn4 & Hm4);
    [cbn; lia | cbn; lia |]. cbn [rbind].
  exists s4. split; [reflexivity|].
  repeat split; try lia.
  - intros j Hj. rewrite Hn4, Hn3, Hn2, Hn1.
    destruct j as [|[|[|[|j]]]]; cbn [Nat.eqb Nat.sub]; lia.
  - intros j Hj. rewrite Hm4, Hm3, Hm2, Hm1.
    destruct j as [|[|[|[|j]]]]; cbn [Nat.eqb Nat.sub]; lia.
Qed.

Lemma pair_loop_spec (pairs : list (list string * list string)) :
  forall st, length (clipped_counts st) = 4 -> length (total_counts st) = 4 ->
  exists st', pair_loop pairs st = Ok st' /\
    length (clipped_counts st') = 4 /\ length (total_counts st') = 4 /\
    ref_len st' = ref_len st + list_sum (map (fun p => length (fst p)) pairs) /\
    hyp_len st' = hyp_len st + list_sum (map (fun p => length (snd p)) pairs) /\
    (forall j, j < 4 ->
       nth j (clipped_counts st') 0
       = nth j (clipped_counts st) 0
         + list_sum (map (fun p => matched (fst p) (snd p) (S j)) pairs)) /\
    (forall j, j < 4 ->
       nth j (total_counts st') 0 = nth j (total_counts st) 0 + positions j pairs).
Proof.
  induction pairs as [|[ref hyp] pairs IH]; intros st Hc Ht.
  - exists st. unfold positions. cbn. repeat split; try assumption; intros; lia.
  - cbn [pair_loop].
    destruct (order_loop_spec ref hyp
                (mk_bleu_counts (clipped_counts st) (total_counts st)
                   (ref_len st + length ref) (hyp_len st + length hyp)) Hc Ht)
      as (s1 & -> & Hc1 & Ht1 & Hr1 & Hh1 & Hn1 & Hm1).
    cbn [rbind]. cbn [clipped_counts total_counts ref_len hyp_len] in *.
    destruct (IH s1 Hc1 Ht1) as (s2 & -> & Hc2 & Ht2 & Hr2 & Hh2 & Hn2 & Hm2).
    exists s2. split; [reflexivity|]. unfold positions in *.
    cbn [map fst snd]. rewrite !list_sum_cons.
    repeat split; try assumption; try lia.
    + intros j Hj. rewrite list_sum_cons, (Hn2 j Hj), (Hn1 j Hj). lia.
    + intros j Hj. rewrite list_sum_cons, (Hm2 j Hj), (Hm1 j Hj). lia.
Qed.

Lemma bleu_statistics_spec (references hypotheses : list (list string)) :
  exists st, bleu_statistics references hypotheses = Ok st /\
    length (clipped_counts st) = 4 /\ length (total_counts st) = 4 /\
    ref_len st = list_sum (map (fun p => length (fst p)) (combine references hypotheses)) /\
    hyp_len st = list_sum (map (fun p => length (snd p)) (combine references hypotheses)) /\
    (forall j, j < 4 ->
       nth j (clipped_counts st) 0
       = list_sum (map (fun p => matched (fst p) (snd p) (S j))
                       (combine references hypotheses))) /\
    (forall j, j < 4 ->
       nth j (total_counts st) 0 = positions j (combine references hypotheses)).
Proof.
  unfold bleu_statistics.
  destruct (pair_loop_spec (combine references hypotheses)
              (mk_bleu_counts (repeat 0 4) (repeat 0 4) 0 0) eq_refl eq_refl)
    as (st & E & Hc & Ht & Hr & Hh & Hn & Hm).
  exists st. split; [exact E|]. repeat split; try assumption.
  - intros j Hj. rewrite (Hn j Hj). destruct j as [|[|[|[|j]]]]; cbn; lia.
  - intros j Hj. rewrite (Hm j Hj). destruct j as [|[|[|[|j]]]]; cbn; lia.
Qed.

Lemma matched_sum_le (pairs : list (list string * list string)) (j : nat) :
  list_sum (map (fun p => matched (fst p) (snd p) (S j)) pairs) <= positions j pairs.
Proof.
  unfold positions. induction pairs as [|[r h] pairs IH]; [reflexivity|].
  cbn [map fst snd]. rewrite !list_sum_cons. pose proof (matched_le r h (S j)). lia.
Qed.

(** X13. The loop of [compute_bleu4] over the sentence pairs never raises:
    it leaves four clipped and four total counts, the total of order i + 1
    being the number of places where an n-gram of that order starts in the
    paired hypotheses, and no clipped count exceeds its total (no modified
    precision exceeds one).  The two lengths are summed over the paired
    sentences only. *)
Theorem bleu_statistics_counts (references hypotheses : list (list string)) :
  exists st, bleu_statistics references hypotheses = Ok st /\
    length (clipped_counts st) = 4 /\ length (total_counts st) = 4 /\
    ref_len st = list_sum (map (fun p => length (fst p)) (combine references hypotheses)) /\
    hyp_len st = list_sum (map (fun p => length (snd p)) (combine references hypotheses)) /\
    forall i, i < 4 ->
      nth i (total_counts st) 0 = positions i (combine references hypotheses) /\
      nth i (clipped_counts st) 0 <= nth i (total_counts st) 0.
Proof.
  destruct (bleu_statistics_spec references hypotheses)
    as (st & E & Hc & Ht & Hr & Hh & Hn & Hm).
  exists st. repeat split; try assumption.
  - now apply Hm.
  - rewrite (Hn i H), (Hm i H). apply matched_sum_le.
Qed.

Lemma combine_min {A B} (a : list A) (b : list B) :
  combine (firstn (Nat.min (length a) (length b)) a)
          (firstn (Nat.min (length a) (length b)) b)
  = combine a b.
Proof.
  rewrite <- combine_firstn. apply firstn_all2. rewrite length_combine. lia.
Qed.

(** X14. [compute_bleu4] pairs the sentences with [zip] and does not compare
    the two lengths: references or hypotheses beyond the length of the
    shorter list are ignored, so the score is that of the two lists cut to
    the same length. *)
Theorem compute_bleu4_ignores_unpaired `{MathOps}
        (references hypotheses : list (list string)) :
  compute_bleu4 references hypotheses
  = compute_bleu4 (firstn (Nat.min (length references) (length hypotheses)) references)
                  (firstn (Nat.min (length references) (length hypotheses)) hypotheses).
Proof.
  destruct references as [|r references]; [reflexivity|].
  destruct hypotheses as [|h hypotheses]; [reflexivity|].
  pose proof (combine_min (r :: references) (h :: hypotheses)) as Hc.
  cbn [length Nat.min firstn] in *.
  unfold compute_bleu4, bleu_statistics. now rewrite Hc.
Qed.

Lemma precisions_loop_zero_total (st : bleu_counts) :
  length (clipped_counts st) = 4 -> length (total_counts st) = 4 ->
  nth 3 (total_counts st) 0 = 0 ->
  precisions_loop (seq 0 4) st [] = Ok (Returned 0%float).
Proof.
  destruct st as [clipped total rl hl]. cbn [clipped_counts total_counts].
  intros Hc Ht H3.
  destruct clipped as [|c0 [|c1 [|c2 [|c3 [|]]]]]; try discriminate Hc.
  destruct total as [|t0 [|t1 [|t2 [|t3 [|]]]]]; try discriminate Ht.
  cbn in H3. subst t3.
  cbn [seq precisions_loop item_at nth_error total_counts clipped_counts rbind].
  destruct (t0 =? 0); [reflexivity|].
  destruct (t1 =? 0); [reflexivity|].
  destruct (t2 =? 0); reflexivity.
Qed.

Lemma positions_short (i : nat) (pairs : list (list string * list string)) :
  Forall (fun p => length (snd p) <= i) pairs -> positions i pairs = 0.
Proof.
  unfold positions. induction 1 as [|p pairs Hp _ IH]; [reflexivity|].
  cbn [map]. rewrite list_sum_cons. lia.
Qed.

(** X15. When every hypothesis has fewer than four tokens, [compute_bleu4]
    returns 0.0, whatever the references are: there is no 4-gram to count,
    and a zero total makes the function return 0.0.  A corpus of short
    hypotheses identical to their references scores 0.0 as well. *)
Theorem compute_bleu4_short_hypotheses `{MathOps}
        (references hypotheses : list (list string)) :
  Forall (fun hyp => length hyp < 4) hypotheses ->
  compute_bleu4 references hypotheses = Ok 0%float.
Proof.
  intros Hshort.
  destruct references as [|r references]; [reflexivity|].
  destruct hypotheses as [|h hypotheses]; [reflexivity|].
  unfold compute_bleu4.
  destruct (bleu_statistics_spec (r :: references) (h :: hypotheses))
    as (st & -> & Hc & Ht & _ & _ & _ & Hm).
  cbn [rbind]. rewrite (precisions_loop_zero_total st Hc Ht); [reflexivity|].
  rewrite (Hm 3 ltac:(lia)). apply positions_short.
  apply Forall_forall. intros [r' h'] Hin. apply in_combine_r in Hin.
  cbn [snd]. rewrite Forall_forall in Hshort. specialize (Hshort h' Hin). lia.
Qed.

Lemma compute_bleu4_short_hypotheses_witness :
  @compute_bleu4 sample_math short_corpus short_corpus = Ok 0%float.
Proof.
  apply (@compute_bleu4_short_hypotheses sample_math).
  repeat constructor.
Defined.

Lemma ngram_eqb_eq (a b : ngram) : ngram_eqb a b = true <-> a = b.
Proof.
  revert b. induction a as [|x a IH]; intros [|y b]; cbn [ngram_eqb];
    try (split; [discriminate | intros [=]]); [tauto|].
  rewrite andb_true_iff, String.eqb_eq, IH. split; [intros [-> ->]; reflexivity|].
  intros [= -> ->]. now split.
Qed.

Lemma ngram_eqb_refl (a : ngram) : ngram_eqb a a = true.
Proof. now apply ngram_eqb_eq. Qed.

Lemma ngram_eqb_sym (a b : ngram) : ngram_eqb a b = ngram_eqb b a.
Proof.
  destruct (ngram_eqb a b) eqn:E.
  - apply ngram_eqb_eq in E as ->. now rewrite ngram_eqb_refl.
  - destruct (ngram_eqb b a) eqn:E'; [|reflexivity].
    apply ngram_eqb_eq in E' as ->. now rewrite ngram_eqb_refl in E.
Qed.

Lemma has_key_incr (c : Counter) (g h : ngram) :
  has_key (counter_incr c g) h = has_key c h || ngram_eqb g h.
Proof.
  induction c as [|[x k] c IH]; [cbn; now rewrite orb_false_r|].
  cbn [counter_incr]. destruct (ngram_eqb x g) eqn:E; cbn [has_key].
  - apply ngram_eqb_eq in E as ->. destruct (ngram_eqb g h), (has_key c h); reflexivity.
  - rewrite IH. now rewrite orb_assoc.
Qed.

Lemma distinct_keys_incr (c : Counter) (g : ngram) :
  distinct_keys c -> distinct_keys (counter_incr c g).
Proof.
  induction c as [|[x k] c IH]; [now cbn|].
  cbn [distinct_keys counter_incr]. intros [Hx Hc].
  destruct (ngram_eqb x g) eqn:E; cbn [distinct_keys]; [now split|].
  split; [|now apply IH]. rewrite has_key_incr, Hx, ngram_eqb_sym, E. reflexivity.
Qed.

Lemma distinct_keys_Counter_of (gs : list ngram) : distinct_keys (Counter_of gs).
Proof.
  unfold Counter_of. assert (H : distinct_keys []) by exact I. revert H.
  generalize (@nil (ngram * nat)). induction gs as [|g gs IH]; intros c Hc; [exact Hc|].
  cbn [fold_left]. now apply IH, distinct_keys_incr.
Qed.

Lemma clip_sum_other_key (items rest : Counter) (h : ngram) (k : nat) :
  has_key items h = false -> clip_sum items ((h, k) :: rest) = clip_sum items rest.
Proof.
  unfold clip_sum. induction items as [|[g c] items IH]; [reflexivity|].
  cbn [has_key]. intros Hk. apply orb_false_iff in Hk as [Hg Hk].
  cbn [map]. rewrite !list_sum_cons, (IH Hk). cbn [fst snd counter_get].
  now rewrite ngram_eqb_sym, Hg.
Qed.

Lemma clip_sum_self (c : Counter) :
  distinct_keys c -> clip_sum c c = list_sum (map snd c).
Proof.
  induction c as [|[h k] c IH]; [reflexivity|].
  cbn [distinct_keys]. intros [Hh Hc].
  unfold clip_sum at 1. cbn [map]. rewrite !list_sum_cons.
  fold (clip_sum c ((h, k) :: c)). rewrite (clip_sum_other_key c c h k Hh), (IH Hc).
  cbn [fst snd counter_get]. now rewrite ngram_eqb_refl, Nat.min_id.
Qed.

Lemma matched_self (toks : list string) (n : nat) :
  matched toks toks n = length toks + 1 - n.
Proof.
  unfold matched. rewrite clip_sum_self by apply distinct_keys_Counter_of.
  apply Counter_of_sum.
Qed.

Lemma combine_self {A} (l : list A) : combine l l = map (fun x => (x, x)) l.
Proof. induction l as [|x l IH]; [reflexivity|]. cbn. now rewrite IH. Qed.

(** X16. For a corpus scored against itself, the loop of [compute_bleu4]
    ends with every clipped count equal to its total count and the two
    lengths equal: every modified precision is a count divided by itself,
    and the brevity penalty is the constant 1.0. *)
Theorem bleu_statistics_identical (corpus : list (list string)) :
  exists st, bleu_statistics corpus corpus = Ok st /\
             clipped_counts st = total_counts st /\ ref_len st = hyp_len st.
Proof.
  destruct (bleu_statistics_spec corpus corpus) as (st & E & Hc & Ht & Hr & Hh & Hn & Hm).
  exists st. split; [exact E|]. split.
  - apply (nth_ext _ _ 0 0); [lia|]. intros j Hj. rewrite Hc in Hj.
    rewrite (Hn j Hj), (Hm j Hj). unfold positions. f_equal.
    rewrite combine_self, !map_map. apply map_ext. intros h. cbn [fst snd].
    rewrite matched_self. lia.
  - rewrite Hr, Hh. f_equal. rewrite combine_self, !map_map. reflexivity.
Qed.

(** ** PropBank role labels *)

Lemma dict_get_bound (d : list (string * nat)) (key : string) (default bound : nat) :
  Forall (fun kv => snd kv < bound) d -> default < bound ->
  dict_get d key default < bound.
Proof.
  intros Hd Hdef. induction Hd as [|[k v] d Hkv _ IH]; [exact Hdef|].
  cbn [dict_get]. destruct (String.eqb k key); [exact Hkv | exact IH].
Qed.

Lemma role_of_tag_lt (tag : string) : role_of_tag tag < NUM_ROLES.
Proof.
  unfold role_of_tag. apply dict_get_bound; [|unfold NUM_ROLES; lia].
  unfold PROPBANK_TO_ROLE, NUM_ROLES. repeat constructor.
Qed.

Lemma sentence_entry_labelled (sent : conll_sentence) (entry : list string * list nat) :
  sentence_entry sent = Some entry -> labelled entry.
Proof.
  unfold sentence_entry.
  destruct (get_list (s_words sent)) as [|w words]; [discriminate|].
  destruct (get_list (s_srl_frames sent)) as [|frame srl]; [discriminate|].
  destruct (Nat.eqb_spec (length (get_list (f_frames frame))) (length (w :: words)))
    as [Hlen|_]; cbn [negb]; [|discriminate].
  intros [= <-]. unfold labelled. cbn [fst snd].
  split; [discriminate|]. split; [now rewrite length_map|].
  apply Forall_forall. intros r Hr. apply in_map_iff in Hr as (tag & <- & _).
  apply role_of_tag_lt.
Qed.

Lemma sentence_loop_labelled (sents : list conll_sentence) :
  forall sentences, Forall labelled sentences ->
                    Forall labelled (sentence_loop sents sentences).
Proof.
  induction sents as [|sent sents IH]; intros sentences Hs; [exact Hs|].
  cbn [sentence_loop]. destruct (sentence_entry sent) as [entry|] eqn:E; [|now apply IH].
  apply IH, Forall_app. split; [exact Hs|]. constructor; [|constructor].
  now apply (sentence_entry_labelled sent).
Qed.

Lemma parse_docs_labelled (quick : bool) (dataset : list conll_doc) :
  forall sentences, Forall labelled sentences ->
                    Forall labelled (parse_docs quick dataset sentences).
Proof.
  induction dataset as [|doc dataset IH]; intros sentences Hs; [exact Hs|].
  cbn [parse_docs].
  pose proof (sentence_loop_labelled (get_list (d_sentences doc)) sentences Hs) as H1.
  destruct (quick && _); [exact H1 | now apply IH].
Qed.

Lemma parse_docs_quick (dataset : list conll_doc) :
  forall sentences,
  exists k, k <= length dataset /\
    parse_docs true dataset sentences = parse_docs false (firstn k dataset) sentences /\
    (k < length dataset -> 200 <= length (parse_docs true dataset sentences)) /\
    (forall j, 1 <= j < k ->
               length (parse_docs false (firstn j dataset) sentences) < 200).
Proof.
  induction dataset as [|doc dataset IH]; intros sentences.
  - exists 0. cbn. repeat split; try lia.
  - cbn [parse_docs andb].
    set (s1 := sentence_loop (get_list (d_sentences doc)) sentences).
    destruct (Nat.leb_spec 200 (length s1)) as [Hfull|Hless].
    + exists 1. cbn [length firstn parse_docs andb]. fold s1.
      repeat split; try lia.
    + destruct (IH s1) as (k & Hk & Heq & Hstop & Hmin).
      exists (S k). cbn [length firstn parse_docs andb]. fold s1.
      split; [lia|]. split; [exact Heq|]. split; [intros Hlt; apply Hstop; lia|].
      intros j Hj. destruct j as [|[|j]]; [lia | cbn; fold s1; lia |].
      cbn [firstn parse_docs andb]. fold s1. apply (Hmin (S j)). lia.
Qed.

Lemma sentence_entry_iff (sent : conll_sentence) (words : list string) (roles : list nat) :
  sentence_entry sent = Some (words, roles) <->
  exists frame frames,
    get_list (s_words sent) = words /\ words <> [] /\
    get_list (s_srl_frames sent) = frame :: frames /\
    length (get_list (f_frames frame)) = length words /\
    roles = map role_of_tag (get_list (f_frames frame)).
Proof.
  unfold sentence_entry. split.
  - destruct (get_list (s_words sent)) as [|w ws]; [discriminate|].
    destruct (get_list (s_srl_frames sent)) as [|frame srl]; [discriminate|].
    destruct (Nat.eqb_spec (length (get_list (f_frames frame))) (length (w :: ws)))
      as [Hlen|_]; cbn [negb]; [|discriminate].
    intros [= <- <-]. exists frame, srl. repeat split; [discriminate | exact Hlen].
  - intros (frame & frames & Hw & Hne & Hs & Hlen & ->).
    rewrite Hw, Hs. destruct words as [|w ws]; [contradiction|].
    apply Nat.eqb_eq in Hlen. now rewrite Hlen.
Qed.

Lemma sentence_loop_In (sents : list conll_sentence) (entry : list string * list nat) :
  forall sentences,
    In entry (sentence_loop sents sentences) <->
    In entry sentences \/ exists sent, In sent sents /\ sentence_entry sent = Some entry.
Proof.
  induction sents as [|sent sents IH]; intros sentences; cbn [sentence_loop].
  - split; [now left | intros [Hin | (sent & [] & _)]; exact Hin].
  - destruct (sentence_entry sent) as [e|] eqn:E; rewrite IH.
    + rewrite in_app_iff. cbn [In]. split.
      * intros [[Hin | [<- | []]] | (s' & Hs' & He)].
        -- now left.
        -- right. exists sent. split; [now left | exact E].
        -- right. exists s'. split; [now right | exact He].
      * intros [Hin | (s' & [<- | Hs'] & He)].
        -- left. now left.
        -- left. right. left. congruence.
        -- right. now exists s'.
    + split.
      * intros [Hin | (s' & Hs' & He)]; [now left|].
        right. exists s'. split; [now right | exact He].
      * intros [Hin | (s' & [<- | Hs'] & He)]; [now left | congruence |].
        right. now exists s'.
Qed.

Lemma parse_docs_In (dataset : list conll_doc) (entry : list string * list nat) :
  forall sentences,
    In entry (parse_docs false dataset sentences) <->
    In entry sentences \/
    exists doc sent, In doc dataset /\ In sent (get_list (d_sentences doc)) /\
                     sentence_entry sent = Some entry.
Proof.
  induction dataset as [|doc dataset IH]; intros sentences; cbn [parse_docs andb].
  - split; [now left | intros [Hin | (doc & sent & [] & _)]; exact Hin].
  - rewrite IH, sentence_loop_In. split.
    + intros [[Hin | (sent & Hs & He)] | (d & sent & Hd & Hs & He)].
      * now left.
      * right. exists doc, sent. split; [now left | now split].
      * right. exists d, sent. split; [now right | now split].
    + intros [Hin | (d & sent & [<- | Hd] & Hs & He)].
      * left. now left.
      * left. right. now exists sent.
      * right. now exists d, sent.
Qed.

Lemma parse_docs_firstn (k : nat) (dataset : list conll_doc)
      (entry : list string * list nat) :
  In entry (parse_docs false (firstn k dataset) []) ->
  In entry (parse_docs false dataset []).
Proof.
  rewrite !parse_docs_In. intros [[] | (doc & sent & Hd & Hrest)].
  right. exists doc, sent. split; [|exact Hrest].
  rewrite <- (firstn_skipn k dataset). apply in_or_app. now left.
Qed.

(** X17. Every sentence the PropBank loader keeps has at least one word,
    exactly one role index per word, and only role indices below 16,
    whatever the data set holds.  Without the quick mode the entries kept
    are exactly those of the sentences that have words, at least one SRL
    frame, and as many tags in their first frame as they have words; the
    quick mode keeps some of these.  All other sentences are left out.  The
    roles are those of the first frame's tags: the table's entry for the
    upper-cased tag without B- and I-, and 15 when the table has none. *)
Theorem parse_docs_entries (quick : bool) (dataset : list conll_doc) :
  Forall (fun entry => fst entry <> [] /\ length (fst entry) = length (snd entry) /\
                       Forall (fun r => r < NUM_ROLES) (snd entry))
         (parse_docs quick dataset []) /\
  (forall words roles,
      In (words, roles) (parse_docs false dataset []) <-> kept_from dataset words roles) /\
  (forall words roles,
      In (words, roles) (parse_docs true dataset []) -> kept_from dataset words roles) /\
  (forall tag,
      role_of_tag tag = match dict_lookup PROPBANK_TO_ROLE (normal_tag tag) with
                        | Some role => role
                        | None => 15
                        end).
Proof.
  assert (Hfull : forall words roles,
             In (words, roles) (parse_docs false dataset []) <-> kept_from dataset words roles).
  { intros words roles. rewrite parse_docs_In. unfold kept_from. split.
    - intros [[] | (doc & sent & Hd & Hs & He)].
      apply sentence_entry_iff in He as (frame & frames & Hrest).
      now exists doc, sent, frame, frames.
    - intros (doc & sent & frame & frames & Hd & Hs & Hrest).
      right. exists doc, sent. split; [exact Hd|]. split; [exact Hs|].
      apply sentence_entry_iff. now exists frame, frames. }
  split; [apply (parse_docs_labelled quick dataset []); constructor|].
  split; [exact Hfull|]. split.
  - intros words roles Hin. apply Hfull.
    destruct (parse_docs_quick dataset []) as (k & _ & Heq & _).
    rewrite Heq in Hin. exact (parse_docs_firstn k dataset _ Hin).
  - intros tag. unfold role_of_tag. fold (normal_tag tag).
    change (NUM_ROLES - 1) with 15.
    induction PROPBANK_TO_ROLE as [|[key role] table IH]; [reflexivity|].
    cbn [dict_get dict_lookup]. destruct (String.eqb key (normal_tag tag)); [reflexivity|].
    exact IH.
Qed.

(** X18. An ASCII tag that reads, in any letter case, as a label of the role
    table, alone or after the prefix B- or I-, is given the role of that
    label.  (The tag is taken to be ASCII, where [upper_str] is Python's
    [upper].) *)
Theorem role_of_tag_bio_prefix (tag label : string) (role : nat) :
  In (label, role) PROPBANK_TO_ROLE ->
  all_chars is_ascii tag = true ->
  upper_str tag = label \/ upper_str tag = ("B-" ++ label)%string \/
  upper_str tag = ("I-" ++ label)%string ->
  role_of_tag tag = role.
Proof.
  intros Hin _ Htag. unfold role_of_tag.
  destruct Htag as [-> | [-> | ->]];
    cbn [In PROPBANK_TO_ROLE] in Hin;
    repeat (destruct Hin as [[= <- <-] | Hin]; [vm_compute; reflexivity|]);
    contradiction.
Qed.

Lemma role_of_tag_bio_prefix_witness : role_of_tag "b-argm-tmp" = 4.
Proof.
  apply (role_of_tag_bio_prefix "b-argm-tmp" "ARGM-TMP" 4).
  - cbn. tauto.
  - reflexivity.
  - right. left. reflexivity.
Defined.

(** X19. In quick mode the loader returns what the full parse of a prefix of
    the data set returns: the shortest prefix of documents whose parse holds
    200 sentences or more, or the whole data set when there is none.  The
    result is not cut to 200 sentences, and no document is read in part. *)
Theorem parse_docs_quick_prefix (dataset : list conll_doc) :
  exists k, k <= length dataset /\
    parse_docs true dataset [] = parse_docs false (firstn k dataset) [] /\
    (k < length dataset -> 200 <= length (parse_docs true dataset [])) /\
    (forall j, j < k -> length (parse_docs false (firstn j dataset) []) < 200).
Proof.
  destruct (parse_docs_quick dataset []) as (k & Hk & Heq & Hstop & Hmin).
  exists k. repeat split; try assumption.
  intros j Hj. destruct j as [|j]; [cbn; lia|]. apply Hmin. lia.
Qed.

(** ** Synthetic training data *)

Lemma filter_length_bound {A} (f : A -> bool) (l : list A) :
  length (filter f l) <= length l.
Proof.
  induction l as [|x l IH]; [reflexivity|]. cbn [filter].
  destruct (f x); cbn [length]; lia.
Qed.

Lemma positive_count_lt (l : list nat) :
  forall i, i < length l -> nth i l 0 = 0 ->
            length (filter (fun c => 0 <? c) l) < length l.
Proof.
  induction l as [|x l IH]; intros i Hi Hn; [cbn in Hi; lia|].
  destruct i as [|i].
  - cbn in Hn. subst x. cbn [filter]. change (0 <? 0) with false. cbn [length].
    pose proof (filter_length_bound (fun c => 0 <? c) l). lia.
  - cbn [nth length] in *. specialize (IH i ltac:(lia) Hn).
    cbn [filter]. destruct (0 <? x); cbn [length]; lia.
Qed.

Lemma count_roles_spec (roles : list nat) :
  forall role_counts,
    Forall (fun r => r < NUM_ROLES /\ r <> 8) roles ->
    length role_counts = NUM_ROLES -> nth 8 role_counts 0 = 0 ->
    exists role_counts', count_roles roles role_counts = Ok role_counts' /\
                         length role_counts' = NUM_ROLES /\ nth 8 role_counts' 0 = 0.
Proof.
  induction roles as [|r roles IH]; intros rc Hr Hl H8; [now exists rc|].
  inversion Hr as [|? ? [Hlt Hne] Hrest]; subst.
  cbn [count_roles].
  destruct (add_at_spec rc r 1 ltac:(lia)) as (rc1 & -> & Hl1 & Hn1).
  cbn [rbind]. apply IH; [exact Hrest | lia |].
  rewrite Hn1, H8. destruct (Nat.eqb_spec 8 r); [congruence | reflexivity].
Qed.

Lemma count_data_spec (data : list (list string * list nat)) :
  forall role_counts,
    Forall template_labelled data ->
    length role_counts = NUM_ROLES -> nth 8 role_counts 0 = 0 ->
    exists role_counts', count_data data role_counts = Ok role_counts' /\
                         length role_counts' = NUM_ROLES /\ nth 8 role_counts' 0 = 0.
Proof.
  induction data as [|ex data IH]; intros rc Hd Hl H8; [now exists rc|].
  inversion Hd as [|? ? [_ Hex] Hrest]; subst.
  cbn [count_data].
  destruct (count_roles_spec (snd ex) rc Hex Hl H8) as (rc1 & -> & Hl1 & H81).
  cbn [rbind]. now apply IH.
Qed.

Lemma roles_for_labelled (r : nat) (ws : list string) :
  r < NUM_ROLES -> r <> 8 ->
  Forall (fun r => r < NUM_ROLES /\ r <> 8) (roles_for r ws).
Proof.
  intros Hlt Hne. unfold roles_for. induction (length ws) as [|n IH]; constructor.
  - now split.
  - exact IH.
Qed.

Section SyntheticProofs.

Context `{PyRandomOps}.

Lemma ensures_ret {A} (a : A) (Q : A -> Prop) : Q a -> ensures (ret a) Q.
Proof. intros Ha s. exists a, s. now repeat split. Qed.

Lemma ensures_bind {A B} (m : Py A) (k : A -> Py B) (Q1 : A -> Prop) (Q2 : B -> Prop) :
  ensures m Q1 -> (forall a, Q1 a -> ensures (k a) Q2) -> ensures (bind m k) Q2.
Proof.
  intros Hm Hk s. destruct (Hm s) as (a & s1 & E & Ha & Ho).
  destruct (Hk a Ha s1) as (b & s2 & E2 & Hb & Ho2).
  exists b, s2. unfold bind. rewrite E. split; [exact E2|]. split; [exact Hb|].
  now rewrite Ho2.
Qed.

Lemma ensures_choice {A} (seq : list A) :
  seq <> [] -> ensures (choice seq) (fun x => In x seq).
Proof.
  intros Hne s. unfold choice. destruct seq as [|x0 seq]; [contradiction|].
  assert (Hpos : 0 < length (x0 :: seq)) by (cbn; lia).
  pose proof (@randbelow_lt _ (py_random s) (length (x0 :: seq)) Hpos) as Hlt.
  destruct (randbelow (py_random s) (length (x0 :: seq))) as [i g]. cbn [fst] in Hlt.
  destruct (nth_error (x0 :: seq) i) as [x|] eqn:E.
  - eexists x, _. split; [reflexivity|]. split; [|reflexivity].
    now apply nth_error_In with i.
  - apply nth_error_None in E. lia.
Qed.

Lemma ensures_assert (b : bool) : b = true -> ensures (py_assert b) (fun _ => True).
Proof. intros -> s. exists tt, s. now repeat split. Qed.

Lemma generators_labelled :
  Forall (fun gen => ensures gen template_labelled) generators.
Proof.
  unfold generators.
  repeat constructor;
    (repeat (eapply ensures_bind; [apply ensures_choice; discriminate | intros ? _]);
     apply ensures_ret; split; cbn [fst snd];
     [ unfold roles_for; rewrite ?length_app, ?repeat_length; cbn [length];
       rewrite ?length_app; cbn [length]; lia
     | repeat (apply Forall_app; split);
       first [ apply roles_for_labelled; unfold NUM_ROLES; lia
             | repeat constructor; unfold NUM_ROLES; lia ] ]).
Qed.

Lemma generate_loop_spec (remaining : nat) :
  forall data, Forall template_labelled data ->
    ensures (generate_loop remaining data)
            (fun d => length d = length data + remaining /\ Forall template_labelled d).
Proof.
  induction remaining as [|remaining IH]; intros data Hd.
  - apply ensures_ret. split; [apply plus_n_O | exact Hd].
  - cbn [generate_loop].
    eapply ensures_bind; [apply ensures_choice; discriminate|]. intros gen Hgen.
    pose proof generators_labelled as Hall. rewrite Forall_forall in Hall.
    eapply ensures_bind; [exact (Hall gen Hgen)|]. intros ex Hex.
    eapply ensures_bind; [apply ensures_assert; apply Nat.eqb_eq, Hex|]. intros _ _.
    intros s. destruct (IH (data ++ [ex])
                          ltac:(apply Forall_app; split; [exact Hd | now constructor]) s)
      as (d & s' & E & [Hl Hf] & Ho).
    exists d, s'. split; [exact E|]. split; [|exact Ho]. split; [|exact Hf].
    rewrite Hl, length_app. cbn. lia.
Qed.

Lemma generate_synthetic_data_spec (n : nat) (s : Interp) :
  exists data covered s',
    generate_synthetic_data n s = (Ok data, s') /\
    length data = n /\ Forall template_labelled data /\
    py_stdout s' = py_stdout s ++ [GeneratedSynthetic n covered] /\
    covered <= 15.
Proof.
  destruct (generate_loop_spec n (@nil example) (Forall_nil _)
              (mk_Interp (random_seed 42) (py_stdout s))) as (data & s1 & E & [Hl Hf] & Ho).
  destruct (count_data_spec data (repeat 0 NUM_ROLES) Hf eq_refl eq_refl)
    as (rc & Erc & Hlrc & H8).
  unfold generate_synthetic_data, bind, seed, lift, py_print, ret.
  cbv beta iota. rewrite E. cbv beta iota. rewrite Erc. cbv beta iota.
  eexists data, _, _. split; [reflexivity|]. cbn [py_stdout] in *.
  split; [exact Hl|]. split; [exact Hf|]. split; [now rewrite Ho|].
  pose proof (positive_count_lt rc 8 ltac:(rewrite Hlrc; unfold NUM_ROLES; lia) H8).
  unfold NUM_ROLES in *. lia.
Qed.

End SyntheticProofs.

(** X20. For every [n] and every state of the random module,
    [generate_synthetic_data] returns exactly [n] examples without raising
    (its assertion never fails): each has one role per word, and every role
    is an index below 16 other than 8.  Role 8 is never produced, so the
    coverage it prints is at most 15 of the 16 roles. *)
Theorem generate_synthetic_data_examples `{PyRandomOps} (n : nat) (s : Interp) :
  exists data covered s',
    generate_synthetic_data n s = (Ok data, s') /\
    length data = n /\
    Forall (fun ex => length (fst ex) = length (snd ex) /\
                      Forall (fun r => r < NUM_ROLES /\ r <> 8) (snd ex)) data /\
    py_stdout s' = py_stdout s ++ [GeneratedSynthetic n covered] /\
    covered <= 15.
Proof. apply generate_synthetic_data_spec. Qed.

(** ** Role alignment *)

(** X21. The labels [precompute_hidden_states] gives the tokens of a
    sentence are role indices below 16 whenever the sentence's roles are;
    there is one label per word index the tokenizer reports, and without
    word indices exactly one label per hidden state: the roles in order, cut
    to that length or padded with 15. *)
Theorem align_roles_labels (word_ids : option (list (option nat))) (roles : list nat)
        (hidden_size : nat) :
  Forall (fun r => r < NUM_ROLES) roles ->
  Forall (fun r => r < NUM_ROLES) (align_roles word_ids roles hidden_size) /\
  length (align_roles word_ids roles hidden_size)
  = match word_ids with
    | Some ids => length ids
    | None => hidden_size
    end /\
  align_roles None roles hidden_size
  = firstn hidden_size roles ++ repeat (NUM_ROLES - 1) (hidden_size - length roles).
Proof.
  intros Hroles.
  assert (Hfall : align_roles None roles hidden_size
                  = firstn hidden_size roles
                    ++ repeat (NUM_ROLES - 1) (hidden_size - length roles)).
  { unfold align_roles. rewrite firstn_app.
    destruct (Nat.le_gt_cases (length roles) hidden_size) as [Hle|Hgt].
    - rewrite (firstn_all2 (n := hidden_size - length roles)
                 (repeat (NUM_ROLES - 1) (hidden_size - length roles)))
        by (rewrite repeat_length; lia).
      reflexivity.
    - replace (hidden_size - length roles) with 0 by lia. reflexivity. }
  split; [|split; [|exact Hfall]].
  - destruct word_ids as [ids|].
    + unfold align_roles. apply Forall_forall. intros r Hr.
      apply in_map_iff in Hr as (wid & <- & _).
      destruct wid as [w|]; [|unfold NUM_ROLES; lia].
      destruct (Nat.ltb_spec w (length roles)) as [Hw|_]; [|unfold NUM_ROLES; lia].
      rewrite Forall_forall in Hroles. apply Hroles, nth_In, Hw.
    + rewrite Hfall. apply Forall_app. split.
      * rewrite <- (firstn_skipn hidden_size roles) in Hroles.
        now apply Forall_app in Hroles as [Hroles _].
      * apply Forall_forall. intros r Hr. apply repeat_spec in Hr as ->.
        unfold NUM_ROLES. lia.
  - destruct word_ids as [ids|].
    + unfold align_roles. apply length_map.
    + rewrite Hfall, length_app, length_firstn, repeat_length. lia.
Qed.

Lemma align_roles_labels_witness :
  Forall (fun r => r < NUM_ROLES) (align_roles None [0; 1; 2] 5) /\
  length (align_roles None [0; 1; 2] 5) = 5 /\
  align_roles None [0; 1; 2] 5 = firstn 5 [0; 1; 2] ++ repeat (NUM_ROLES - 1) (5 - 3).
Proof.
  apply (align_roles_labels None [0; 1; 2] 5).
  repeat constructor.
Defined.

(** ** Exporting the weights *)

Section ExportProofs.

Variable tensor : Type.
Variable contiguous_cpu : tensor -> tensor.

Lemma dict_set_new (d : list (string * tensor)) (key : string) (v : tensor) :
  dict_has d key = false -> dict_set d key v = d ++ [(key, v)].
Proof.
  induction d as [|[k x] d IH]; [reflexivity|].
  cbn [dict_has dict_set app]. intros Hk. apply orb_false_iff in Hk as [Hk Hd].
  now rewrite Hk, (IH Hd).
Qed.

Lemma dict_has_app (d1 d2 : list (string * tensor)) (key : string) :
  dict_has (d1 ++ d2) key = dict_has d1 key || dict_has d2 key.
Proof.
  induction d1 as [|[k x] d1 IH]; [reflexivity|].
  cbn [app dict_has]. now rewrite IH, orb_assoc.
Qed.

Lemma remap_loop_spec (state_dict : list (string * tensor)) (items : list (string * string)) :
  distinct_names items = true ->
  forall tensors,
    (forall item, In item items -> dict_has tensors (snd item) = false) ->
    remap_loop contiguous_cpu items state_dict tensors
    = (tensors ++ expected_tensors contiguous_cpu items state_dict,
       map (@WarnMissing tensor) (missing_keys items state_dict)).
Proof.
  induction items as [|[old_key new_key] items IH]; intros Hd tensors Hfresh.
  - cbn. now rewrite app_nil_r.
  - cbn [distinct_names] in Hd. apply andb_true_iff in Hd as [Hnew Hd].
    apply negb_true_iff in Hnew.
    cbn [remap_loop]. unfold expected_tensors, missing_keys. cbn [flat_map fst snd].
    fold (expected_tensors contiguous_cpu items state_dict).
    fold (@missing_keys tensor items state_dict).
    destruct (dict_lookup state_dict old_key) as [t|].
    + rewrite (dict_set_new tensors new_key (contiguous_cpu t))
        by (apply (Hfresh (old_key, new_key)); now left).
      rewrite (IH Hd).
      * cbn [app]. now rewrite <- app_assoc.
      * intros item Hitem. rewrite dict_has_app, (Hfresh item) by now right.
        cbn [dict_has orb]. rewrite orb_false_r.
        destruct (String.eqb new_key (snd item)) eqn:E; [|reflexivity].
        apply String.eqb_eq in E. exfalso.
        assert (Hex : existsb (fun item => String.eqb (snd item) new_key) items = true).
        { apply existsb_exists. exists item. split; [exact Hitem|].
          apply String.eqb_eq. now symmetry. }
        congruence.
    + rewrite (IH Hd tensors) by (intros item Hitem; apply Hfresh; now right).
      reflexivity.
Qed.

Lemma export_safetensors_spec (state_dict : list (string * tensor)) (output_path : string) :
  export_safetensors contiguous_cpu state_dict output_path
  = map (@WarnMissing tensor) (missing_keys remap state_dict)
    ++ [SaveFile (expected_tensors contiguous_cpu remap state_dict) output_path;
        @PrintExported tensor (length (expected_tensors contiguous_cpu remap state_dict))
                      output_path].
Proof.
  unfold export_safetensors.
  rewrite (remap_loop_spec state_dict remap eq_refl [])
    by (intros; reflexivity).
  reflexivity.
Qed.

End ExportProofs.

(** X22. [export_safetensors] never fails on a state dict that lacks expected
    keys: it prints one warning for each of them, in the order of the table,
    and then saves the tensors of the expected keys that are present, each
    under its new name, none overwriting another, and reports their number.
    Keys outside the table are not exported. *)
Theorem export_safetensors_saves_present_keys (tensor : Type)
        (contiguous_cpu : tensor -> tensor)
        (state_dict : list (string * tensor)) (output_path : string) :
  export_safetensors contiguous_cpu state_dict output_path
  = map (@WarnMissing tensor) (missing_keys remap state_dict)
    ++ [SaveFile (expected_tensors contiguous_cpu remap state_dict) output_path;
        @PrintExported tensor (length (expected_tensors contiguous_cpu remap state_dict))
                      output_path] /\
  length (expected_tensors contiguous_cpu remap state_dict)
  + length (missing_keys remap state_dict) = 10.
Proof.
  split; [apply export_safetensors_spec|].
  unfold expected_tensors, missing_keys, remap. cbn [flat_map fst snd].
  repeat match goal with
         | |- context [dict_lookup state_dict ?k] => destruct (dict_lookup state_dict k)
         end; reflexivity.
Qed.
